(** * SIGame package import (SiqService): a shallow embedding

    The development follows [SiqService.parseSiq] and its helpers
    ([asArray], [getText], [extractContentItems], [parseContentItems],
    the media resolver [extractFile] and the round walker [processRound]).

    JavaScript strings are modelled by [string], read as sequences of code
    units below 256.  The built-ins whose result depends on Unicode tables
    or on third-party libraries (lower-casing, NFC/NFD, URI coding, the XML
    parser) are the fields of the class [Builtins]. *)

From stdpp Require Import base strings list gmap pretty.
From Stdlib Require Import ZArith Lia Ascii.

Local Open Scope string_scope.
Local Open Scope Z_scope.
Local Open Scope list_scope.
Local Set Warnings "-register-all".

(** ** JavaScript strings *)

Module JsString.

(** Code units that [String.prototype.trim] and the regexp class [\s]
    treat as white space (tab, LF, VT, FF, CR, space, NBSP). *)
Definition isSpace (c : ascii) : bool :=
  let n := nat_of_ascii c in
  ((9 <=? n)%nat && (n <=? 13)%nat) || (n =? 32)%nat || (n =? 160)%nat.

Definition isDigit (c : ascii) : bool :=
  let n := nat_of_ascii c in (48 <=? n)%nat && (n <=? 57)%nat.

Definition isLowerAZ (c : ascii) : bool :=
  let n := nat_of_ascii c in (97 <=? n)%nat && (n <=? 122)%nat.

Definition isUpperAZ (c : ascii) : bool :=
  let n := nat_of_ascii c in (65 <=? n)%nat && (n <=? 90)%nat.

Definition eqc (a b : ascii) : bool := Ascii.eqb a b.

Definition isEmpty (s : string) : bool :=
  match s with EmptyString => true | _ => false end.

(** [s.length] *)
Definition len (s : string) : nat := String.length s.

Fixpoint filter (p : ascii -> bool) (s : string) : string :=
  match s with
  | EmptyString => EmptyString
  | String c r => if p c then String c (filter p r) else filter p r
  end.

Fixpoint forallb (p : ascii -> bool) (s : string) : bool :=
  match s with
  | EmptyString => true
  | String c r => p c && forallb p r
  end.

Fixpoint trimStart (s : string) : string :=
  match s with
  | String c r => if isSpace c then trimStart r else s
  | EmptyString => EmptyString
  end.

Fixpoint trimEnd (s : string) : string :=
  match s with
  | EmptyString => EmptyString
  | String c r =>
      match trimEnd r with
      | EmptyString => if isSpace c then EmptyString else String c EmptyString
      | r' => String c r'
      end
  end.

(** [s.trim()] *)
Definition trim (s : string) : string := trimEnd (trimStart s).

(** [s.replace(/\s+/g, ' ')]: every maximal run of white space becomes
    one space. *)
Fixpoint collapseFrom (inRun : bool) (s : string) : string :=
  match s with
  | EmptyString => EmptyString
  | String c r =>
      if isSpace c
      then (if inRun then collapseFrom true r
            else String " "%char (collapseFrom true r))
      else String c (collapseFrom false r)
  end.
Definition collapseSpaces (s : string) : string := collapseFrom false s.

(** [s.replace(/^@/, '')] *)
Definition stripAt (s : string) : string :=
  match s with
  | String c r => if eqc c "@" then r else s
  | EmptyString => EmptyString
  end.

(** [s.startsWith(p)] *)
Fixpoint startsWith (p s : string) : bool :=
  match p, s with
  | EmptyString, _ => true
  | String a p', String b s' => eqc a b && startsWith p' s'
  | String _ _, EmptyString => false
  end.

(** [k.includes(t)] *)
Fixpoint includes (t s : string) : bool :=
  startsWith t s ||
  match s with
  | EmptyString => false
  | String _ r => includes t r
  end.

(** Global replacement of one code unit: [s.replace(/a/g, b)]. *)
Fixpoint replaceChar (a b : ascii) (s : string) : string :=
  match s with
  | EmptyString => EmptyString
  | String c r => String (if eqc c a then b else c) (replaceChar a b r)
  end.

(** Global replacement of a non-empty literal, scanning left to right:
    [skip] counts the code units of a match still to be dropped. *)
Fixpoint replaceFrom (pat rep : string) (skip : nat) (s : string) : string :=
  match s with
  | EmptyString => EmptyString
  | String c r =>
      match skip with
      | S k => replaceFrom pat rep k r
      | O =>
          if startsWith pat s
          then rep +:+ replaceFrom pat rep (Nat.pred (String.length pat)) r
          else String c (replaceFrom pat rep O r)
      end
  end.
Definition replaceAll (pat rep s : string) : string :=
  replaceFrom pat rep O s.

(** [s.split(sep).pop()] for a separator class [sep]: the text after the
    last separator, the whole string when there is none. *)
Fixpoint lastField (sep : ascii -> bool) (acc s : string) : string :=
  match s with
  | EmptyString => String.rev acc
  | String c r =>
      if sep c then lastField sep EmptyString r
      else lastField sep (String c acc) r
  end.
Definition popSplit (sep : ascii -> bool) (s : string) : string :=
  lastField sep EmptyString s.

Definition isSlash (c : ascii) : bool := eqc c "/" || eqc c "\".
Definition isDot (c : ascii) : bool := eqc c ".".

(** [parts.join(sep)] *)
Fixpoint join (sep : string) (parts : list string) : string :=
  match parts with
  | [] => EmptyString
  | [p] => p
  | p :: rest => p +:+ sep +:+ join sep rest
  end.

(** [a || b] on strings: the empty string is falsy. *)
Definition orElse (a b : string) : string := if isEmpty a then b else a.

Definition newline : string := String (ascii_of_nat 10) EmptyString.

End JsString.

(** ** JavaScript values produced by the XML parser *)

Module Js.

(** The object tree returned by [XMLParser.parse]: text leaves, leaves
    parsed as numbers or booleans, objects (attributes under ["@_name"]
    keys, text under ["#text"], children under their tag) and arrays for
    repeated tags.  A leaf parsed as a number is given by its canonical
    spelling [String(n)], as in [XNum "4"], [XNum "0.5"] or
    [XNum "1e+21"]: the service tests such a leaf for truthiness and
    converts it to a string, and does nothing else with it.  [undefined]
    is [None]. *)
Inductive XVal : Type :=
| XStr (s : string)
| XNum (spelling : string)
| XBool (b : bool)
| XObj (fields : list (string * XVal))
| XArr (items : list XVal).

Fixpoint assoc {A} (k : string) (l : list (string * A)) : option A :=
  match l with
  | [] => None
  | (k', v) :: r => if String.eqb k' k then Some v else assoc k r
  end.

(** [v[k]] for a property name [k] that no prototype defines. *)
Definition get (k : string) (v : XVal) : option XVal :=
  match v with
  | XObj fields => assoc k fields
  | _ => None
  end.

(** [v?.[k]] *)
Definition getOpt (k : string) (v : option XVal) : option XVal :=
  match v with Some x => get k x | None => None end.

Definition truthy (v : XVal) : bool :=
  match v with
  | XStr s => negb (JsString.isEmpty s)
  | XNum n => negb (String.eqb n "0" || String.eqb n "NaN")
  | XBool b => b
  | XObj _ | XArr _ => true
  end.

Definition truthyV (v : option XVal) : bool :=
  match v with Some x => truthy x | None => false end.

(** [a || b] *)
Definition orV (a b : option XVal) : option XVal :=
  if truthyV a then a else b.

Definition boolStr (b : bool) : string := if b then "true" else "false".

(** [String(v)], also what a template literal interpolates. *)
Fixpoint toStr (v : XVal) : string :=
  match v with
  | XStr s => s
  | XNum n => n
  | XBool b => boolStr b
  | XObj _ => "[object Object]"
  | XArr items => JsString.join "," (List.map toStr items)
  end.

Definition toStrV (v : option XVal) : string :=
  match v with Some x => toStr x | None => "undefined" end.

Definition isStr (v : XVal) : bool :=
  match v with XStr _ => true | _ => false end.

Definition digitVal (c : ascii) : Z := Z.of_nat (nat_of_ascii c) - 48.

Fixpoint digitsFrom (acc : option Z) (s : string) : option Z :=
  match s with
  | String c r =>
      if JsString.isDigit c
      then digitsFrom (Some (10 * default 0 acc + digitVal c)) r
      else acc
  | EmptyString => acc
  end.

(** The mathematical integer that [parseInt(s, 10)] reads: leading white
    space, an optional sign, then the longest run of decimal digits;
    [None] when there is no digit. *)
Definition parseDigits (s : string) : option Z :=
  match JsString.trimStart s with
  | String c r =>
      if JsString.eqc c "-" then Z.opp <$> digitsFrom None r
      else if JsString.eqc c "+" then digitsFrom None r
      else digitsFrom None (String c r)
  | EmptyString => None
  end.

(** The numbers that [parseInt] returns, [NaN] apart: a double with an
    integer value, given by that value, or an infinity. *)
Inductive JsNumber : Type :=
| Finite (value : Z)
| Infinite (negative : bool).

Coercion Finite : Z >-> JsNumber.

(** The double nearest to an integer, ties to the even significand; an
    infinity from [2^1024] on.  Up to [2^53] every integer is a double. *)
Definition roundDouble (z : Z) : JsNumber :=
  let a := Z.abs z in
  if a <=? 2 ^ 53 then Finite z
  else
    let e := Z.log2 a - 52 in
    let q := a / 2 ^ e in
    let r := a mod 2 ^ e in
    let half := 2 ^ (e - 1) in
    let q' := if (half <? r) || ((r =? half) && Z.odd q) then q + 1 else q in
    if 2 ^ 1024 <=? q' * 2 ^ e then Infinite (z <? 0)
    else Finite (Z.sgn z * (q' * 2 ^ e)).

(** [parseInt(s, 10)]; [None] is [NaN]. *)
Definition parseInt (s : string) : option JsNumber :=
  roundDouble <$> parseDigits s.

(** [n || 0] on a number: [NaN] and zero both give zero. *)
Definition orZero (n : option JsNumber) : JsNumber := default (Finite 0) n.

(** The shortest decimal [s * 10^j] that reads back as the double [v],
    for [v] above [2^53]: among the decimals with the fewest digits the
    one closest to [v], the even one on a tie.  The doubles next to [v]
    lie [2^e] above it and [2^e] below it, or [2^(e-1)] below it when
    [v] is a power of two. *)
Definition readsBack (v x : Z) : bool :=
  let e := Z.log2 v - 52 in
  let q := v / 2 ^ e in
  let below := if q =? 2 ^ 52 then 2 ^ (e - 1) else 2 ^ e in
  if Z.even q
  then (2 * v - below <=? 2 * x) && (2 * x <=? 2 * v + 2 ^ e)
  else (2 * v - below <? 2 * x) && (2 * x <? 2 * v + 2 ^ e).

Fixpoint shortestFrom (fuel : nat) (v j : Z) : Z * Z :=
  let p := 10 ^ j in
  let s1 := v / p in
  let ok1 := (1 <=? s1) && readsBack v (s1 * p) in
  let ok2 := readsBack v ((s1 + 1) * p) in
  let closer1 := v - s1 * p <? (s1 + 1) * p - v in
  let tie := v - s1 * p =? (s1 + 1) * p - v in
  if ok1 && ok2 then
    if closer1 || (tie && Z.even s1) then (s1, j) else (s1 + 1, j)
  else if ok1 then (s1, j)
  else if ok2 then (s1 + 1, j)
  else
    match fuel with
    | O => (v, 0)
    | S fuel' => shortestFrom fuel' v (j - 1)
    end.

Definition shortest (v : Z) : Z * Z :=
  let digits := String.length (pretty v) in
  shortestFrom digits v (Z.of_nat digits).

(** [String(v)] for a double [v] above [2^53]: the digits of the shortest
    decimal followed by zeros when that has at most 21 digits, and the
    exponent notation [d.ddde+x] beyond. *)
Definition largeText (v : Z) : string :=
  let '(s, j) := shortest v in
  let digits := pretty s in
  let n := Z.of_nat (String.length digits) + j in
  if n <=? 21 then pretty (s * 10 ^ j)
  else
    match digits with
    | String d EmptyString => String d ("e+" +:+ pretty (n - 1))
    | String d rest => String d ("." +:+ rest +:+ "e+" +:+ pretty (n - 1))
    | EmptyString => EmptyString
    end.

(** [String(n)], also what a template literal interpolates. *)
Definition numberText (n : JsNumber) : string :=
  match n with
  | Finite z =>
      if Z.abs z <=? 2 ^ 53 then pretty z
      else if z <? 0 then "-" +:+ largeText (- z)
      else largeText z
  | Infinite true => "-Infinity"
  | Infinite false => "Infinity"
  end.

End Js.

Import Js.

(** ** Built-ins taken as parameters *)

Class Builtins : Type := {
  (** [String.prototype.toLowerCase] *)
  toLowerCase : string -> string;
  (** [s.normalize('NFC')] and [s.normalize('NFD')] *)
  normalizeNFC : string -> string;
  normalizeNFD : string -> string;
  (** [decodeURIComponent] and [encodeURIComponent]; [None] when they throw *)
  decodeURIComponent : string -> option string;
  encodeURIComponent : string -> option string;
  (** [XMLParser.parse] of fast-xml-parser; [None] when it throws *)
  xmlParse : string -> option XVal
}.

(** ** Output types *)

Inductive MediaKind : Type := Images | Audio | Video.

Definition kindName (k : MediaKind) : string :=
  match k with Images => "Images" | Audio => "Audio" | Video => "Video" end.

(** A [File]: the name it was created with, its MIME type and its bytes. *)
Record File : Type := mkFile {
  file_name : string;
  file_type : string;
  file_data : string
}.

Inductive QuestionType : Type := TText | TAudio | TVideo | TSelect.
Inductive SpecialType : Type := SCat | SBet | SSpecial | SAuction.
Inductive RoundType : Type := Regular | Final.

(** ** SiqService helpers *)

(** [asArray] *)
Definition asArray (item : option XVal) : list XVal :=
  match item with
  | None => []
  | Some v =>
      if truthy v then match v with XArr l => l | _ => [v] end else []
  end.

(** [getText] *)
Definition getText (item : option XVal) : string :=
  match item with
  | None => ""
  | Some (XStr s) => s
  | Some (XNum n) => n
  | Some (XBool b) => boolStr b
  | Some v =>
      match get "#text" v with
      | Some t => toStr t
      | None => ""
      end
  end.

Definition nameIs (target : string) (p : XVal) : bool :=
  match get "@_name" p with
  | Some (XStr s) => String.eqb s target
  | _ => false
  end.

Inductive Slot : Type := SlotQuestion | SlotAnswer.

Definition slotName (t : Slot) : string :=
  match t with SlotQuestion => "question" | SlotAnswer => "answer" end.

Record ContentItem : Type := mkItem { ci_type : XVal; ci_text : string }.

(** [{ type: x['@_type'] || 'text', text: this.getText(x) }] *)
Definition toItem (x : XVal) : ContentItem :=
  {| ci_type := default (XStr "text") (orV (get "@_type" x) (Some (XStr "text")));
     ci_text := getText (Some x) |}.

(** [extractContentItems] *)
Definition extractContentItems (q : XVal) (target : Slot) : list ContentItem :=
  let legacy :=
    match target with
    | SlotQuestion =>
        if truthyV (getOpt "atom" (get "scenario" q))
        then List.map toItem (asArray (getOpt "atom" (get "scenario" q)))
        else []
    | SlotAnswer => []
    end in
  if truthyV (getOpt "param" (get "params" q)) then
    let params := asArray (getOpt "param" (get "params" q)) in
    match List.find (nameIs (slotName target)) params with
    | Some param =>
        if truthyV (get "item" param)
        then List.map toItem (asArray (get "item" param))
        else legacy
    | None => legacy
    end
  else legacy.

Record ContentData : Type := mkContent {
  cd_type : QuestionType;
  cd_parts : list string;
  cd_image : option File;
  cd_audio : option File;
  cd_video : option File
}.

Definition typeIs (ty : XVal) (s : string) : bool :=
  match ty with XStr t => String.eqb t s | _ => false end.

Section Content.

Variable extractor : string -> MediaKind -> option File.

(** One turn of the [for (const item of items)] loop of
    [parseContentItems]. *)
Definition contentStep (acc : ContentData) (item : ContentItem) : ContentData :=
  let content := ci_text item in
  let ty := ci_type item in
  if typeIs ty "text" || typeIs ty "say" then
    if negb (JsString.isEmpty content) && negb (JsString.startsWith "@" content)
    then mkContent (cd_type acc) (cd_parts acc ++ [content])
                   (cd_image acc) (cd_audio acc) (cd_video acc)
    else acc
  else if typeIs ty "image" then
    if negb (JsString.isEmpty content)
    then mkContent (cd_type acc) (cd_parts acc)
                   (extractor content Images) (cd_audio acc) (cd_video acc)
    else acc
  else if typeIs ty "voice" || typeIs ty "audio" then
    if negb (JsString.isEmpty content)
    then mkContent (match cd_type acc with TText => TAudio | t => t end)
                   (cd_parts acc)
                   (cd_image acc) (extractor content Audio) (cd_video acc)
    else acc
  else if typeIs ty "video" then
    if negb (JsString.isEmpty content)
    then mkContent TVideo (cd_parts acc)
                   (cd_image acc) (cd_audio acc) (extractor content Video)
    else acc
  else acc.

Definition contentInit : ContentData := mkContent TText [] None None None.

(** The loop of [parseContentItems]. *)
Definition contentLoop (items : list ContentItem) : ContentData :=
  fold_left contentStep items contentInit.

(** [textParts.join('\n').trim() || undefined] *)
Definition contentText (d : ContentData) : option string :=
  let t := JsString.trim (JsString.join JsString.newline (cd_parts d)) in
  if JsString.isEmpty t then None else Some t.

Record Payload : Type := mkPayload {
  p_type : QuestionType;
  p_text : option string;
  p_image : option File;
  p_audio : option File;
  p_video : option File
}.

(** [parseContentItems] *)
Definition parseContentItems (items : list ContentItem) : Payload :=
  let d := contentLoop items in
  mkPayload (cd_type d) (contentText d) (cd_image d) (cd_audio d) (cd_video d).

End Content.

(** ** The archive and its index *)

(** An entry of [contents.files]: the folder flag, the bytes and the
    [type] of the blob that [async('blob')] yields for it. *)
Record ZipObject : Type := mkZip {
  zo_dir : bool;
  zo_data : string;
  zo_type : string
}.

(** [contents.files], in the order of [Object.keys]. *)
Abbreviation ZipFiles := (list (string * ZipObject)).

(** [contents.file(path)]: the entry under exactly that name, unless it is
    a folder. *)
Definition zipFile (files : ZipFiles) (path : string) : option ZipObject :=
  match assoc path files with
  | Some o => if zo_dir o then None else Some o
  | None => None
  end.

(** A [Map<string, string>]: insertion order is kept, [set] on a present
    key replaces its value in place. *)
Abbreviation StrMap := (list (string * string)).

Fixpoint mapSet (k v : string) (m : StrMap) : StrMap :=
  match m with
  | [] => [(k, v)]
  | (k', v') :: r =>
      if String.eqb k' k then (k, v) :: r else (k', v') :: mapSet k v r
  end.

Definition mapGet (k : string) (m : StrMap) : option string := assoc k m.

(** A [Set<string>] in insertion order. *)
Definition setAdd (x : string) (l : list string) : list string :=
  if List.existsb (String.eqb x) l then l else l ++ [x].

Definition setAddOpt (x : option string) (l : list string) : list string :=
  match x with Some s => setAdd s l | None => l end.

Record Index : Type := mkIndex {
  zipFileMap : StrMap;
  baseNameMap : StrMap
}.

Section Resolver.

Context `{B : Builtins}.

(** [normalizeSearch] *)
Definition normalizeSearch (s : string) : string :=
  if JsString.isEmpty s then ""
  else JsString.collapseSpaces (normalizeNFC (toLowerCase (JsString.trim s))).

(** [getMimeType] *)
Definition getMimeType (filename blobType : string) : string :=
  if negb (JsString.isEmpty blobType)
     && negb (String.eqb blobType "application/octet-stream")
  then blobType
  else
    let ext := toLowerCase (JsString.popSplit JsString.isDot filename) in
    if String.eqb ext "png" then "image/png"
    else if String.eqb ext "jpg" || String.eqb ext "jpeg" then "image/jpeg"
    else if String.eqb ext "gif" then "image/gif"
    else if String.eqb ext "webp" then "image/webp"
    else if String.eqb ext "mp3" then "audio/mpeg"
    else if String.eqb ext "wav" then "audio/wav"
    else if String.eqb ext "ogg" then "audio/ogg"
    else if String.eqb ext "mp4" then "video/mp4"
    else if String.eqb ext "webm" then "video/webm"
    else if String.eqb ext "mov" then "video/quicktime"
    else JsString.orElse blobType "application/octet-stream".

(** [s.split(/[/\\]/).pop() || s] *)
Definition baseOf (s : string) : string :=
  JsString.orElse (JsString.popSplit JsString.isSlash s) s.

(** The body of the [forEach] over [Object.keys(contents.files)]. *)
Definition indexEntry (idx : Index) (pe : string * ZipObject) : Index :=
  let (path, entry) := pe in
  if zo_dir entry then idx
  else
    let normPath := normalizeSearch path in
    let zm := mapSet normPath path (zipFileMap idx) in
    let zm :=
      match decodeURIComponent path with
      | Some d =>
          let decoded := normalizeSearch d in
          if String.eqb decoded normPath then zm else mapSet decoded path zm
      | None => zm
      end in
    let zm :=
      match encodeURIComponent path with
      | Some e =>
          let encoded := normalizeSearch (JsString.replaceAll "%2F" "/" e) in
          if String.eqb encoded normPath then zm else mapSet encoded path zm
      | None => zm
      end in
    let normBase := normalizeSearch (baseOf path) in
    let bm := mapSet normBase path (baseNameMap idx) in
    let bm := mapSet (JsString.replaceChar "+" " " normBase) path bm in
    let bm := mapSet (JsString.replaceChar " " "+" normBase) path bm in
    mkIndex zm bm.

Definition buildIndex (files : ZipFiles) : Index :=
  fold_left indexEntry files (mkIndex [] []).

(** The candidate set of [extractFile], in insertion order. *)
Definition candidates (filename : string) : list string :=
  let rawName := JsString.stripAt filename in
  let cleanName := JsString.trim rawName in
  let baseName := baseOf cleanName in
  let c := setAdd cleanName [] in
  let c := setAdd baseName c in
  let c := setAdd rawName c in
  let c := setAdd (normalizeNFC cleanName) c in
  let c := setAdd (normalizeNFD cleanName) c in
  let c := setAddOpt (decodeURIComponent cleanName) c in
  let c := setAddOpt (decodeURIComponent baseName) c in
  let c := setAddOpt
             ((fun e => JsString.replaceAll ")" "%29"
                          (JsString.replaceAll "(" "%28"
                             (JsString.replaceAll "%2F" "/" e)))
                <$> encodeURIComponent cleanName) c in
  let c := setAdd (JsString.replaceChar "+" " " cleanName) c in
  let c := setAdd (JsString.replaceChar " " "+" cleanName) c in
  setAdd (JsString.replaceAll "&quot;" (String (ascii_of_nat 34) "")
            (JsString.replaceAll "&amp;" "&" cleanName)) c.

Definition prefixes (type : MediaKind) : list string :=
  [ ""; kindName type +:+ "/"; "Images/"; "Audio/"; "Video/"; "Texts/";
    toLowerCase (kindName type) +:+ "/" ].

Variable files : ZipFiles.
Variable idx : Index.

(** The first hit of the loop over prefixes and candidates. *)
Definition probePath (prefix cand : string) : option string :=
  match mapGet (normalizeSearch (prefix +:+ cand)) (zipFileMap idx) with
  | Some actualPath =>
      if negb (JsString.isEmpty actualPath) && bool_decide (is_Some (assoc actualPath files))
      then Some actualPath else None
  | None => None
  end.

Definition firstSome {A R} (f : A -> option R) (l : list A) : option R :=
  List.fold_right (fun a rest => match f a with Some r => Some r | None => rest end)
                  None l.

Definition stagePath (type : MediaKind) (cands : list string) : option string :=
  firstSome (fun prefix => firstSome (probePath prefix) cands) (prefixes type).

(** The loop over the base names of the candidates. *)
Definition probeBase (cand : string) : option string :=
  match mapGet (normalizeSearch (baseOf cand)) (baseNameMap idx) with
  | Some fallbackPath =>
      if JsString.isEmpty fallbackPath then None else Some fallbackPath
  | None => None
  end.

Definition stageBase (cands : list string) : option string :=
  firstSome probeBase cands.

(** The substring scan over the keys of [baseNameMap]. *)
Definition stageLoose (baseName : string) : option string :=
  let targetBase := normalizeSearch baseName in
  if (5 <? JsString.len targetBase)%nat then
    match List.find (fun k => JsString.includes targetBase k
                              || JsString.includes k targetBase)
                    (List.map fst (baseNameMap idx)) with
    | Some k => if JsString.isEmpty k then None else mapGet k (baseNameMap idx)
    | None => None
    end
  else None.

(** [new File([blob], baseName, { type: getMimeType(path, blob.type) })];
    a missing entry makes [contents.file(path)!.async] throw, which the
    [catch] of [extractFile] turns into [undefined]. *)
Definition fetch (baseName path : string) : option File :=
  match zipFile files path with
  | Some o => Some (mkFile baseName (getMimeType path (zo_type o)) (zo_data o))
  | None => None
  end.

(** [extractFile] *)
Definition extractFile (filename : string) (type : MediaKind) : option File :=
  if JsString.isEmpty filename then None
  else
    let cleanName := JsString.trim (JsString.stripAt filename) in
    let baseName := baseOf cleanName in
    let cands := candidates filename in
    match stagePath type cands with
    | Some p => fetch baseName p
    | None =>
        match stageBase cands with
        | Some p => fetch baseName p
        | None =>
            match stageLoose baseName with
            | Some p => fetch baseName p
            | None => None
            end
        end
    end.

End Resolver.

(** ** Exceptions *)

Inductive Error : Type :=
| ZipError        (** [zip.loadAsync] rejects *)
| ContentMissing  (** ['Invalid .siq file: content.xml not found'] *)
| XmlError        (** [XMLParser.parse] throws *)
| TypeError.      (** a property read on [undefined], a call of a non-function *)

Inductive Outcome (A : Type) : Type :=
| Ok (a : A)
| Throw (e : Error).
Arguments Ok {A} a.
Arguments Throw {A} e.

Definition bindO {A R} (m : Outcome A) (k : A -> Outcome R) : Outcome R :=
  match m with Ok a => k a | Throw e => Throw e end.

Notation "'let!' x ':=' m 'in' k" := (bindO m (fun x => k))
  (at level 10, x name, m at level 100, k at level 200).
Notation "'let!' ( x , y ) ':=' m 'in' k" :=
  (bindO m (fun xy => let '(x, y) := xy in k))
  (at level 10, x name, y name, m at level 100, k at level 200).

(** A loop whose body may throw. *)
Fixpoint foldO {A S} (f : S -> A -> Outcome S) (l : list A) (s : S) : Outcome S :=
  match l with
  | [] => Ok s
  | a :: r => let! s' := f s a in foldO f r s'
  end.

Definition isThrow {A} (o : Outcome A) : bool :=
  match o with Throw _ => true | Ok _ => false end.

(** ** Questions *)

(** [URL.createObjectURL(file)]: the URL stands for the file it was made
    from. *)
Inductive ObjectURL : Type := BlobURL (f : File).

Record Question : Type := mkQuestion {
  q_id : string;
  q_round : option XVal;
  q_category : option XVal;
  q_score : JsNumber;
  q_played : bool;
  q_type : QuestionType;
  q_question : option string;
  q_answer : string;
  q_answerOptions : option (list string);
  q_specialType : option SpecialType;
  q_specialDescription : string;
  q_questionImageUrl : option ObjectURL;
  q_questionAudioUrl : option ObjectURL;
  q_questionVideoUrl : option ObjectURL;
  q_answerImageUrl : option ObjectURL;
  q_answerAudioUrl : option ObjectURL;
  q_answerVideoUrl : option ObjectURL;
  q_audioUrl : option ObjectURL;
  q_videoUrl : option ObjectURL;
  q_audioFileName : option string;
  q_videoFileName : option string
}.

Record StorageEntry : Type := mkStorage {
  st_questionImage : option File;
  st_questionAudio : option File;
  st_questionVideo : option File;
  st_answerImage : option File;
  st_answerAudio : option File;
  st_answerVideo : option File;
  st_audio : option File;
  st_video : option File
}.

(** [Object.keys(storageEntry).length > 0] *)
Definition storageNonEmpty (e : StorageEntry) : bool :=
  bool_decide (is_Some (st_questionImage e)) || bool_decide (is_Some (st_questionAudio e))
  || bool_decide (is_Some (st_questionVideo e)) || bool_decide (is_Some (st_answerImage e))
  || bool_decide (is_Some (st_answerAudio e)) || bool_decide (is_Some (st_answerVideo e))
  || bool_decide (is_Some (st_audio e)) || bool_decide (is_Some (st_video e)).

(** The three collections that [parseSiq] fills, and the number of
    [Math.random()] calls made so far.  The two records are finite maps on
    the keys that the assignments create. *)
Record ParseState : Type := mkState {
  questions : list Question;
  fileStorage : gmap string StorageEntry;
  roundTypes : gmap string RoundType;
  draws : nat
}.

Definition initState : ParseState := mkState [] ∅ ∅ 0.

(** [record[k] = v] for a string [v] on a plain object.  The key
    [__proto__] names the accessor of the prototype, which ignores a
    value that is not an object: the assignment then creates no key. *)
Definition assignText {V} (k : string) (v : V) (m : gmap string V) : gmap string V :=
  if String.eqb k "__proto__" then m else <[k := v]> m.

(** ** Per-question steps of [processRound] *)

(** The price lookup and [parseInt(String(priceValue), 10) || 0]. *)
Definition priceValue (q : XVal) : option XVal :=
  let attr := orV (orV (orV (get "@_price" q) (get "@_cost" q)) (get "@_value" q))
                  (get "@_Price" q) in
  match attr with
  | Some v => Some v
  | None =>
      if truthyV (get "price" q) then Some (XStr (getText (get "price" q)))
      else if truthyV (get "cost" q) then Some (XStr (getText (get "cost" q)))
      else if truthyV (get "value" q) then Some (XStr (getText (get "value" q)))
      else None
  end.

Definition resolvePrice (q : XVal) : JsNumber :=
  orZero (parseInt (toStrV (priceValue q))).

(** The right answer: [answers.length > 0 ? getText(answers[0]) : ''] *)
Definition rightAnswer (q : XVal) : string :=
  match asArray (getOpt "answer" (get "right" q)) with
  | a :: _ => getText (Some a)
  | [] => ""
  end.

(** The merge of the right answer with the text of the answer slot. *)
Definition mergeAnswer (right : string) (contentText : option string) : string :=
  match contentText with
  | Some t =>
      if JsString.isEmpty t then right
      else if JsString.isEmpty right then t
      else right +:+ " (" +:+ t +:+ ")"
  | None => right
  end.

(** The text of one option of a [select] question. *)
Definition optionText (opt : XVal) : string :=
  let text := getText (Some opt) in
  if JsString.isEmpty text && truthyV (get "item" opt) then
    match asArray (get "item" opt) with
    | i :: _ => getText (Some i)
    | [] => text
    end
  else text.

Definition optionLine (opt : XVal) : string :=
  toStrV (get "@_name" opt) +:+ ": " +:+ optionText opt.

Definition isOptionsGroup (p : XVal) : bool :=
  nameIs "answerOptions" p &&
  match get "@_type" p with Some (XStr s) => String.eqb s "group" | _ => false end.

(** The [select] block: the forced type, if any, and the option lines. *)
Definition selectInfo (q : XVal) : bool * list string :=
  if truthyV (getOpt "param" (get "params" q)) then
    let params := asArray (getOpt "param" (get "params" q)) in
    match List.find (nameIs "answerType") params with
    | Some typeParam =>
        if String.eqb (getText (Some typeParam)) "select" then
          match List.find isOptionsGroup params with
          | Some optionsGroup =>
              if truthyV (get "param" optionsGroup)
              then (true, List.map optionLine (asArray (get "param" optionsGroup)))
              else (true, [])
          | None => (true, [])
          end
        else (false, [])
    | None => (false, [])
    end
  else (false, []).

(** [qId.replace(/[^a-zA-Z0-9_-]/g, '')] *)
Definition idChar (c : ascii) : bool :=
  JsString.isLowerAZ c || JsString.isUpperAZ c || JsString.isDigit c
  || JsString.eqc c "_" || JsString.eqc c "-".

Definition makeId (roundName category : option XVal) (price : JsNumber)
    (suffix : string) : string :=
  JsString.filter idChar
    (toStrV roundName +:+ "_" +:+ toStrV category +:+ "_" +:+ numberText price
       +:+ "_" +:+ suffix).

Section Assembler.

Context `{B : Builtins}.

(** [getParams] of the special-type block. *)
Definition getParams (typeSource : XVal) : list XVal :=
  (if truthyV (get "param" typeSource) then asArray (get "param" typeSource) else [])
  ++ (if truthyV (getOpt "param" (get "params" typeSource))
      then asArray (getOpt "param" (get "params" typeSource)) else []).

(** [Array.isArray(qTypeRaw) ? qTypeRaw[0] : qTypeRaw] *)
Definition firstType (qTypeRaw : XVal) : option XVal :=
  match qTypeRaw with
  | XArr l => List.head l
  | _ => Some qTypeRaw
  end.

(** The declared type name of a question and the node it was read from:
    the first [type] child, or else the [type] attribute of the question
    itself.  Reading [@_name] off [undefined] throws. *)
Definition typeSourceOf (q : XVal) : Outcome (option XVal * XVal) :=
  let fromAttribute :=
    if truthyV (get "@_type" q) then Ok (get "@_type" q, q)
    else Ok (Some (XStr ""), q) in
  match get "type" q with
  | Some qTypeRaw =>
      if truthy qTypeRaw then
        match firstType qTypeRaw with
        | None => Throw TypeError
        | Some typeSource =>
            let typeName := get "@_name" typeSource in
            let typeName :=
              if negb (truthyV typeName) && isStr typeSource
              then Some typeSource else typeName in
            Ok (typeName, typeSource)
        end
      else fromAttribute
  | None => fromAttribute
  end.

(** The special type and its description.  Non-ASCII literals of the
    source appear as their UTF-8 bytes. *)
Definition classifySpecial (typeName : option XVal) (typeSource : XVal)
    : Outcome (option SpecialType * string) :=
  if truthyV typeName then
    match typeName with
    | Some (XStr name) =>
        let lowerTypeName := toLowerCase name in
        let params := getParams typeSource in
        if String.eqb lowerTypeName "bagcat" || String.eqb lowerTypeName "cat" then
          let themeValue :=
            match params with
            | [] => ""
            | _ => getText (List.find (nameIs "theme") params)
            end in
          let costValue :=
            match params with
            | [] => ""
            | _ => getText (List.find (nameIs "cost") params)
            end in
          let themeValue :=
            if JsString.isEmpty themeValue
            then toStrV (orV (get "@_theme" typeSource) (Some (XStr "")))
            else themeValue in
          let costValue :=
            if JsString.isEmpty costValue
            then toStrV (orV (get "@_cost" typeSource) (Some (XStr "")))
            else costValue in
          Ok (Some SCat, "Тема: " +:+ themeValue +:+ ", Стоимость: " +:+ costValue)
        else if String.eqb lowerTypeName "sponsored" then
          Ok (Some SBet, "Вопрос со ставкой")
        else if String.eqb lowerTypeName "secret" then
          let mode := getText (List.find (nameIs "selectionMode") params) in
          Ok (Some SSpecial,
              if String.eqb mode "exceptCurrent" then "Секретный вопрос (Отдать другому)"
              else if String.eqb mode "current" then "Секретный вопрос (Играть самому)"
              else if String.eqb mode "any" then "Секретный вопрос (Выбор игрока)"
              else "Секретный вопрос")
        else if String.eqb lowerTypeName "stake" then
          Ok (Some SAuction, "Своя игра (Аукцион)")
        else Ok (None, "")
    | _ => Throw TypeError
    end
  else Ok (None, "").

Definition specialOf (q : XVal) : Outcome (option SpecialType * string) :=
  let! (typeName, typeSource) := typeSourceOf q in
  classifySpecial typeName typeSource.

Variable files : ZipFiles.
Variable idx : Index.
(** [rnd n] is [Math.random().toString(36).substr(2, 5)] at the [n]-th
    call of [Math.random]. *)
Variable rnd : nat -> string.

Definition url (f : option File) : option ObjectURL := BlobURL <$> f.

(** The [Question] object and the [storageEntry] built for a question
    node, given its special type and the random suffix drawn for it. *)
Definition newQuestion (roundName category : option XVal) (q : XVal)
    (special : option SpecialType * string) (suffix : string) : Question :=
  let price := resolvePrice q in
  let questionData :=
    parseContentItems (extractFile files idx) (extractContentItems q SlotQuestion) in
  let answerData :=
    parseContentItems (extractFile files idx) (extractContentItems q SlotAnswer) in
  let answerText := mergeAnswer (rightAnswer q) (p_text answerData) in
  let answerOptions := snd (selectInfo q) in
  let finalType := if fst (selectInfo q) then TSelect else p_type questionData in
  {| q_id := makeId roundName category price suffix;
     q_round := roundName;
     q_category := category;
     q_score := price;
     q_played := false;
     q_type := finalType;
     q_question := p_text questionData;
     q_answer := answerText;
     q_answerOptions :=
       match answerOptions with [] => None | _ => Some answerOptions end;
     q_specialType := fst special;
     q_specialDescription := snd special;
     q_questionImageUrl := url (p_image questionData);
     q_questionAudioUrl := url (p_audio questionData);
     q_questionVideoUrl := url (p_video questionData);
     q_answerImageUrl := url (p_image answerData);
     q_answerAudioUrl := url (p_audio answerData);
     q_answerVideoUrl := url (p_video answerData);
     q_audioUrl := url (p_audio questionData);
     q_videoUrl := url (p_video questionData);
     q_audioFileName := file_name <$> p_audio questionData;
     q_videoFileName := file_name <$> p_video questionData |}.

Definition storageEntryOf (q : XVal) : StorageEntry :=
  let questionData :=
    parseContentItems (extractFile files idx) (extractContentItems q SlotQuestion) in
  let answerData :=
    parseContentItems (extractFile files idx) (extractContentItems q SlotAnswer) in
  mkStorage (p_image questionData) (p_audio questionData) (p_video questionData)
            (p_image answerData) (p_audio answerData) (p_video answerData)
            (p_audio questionData) (p_video questionData).

(** The body of the loop over the questions of a theme. *)
Definition processQuestion (roundName category : option XVal)
    (st : ParseState) (q : XVal) : Outcome ParseState :=
  let! special := specialOf q in
  let nq := newQuestion roundName category q special (rnd (draws st)) in
  Ok {| questions := questions st ++ [nq];
        fileStorage :=
          if storageNonEmpty (storageEntryOf q)
          then <[q_id nq := storageEntryOf q]> (fileStorage st)
          else fileStorage st;
        roundTypes := roundTypes st;
        draws := S (draws st) |}.

Definition themeQuestions (theme : XVal) : list XVal :=
  asArray (getOpt "question" (get "questions" theme)).

Definition roundThemes (round : XVal) : list XVal :=
  asArray (getOpt "theme" (get "themes" round)).

Definition processTheme (roundName : option XVal) (st : ParseState) (theme : XVal)
    : Outcome ParseState :=
  foldO (processQuestion roundName (get "@_name" theme)) (themeQuestions theme) st.

(** [round['@_type'] === 'final'] *)
Definition isExplicitFinal (round : XVal) : bool :=
  match get "@_type" round with
  | Some (XStr s) => String.eqb s "final"
  | _ => false
  end.

Definition roundTypeOf (round : XVal) : RoundType :=
  if isExplicitFinal round then Final else Regular.

(** [processRound] *)
Definition processRound (st : ParseState) (round : XVal) : Outcome ParseState :=
  let roundName := get "@_name" round in
  let st1 := {| questions := questions st;
                fileStorage := fileStorage st;
                roundTypes :=
                  assignText (toStrV roundName) (roundTypeOf round) (roundTypes st);
                draws := draws st |} in
  foldO (processTheme roundName) (roundThemes round) st1.

Definition packageRounds (xmlObj : XVal) : list XVal :=
  asArray (getOpt "round" (getOpt "rounds" (get "package" xmlObj))).

End Assembler.

Record ParseResult : Type := mkResult {
  r_questions : list Question;
  r_fileStorage : gmap string StorageEntry;
  r_roundTypes : gmap string RoundType
}.

Section ParseSiq.

Context `{B : Builtins}.

(** [parseSiq].  [loaded] is what [zip.loadAsync(file)] settles to: the
    entries of the archive, or [None] when it rejects. *)
Definition parseSiq (loaded : option ZipFiles) (rnd : nat -> string)
    : Outcome ParseResult :=
  match loaded with
  | None => Throw ZipError
  | Some files =>
      match zo_data <$> zipFile files "content.xml" with
      | None => Throw ContentMissing
      | Some contentXml =>
          if JsString.isEmpty contentXml then Throw ContentMissing
          else
            match xmlParse contentXml with
            | None => Throw XmlError
            | Some xmlObj =>
                let idx := buildIndex files in
                let! st := foldO (processRound files idx rnd)
                                 (packageRounds xmlObj) initState in
                Ok (mkResult (questions st) (fileStorage st) (roundTypes st))
            end
      end
  end.

End ParseSiq.

(** ** Reference definitions

    The notions in which the properties below are stated. *)

(** A question node with the names of its round and of its theme. *)
Abbreviation Src := (option XVal * option XVal * XVal)%type.

Definition themeSrc (roundName : option XVal) (theme : XVal) : list Src :=
  List.map (fun q => (roundName, get "@_name" theme, q)) (themeQuestions theme).

Definition roundSrc (round : XVal) : list Src :=
  List.flat_map (themeSrc (get "@_name" round)) (roundThemes round).

(** Rounds, then themes, then questions, each in the order of the
    document. *)
Definition docOrder (xmlObj : XVal) : list Src :=
  List.flat_map roundSrc (packageRounds xmlObj).

(** The key under which [roundTypes] records a round. *)
Definition roundKey (round : XVal) : string := toStrV (get "@_name" round).

(** The assignments [roundTypes[roundName] = roundType] of a run over
    [rounds]. *)
Definition recordRounds (rounds : list XVal) (m : gmap string RoundType)
    : gmap string RoundType :=
  fold_left (fun m r => assignText (roundKey r) (roundTypeOf r) m) rounds m.

(** The atoms of the legacy scenario of a question node. *)
Definition legacyAtoms (q : XVal) : list XVal :=
  asArray (getOpt "atom" (get "scenario" q)).

(** The items on which the classifier calls the resolver for an image,
    and for an audio file. *)
Definition isImageItem (it : ContentItem) : bool :=
  typeIs (ci_type it) "image" && negb (JsString.isEmpty (ci_text it)).

Definition isAudioItem (it : ContentItem) : bool :=
  (typeIs (ci_type it) "voice" || typeIs (ci_type it) "audio")
  && negb (JsString.isEmpty (ci_text it)).

(** The last item of a list that satisfies [p]. *)
Definition lastWhere (p : ContentItem -> bool) (items : list ContentItem)
    : option ContentItem :=
  List.find p (rev items).

(** The first item of a list that satisfies [p]. *)
Definition firstWhere (p : ContentItem -> bool) (items : list ContentItem)
    : option ContentItem :=
  List.find p items.





(** The params of a question node: [asArray(q.params?.param)]. *)
Definition paramsOf (q : XVal) : list XVal :=
  asArray (getOpt "param" (get "params" q)).

(** The node bears the name [name]: its [name] attribute is that
    string. *)
Definition bearsName (name : string) (p : XVal) : Prop :=
  get "@_name" p = Some (XStr name).

(** The modern entry of a slot: the first entry of [params] that is named
    after the slot; none when no entry bears that name. *)
Inductive modernEntry (q : XVal) (target : Slot) : option XVal -> Prop :=
| modern_first before param after :
    paramsOf q = before ++ param :: after ->
    Forall (fun p => ~ bearsName (slotName target) p) before ->
    bearsName (slotName target) param ->
    modernEntry q target (Some param)
| modern_absent :
    Forall (fun p => ~ bearsName (slotName target) p) (paramsOf q) ->
    modernEntry q target None.

(** The items that a modern entry supplies: none when the entry is
    missing or holds no [item]. *)
Definition entryItems (e : option XVal) : option (list XVal) :=
  match e with
  | Some param =>
      if truthyV (get "item" param) then Some (asArray (get "item" param)) else None
  | None => None
  end.

(** Some param is named [answerType] and has the text [select]. *)
Definition hasSelectParam (q : XVal) : bool :=
  List.existsb (fun p => nameIs "answerType" p && String.eqb (getText (Some p)) "select")
               (paramsOf q).

(** The option lines that the [answerOptions] group declares, in the
    order of the document. *)
Definition declaredOptions (q : XVal) : list string :=
  match List.find isOptionsGroup (paramsOf q) with
  | Some group =>
      List.map (fun opt => toStrV (get "@_name" opt) +:+ ": " +:+ optionText opt)
               (asArray (get "param" group))
  | None => []
  end.

(** What fast-xml-parser builds with the options of the service:
    attribute values are strings, and an array stands for a tag that
    occurs more than once, so it is never empty. *)
Fixpoint wellFormed (v : XVal) : bool :=
  match v with
  | XObj fields =>
      (fix all (l : list (string * XVal)) : bool :=
         match l with
         | [] => true
         | (k, x) :: r =>
             (if JsString.startsWith "@_" k then isStr x else true)
             && wellFormed x && all r
         end) fields
  | XArr items =>
      match items with [] => false | _ => true end
      && (fix all (l : list XVal) : bool :=
            match l with
            | [] => true
            | x :: r => wellFormed x && all r
            end) items
  | _ => true
  end.

Definition wellFormedV (v : option XVal) : Prop :=
  forall x, v = Some x -> wellFormed x = true.

(** The digits of [Number.prototype.toString(36)]. *)
Definition isBase36 (c : ascii) : bool := JsString.isDigit c || JsString.isLowerAZ c.

Definition isUnderscore (c : ascii) : bool := JsString.eqc c "_".

(** The text of an id after its last underscore. *)
Definition suffixOf (id : string) : string := JsString.popSplit isUnderscore id.

(** The value of an [Outcome], if it is one. *)
Definition resultOf {A} (o : Outcome A) : option A :=
  match o with Ok a => Some a | Throw _ => None end.

(** The name contains both a plus sign and a space. *)
Definition mixesPlusAndSpace (name : string) : bool :=
  negb (JsString.forallb (fun c => negb (JsString.eqc c "+")) name)
  && negb (JsString.forallb (fun c => negb (JsString.eqc c " ")) name).

(** [m.has(k)] *)
Definition hasKey (k : string) (m : StrMap) : Prop := is_Some (mapGet k m).

Section Reference.

Context `{B : Builtins}.
Variable files : ZipFiles.
Variable idx : Index.
Variable rnd : nat -> string.

(** The special type of a question node, and the nodes on which the
    special-type block does not throw. *)
Definition specialOr (q : XVal) : option SpecialType * string :=
  match specialOf q with Ok sp => sp | Throw _ => (None, "") end.

Definition specialOk (s : Src) : Prop := isThrow (specialOf (snd s)) = false.

(** The question emitted for a source node at the [n]-th draw. *)
Definition emit (n : nat) (s : Src) : Question :=
  let '(roundName, category, q) := s in
  newQuestion files idx roundName category q (specialOr q) (rnd n).

Fixpoint emitAll (n : nat) (l : list Src) : list Question :=
  match l with
  | [] => []
  | s :: r => emit n s :: emitAll (S n) r
  end.

(** What a run of the question loop leaves behind. *)
Record Extends (srcs : list Src) (st st' : ParseState) : Prop := {
  ext_questions : questions st' = questions st ++ emitAll (draws st) srcs;
  ext_draws : draws st' = (draws st + length srcs)%nat;
  ext_roundTypes : roundTypes st' = roundTypes st;
  ext_ok : Forall specialOk srcs
}.

(** The text extracted from the answer slot of a question node, [""]
    when there is none. *)
Definition answerContentText (q : XVal) : string :=
  default ""
    (p_text (parseContentItems (extractFile files idx)
               (extractContentItems q SlotAnswer))).

(** The ways in which [parseSiq] fails before it walks the rounds. *)
Definition fatal (loaded : option ZipFiles) : Prop :=
  match loaded with
  | None => True
  | Some files =>
      match zipFile files "content.xml" with
      | None => True
      | Some o => zo_data o = "" \/ xmlParse (zo_data o) = None
      end
  end.

(** The parsed root document of an archive that is not [fatal]. *)
Definition rootDocument (files : ZipFiles) : option XVal :=
  match zipFile files "content.xml" with
  | Some o => if JsString.isEmpty (zo_data o) then None else xmlParse (zo_data o)
  | None => None
  end.

(** The root document in the words of the design: the first entry whose
    name is [content.xml] up to case and which is not a folder. *)
Definition rootEntryAnyCase (files : ZipFiles) : option ZipObject :=
  snd <$> List.find (fun pe => String.eqb (toLowerCase (fst pe)) "content.xml"
                               && negb (zo_dir (snd pe))) files.

Definition fatalAnyCase (loaded : option ZipFiles) : Prop :=
  match loaded with
  | None => True
  | Some files =>
      match rootEntryAnyCase files with
      | None => True
      | Some o => zo_data o = "" \/ xmlParse (zo_data o) = None
      end
  end.

(** The spellings under which an XML reference may name the same file:
    raw, NFC, NFD, percent-decoded and percent-encoded ... *)
Definition plainVariants (name : string) : list string :=
  [ name; normalizeNFC name; normalizeNFD name ]
  ++ option_list (decodeURIComponent name)
  ++ option_list (encodeURIComponent name).

(** ... and with a space for every [+], or a [+] for every space. *)
Definition exchangeVariants (name : string) : list string :=
  [ JsString.replaceChar "+" " " name; JsString.replaceChar " " "+" name ].

Definition variants (name : string) : list string :=
  plainVariants name ++ exchangeVariants name.

(** The three keys under which the base-name index records an entry: its
    normalised base name, and that with a space for every [+] and with
    a [+] for every space. *)
Definition baseKeys (path : string) : list string :=
  let normBase := normalizeSearch (baseOf path) in
  [ normBase; JsString.replaceChar "+" " " normBase;
    JsString.replaceChar " " "+" normBase ].

(** The variant is written without a leading [@] and without white space
    around it. *)
Definition isClean (v : string) : Prop :=
  v <> "" /\ JsString.trim (JsString.stripAt v) = v.

(** Every entry that the path index returns for a key probed for the
    reference is [path]: no other entry of the archive answers to it. *)
Definition onlyAnswer (idx : Index) (type : MediaKind) (path filename : string) : bool :=
  List.forallb
    (fun prefix =>
       List.forallb
         (fun cand =>
            match mapGet (normalizeSearch (prefix +:+ cand)) (zipFileMap idx) with
            | Some p => String.eqb p path
            | None => true
            end)
         (candidates filename))
    (prefixes type).

(** The same for the base-name index: every entry that it returns for
    the base name of a candidate of the reference is [path]. *)
Definition onlyBaseAnswer (idx : Index) (path filename : string) : bool :=
  List.forallb
    (fun cand =>
       match mapGet (normalizeSearch (baseOf cand)) (baseNameMap idx) with
       | Some p => String.eqb p path
       | None => true
       end)
    (candidates filename).

(** When a variant with [+] and space exchanged is within reach of the
    entry at [path]: the name does not hold both characters, so that
    exchanging back gives the name; or the variant is found through the
    base-name index, its normalised base name being one of the keys of
    the entry and no other entry answering there. *)
Definition exchangeReaches (idx : Index) (path name v : string) : Prop :=
  mixesPlusAndSpace name = false
  \/ (In (normalizeSearch (baseOf v)) (baseKeys path)
      /\ onlyBaseAnswer idx path v = true).

End Reference.

(** Properties of the built-ins that the resolver relies on: NFC is
    idempotent and undoes NFD; strings with the same NFC form keep the same
    NFC form when a prefix is put before them, when they are trimmed and
    when they are lower-cased; URI decoding works piecewise, leaves the
    accepted prefixes alone and undoes URI encoding. *)
Class BuiltinLaws `{B : Builtins} : Prop := {
  nfc_idempotent : forall s, normalizeNFC (normalizeNFC s) = normalizeNFC s;
  nfc_of_nfd : forall s, normalizeNFC (normalizeNFD s) = normalizeNFC s;
  canon_append : forall x a b,
    normalizeNFC a = normalizeNFC b ->
    normalizeNFC (x +:+ a) = normalizeNFC (x +:+ b);
  canon_trim : forall a b,
    normalizeNFC a = normalizeNFC b ->
    normalizeNFC (JsString.trim a) = normalizeNFC (JsString.trim b);
  canon_lower : forall a b,
    normalizeNFC a = normalizeNFC b ->
    normalizeNFC (toLowerCase a) = normalizeNFC (toLowerCase b);
  decode_append : forall a b a' b',
    decodeURIComponent a = Some a' -> decodeURIComponent b = Some b' ->
    decodeURIComponent (a +:+ b) = Some (a' +:+ b');
  decode_prefix : forall kind pre,
    In pre (prefixes kind) -> decodeURIComponent pre = Some pre;
  decode_encode : forall s e,
    encodeURIComponent s = Some e -> decodeURIComponent e = Some s
}.

(** ** The built-ins on ASCII text

    On strings of ASCII code units lower-casing maps [A-Z] to [a-z], both
    Unicode normalisation forms are the identity, and URI coding escapes
    single bytes.  Other code units are outside this instance: [encode]
    gives [None] on them and [decode] on their escapes. *)

Module Ascii7.

Definition lowerChar (c : ascii) : ascii :=
  if JsString.isUpperAZ c then ascii_of_nat (nat_of_ascii c + 32) else c.

Fixpoint lower (s : string) : string :=
  match s with
  | EmptyString => EmptyString
  | String c r => String (lowerChar c) (lower r)
  end.

Definition hexDigit (n : nat) : ascii :=
  if (n <? 10)%nat then ascii_of_nat (48 + n) else ascii_of_nat (55 + n).

Definition hexVal (c : ascii) : option nat :=
  let n := nat_of_ascii c in
  if JsString.isDigit c then Some (n - 48)%nat
  else if (65 <=? n)%nat && (n <=? 70)%nat then Some (n - 55)%nat
  else if (97 <=? n)%nat && (n <=? 102)%nat then Some (n - 87)%nat
  else None.

(** The characters [encodeURIComponent] leaves alone. *)
Definition unreserved (c : ascii) : bool :=
  JsString.isLowerAZ c || JsString.isUpperAZ c || JsString.isDigit c
  || List.existsb (Ascii.eqb c)
       ["-"; "_"; "."; "!"; "~"; "*"; "'"; "("; ")"]%char.

Fixpoint encode (s : string) : option string :=
  match s with
  | EmptyString => Some EmptyString
  | String c r =>
      let n := nat_of_ascii c in
      if unreserved c then String c <$> encode r
      else if (n <? 128)%nat then
        (fun e => String "%" (String (hexDigit (n / 16)) (String (hexDigit (n mod 16)) e)))
          <$> encode r
      else None
  end.

Fixpoint decode (s : string) : option string :=
  match s with
  | EmptyString => Some EmptyString
  | String c r =>
      if Ascii.eqb c "%" then
        match r with
        | String h (String l r') =>
            match hexVal h, hexVal l with
            | Some a, Some b =>
                if (a <? 8)%nat
                then String (ascii_of_nat (16 * a + b)) <$> decode r'
                else None
            | _, _ => None
            end
        | _ => None
        end
      else String c <$> decode r
  end.

End Ascii7.

(** ** Sample packages

    The XML parser is tabulated on the documents below; each entry pairs
    the text of a [content.xml] with the object fast-xml-parser returns
    for it. *)

Module Samples.

(** The documents of the examples and what the parser returns for them. *)
Definition textAtom (s : string) : XVal :=
  XObj [("#text", XStr s); ("@_type", XStr "text")].

Definition question (price : string) (rest : list (string * XVal)) : XVal :=
  XObj (rest ++ [("@_price", XStr price)]).

Definition theme (name : string) (qs : XVal) : XVal :=
  XObj [("questions", XObj [("question", qs)]); ("@_name", XStr name)].

Definition package (rounds : XVal) : XVal :=
  XObj [("package", XObj [("rounds", XObj [("round", rounds)])])].

(** A package shaped like the one of the service's test: a regular first
    round with a legacy text question and a modern image question, and
    an explicit final round. *)
Definition docTwoRounds : XVal :=
  package (XArr [
    XObj [("themes", XObj [("theme",
            theme "Simple Questions" (XArr [
              question "100"
                [("scenario", XObj [("atom", textAtom "What is 2+2?")]);
                 ("right", XObj [("answer", XNum "4")])];
              question "200"
                [("params", XObj [("param",
                    XObj [("item", XObj [("#text", XStr "question.jpg");
                                         ("@_type", XStr "image");
                                         ("@_isRef", XStr "True")]);
                          ("@_name", XStr "question");
                          ("@_type", XStr "content")])]);
                 ("right", XObj [("answer", XStr "Image Answer")])] ]))]);
          ("@_name", XStr "Round 1")];
    XObj [("themes", XObj [("theme",
            theme "Final Theme"
              (question "0"
                 [("scenario", XObj [("atom", textAtom "Final Q")]);
                  ("right", XObj [("answer", XStr "Final A")])]))]);
          ("@_name", XStr "Final Round");
          ("@_type", XStr "final")] ]).

Definition xmlTwoRounds : string :=
  "<package><rounds><round name='Round 1'><themes>" +:+
  "<theme name='Simple Questions'><questions>" +:+
  "<question price='100'><scenario><atom type='text'>What is 2+2?</atom>" +:+
  "</scenario><right><answer>4</answer></right></question>" +:+
  "<question price='200'><params><param name='question' type='content'>" +:+
  "<item type='image' isRef='True'>question.jpg</item></param></params>" +:+
  "<right><answer>Image Answer</answer></right></question>" +:+
  "</questions></theme></themes></round>" +:+
  "<round name='Final Round' type='final'><themes>" +:+
  "<theme name='Final Theme'><questions>" +:+
  "<question price='0'><scenario><atom type='text'>Final Q</atom>" +:+
  "</scenario><right><answer>Final A</answer></right></question>" +:+
  "</questions></theme></themes></round></rounds></package>".

Definition file (data : string) : ZipObject := mkZip false data "".
Definition folder : ZipObject := mkZip true "" "".

Definition archiveTwoRounds : ZipFiles :=
  [ ("content.xml", file xmlTwoRounds);
    ("Images/", folder);
    ("Images/question.jpg", file "JPEG") ].

(** A package whose only round is called "Final Round" and carries no
    [type] attribute. *)
Definition roundNamedFinal : XVal :=
  XObj [("themes", XObj [("theme",
          Samples.theme "T"
            (Samples.question "100" [("right", XObj [("answer", XStr "x")])]))]);
        ("@_name", XStr "Final Round")].

Definition docNamedFinal : XVal := Samples.package roundNamedFinal.

Definition xmlNamedFinal : string :=
  "<package><rounds><round name='Final Round'><themes><theme name='T'>" +:+
  "<questions><question price='100'><right><answer>x</answer></right>" +:+
  "</question></questions></theme></themes></round></rounds></package>".

(** A theme with two questions of the same price. *)
Definition docTwins : XVal :=
  Samples.package
    (XObj [("themes", XObj [("theme",
             Samples.theme "T" (XArr [Samples.question "100" [];
                                     Samples.question "100" []]))]);
           ("@_name", XStr "R")]).

Definition xmlTwins : string :=
  "<package><rounds><round name='R'><themes><theme name='T'><questions>" +:+
  "<question price='100'/><question price='100'/>" +:+
  "</questions></theme></themes></round></rounds></package>".

Definition documents : list (string * XVal) :=
  [ ("<package/>", XObj [("package", XStr "")]);
    (xmlTwoRounds, docTwoRounds);
    (xmlNamedFinal, docNamedFinal);
    (xmlTwins, docTwins) ].

Definition parse (s : string) : option XVal := assoc s documents.

Definition builtins : Builtins := {|
  toLowerCase := Ascii7.lower;
  normalizeNFC := fun s => s;
  normalizeNFD := fun s => s;
  decodeURIComponent := Ascii7.decode;
  encodeURIComponent := Ascii7.encode;
  xmlParse := parse
|}.


Definition archiveTwins : ZipFiles :=
  [ ("content.xml", Samples.file xmlTwins) ].

(** The archive of the two-round package with its root document stored
    as [Content.xml]. *)
Definition archiveCapitalised : ZipFiles :=
  [ ("Content.xml", Samples.file Samples.xmlTwoRounds);
    ("Images/question.jpg", Samples.file "JPEG") ].

Definition suffixes (n : nat) : string := "k3x9" +:+ pretty n.

End Samples.

(** A legacy question: scenario atoms and a right answer, no [params]. *)
Definition legacyQuestion : XVal :=
  Samples.question "100"
    [("scenario", XObj [("atom", Samples.textAtom "What is 2+2?")]);
     ("right", XObj [("answer", XNum "4")])].

(** A question with both shapes: modern entries for the answer and the
    question slot, in this order, and a legacy scenario. *)
Definition modernAnswerEntry : XVal :=
  XObj [("item", Samples.textAtom "new answer"); ("@_name", XStr "answer")].

Definition modernQuestionEntry : XVal :=
  XObj [("item", XArr [Samples.textAtom "new text";
                      XObj [("#text", XStr "new.png"); ("@_type", XStr "image")]]);
        ("@_name", XStr "question")].

Definition bothShapesQuestion : XVal :=
  Samples.question "100"
    [("params", XObj [("param", XArr [modernAnswerEntry; modernQuestionEntry])]);
     ("scenario", XObj [("atom", Samples.textAtom "old text")]);
     ("right", XObj [("answer", XStr "old answer")])].

(** Two image items in one slot, both present in the archive. *)
Definition archiveTwoImages : ZipFiles :=
  [ ("content.xml", Samples.file "<package/>");
    ("Images/a.png", Samples.file "bytes of a");
    ("Images/b.png", Samples.file "bytes of b") ].

Definition twoImageItems : list ContentItem :=
  [ mkItem (XStr "image") "a.png"; mkItem (XStr "image") "b.png" ].

(** A modern question whose answer slot carries text next to a right
    answer. *)
Definition answerTextQuestion : XVal :=
  XObj [("params", XObj [("param",
          XObj [("item", XObj [("#text", XStr "a remark"); ("@_type", XStr "text")]);
                ("@_name", XStr "answer")])]);
        ("right", XObj [("answer", XStr "Paris")]);
        ("@_price", XStr "100")].

(** A question priced [-100]. *)
Definition negativePriceQuestion : XVal := Samples.question "-100" [].


Definition selectParam : XVal :=
  XObj [("#text", XStr "select"); ("@_name", XStr "answerType")].

(** A select question that declares no [answerOptions] group. *)
Definition selectWithoutOptions : XVal :=
  XObj [("params", XObj [("param", selectParam)]); ("@_price", XStr "100")].

(** A select question with two options, the second one carrying its text
    in a nested item. *)
Definition selectWithOptions : XVal :=
  XObj [("params", XObj [("param", XArr [
          selectParam;
          XObj [("param", XArr [
                  XObj [("#text", XStr "Paris"); ("@_name", XStr "A")];
                  XObj [("item", XObj [("#text", XStr "Rome"); ("@_type", XStr "text")]);
                        ("@_name", XStr "B")] ]);
                ("@_name", XStr "answerOptions");
                ("@_type", XStr "group")] ])]);
        ("@_price", XStr "100")].

(** What [encode] writes for a character, [decode] reads back. *)
Definition escapeReadsBack (c : ascii) : bool :=
  let n := nat_of_ascii c in
  if Ascii7.unreserved c then negb (Ascii.eqb c "%")
  else if (n <? 128)%nat then
    match Ascii7.hexVal (Ascii7.hexDigit (n / 16)),
          Ascii7.hexVal (Ascii7.hexDigit (n mod 16)) with
    | Some a, Some b => (a <? 8)%nat && Ascii.eqb (ascii_of_nat (16 * a + b)) c
    | _, _ => false
    end
  else true.

Module Media.

(** Two files whose names differ by [+] against a space. *)
Definition archiveAliases : ZipFiles :=
  [ ("content.xml", Samples.file "<package/>");
    ("Images/a b.png", Samples.file "bytes of the first");
    ("Images/a+b.png", Samples.file "bytes of the second") ].

(** One media file, whose name starts with [+]. *)
Definition archiveLeadingPlus : ZipFiles :=
  [ ("content.xml", Samples.file "<package/>");
    ("Images/+a.png", Samples.file "bytes") ].

(** One media file with a [+] inside its name. *)
Definition archivePlus : ZipFiles :=
  [ ("content.xml", Samples.file "<package/>");
    ("Images/a+b.png", Samples.file "bytes") ].

(** One media file whose name holds both a [+] and a space. *)
Definition archiveMixed : ZipFiles :=
  [ ("content.xml", Samples.file "<package/>");
    ("Images/a+b c.png", Samples.file "bytes") ].

(** The same, and a file outside the accepted folders whose name is that
    name with a space for the [+]. *)
Definition archiveShadow : ZipFiles :=
  [ ("content.xml", Samples.file "<package/>");
    ("Images/a+b c.png", Samples.file "bytes");
    ("Other/a b c.png", Samples.file "other") ].

(** One media file whose name holds a [+] and runs of spaces. *)
Definition archiveSpaced : ZipFiles :=
  [ ("content.xml", Samples.file "<package/>");
    ("Images/a  b+ c.png", Samples.file "bytes") ].

Definition resolve (files : ZipFiles) (filename : string) : option string :=
  file_data <$> extractFile (B := Samples.builtins) files
                  (buildIndex (B := Samples.builtins) files) filename Images.

End Media.

(** ** Built-ins with a normalisation that is not the identity

    The code units below 256 hold no combining mark, so that on them NFC
    changes nothing.  To exercise the two normalisation forms, this
    instance lets the code unit 1 stand for the combining acute accent
    U+0301: NFD writes the letter e with acute (code unit 233) as [e]
    followed by it, and NFC puts the two together again.  Lower-casing
    and URI coding are those of the ASCII instance. *)

Module Accents.

Definition acute : ascii := ascii_of_nat 1.
Definition eAcute : ascii := ascii_of_nat 233.

Fixpoint decompose (s : string) : string :=
  match s with
  | EmptyString => EmptyString
  | String c r =>
      if Ascii.eqb c eAcute then String "e" (String acute (decompose r))
      else String c (decompose r)
  end.

Fixpoint compose (s : string) : string :=
  match s with
  | EmptyString => EmptyString
  | String c r =>
      match r with
      | String m r' =>
          if Ascii.eqb c "e" && Ascii.eqb m acute
          then String eAcute (compose r')
          else String c (compose r)
      | EmptyString => String c EmptyString
      end
  end.

Definition instance : Builtins := {|
  toLowerCase := Ascii7.lower;
  normalizeNFC := fun s => compose (decompose s);
  normalizeNFD := decompose;
  decodeURIComponent := Ascii7.decode;
  encodeURIComponent := Ascii7.encode;
  xmlParse := Samples.parse
|}.

(** A media file whose name holds the composed letter. *)
Definition cafe : string := "caf" +:+ String eAcute ".png".

Definition archive : ZipFiles :=
  [ ("content.xml", Samples.file "<package/>");
    ("Images/" +:+ cafe, Samples.file "bytes") ].

Definition find (filename : string) : option string :=
  file_data <$> extractFile (B := instance) archive
                  (buildIndex (B := instance) archive) filename Images.

End Accents.

(** ** Further reference definitions *)

(** The items whose value the classifier appends to the text: Text and Say
    items with a non-empty value that does not start with [@]. *)
Definition isTextItem (it : ContentItem) : bool :=
  (typeIs (ci_type it) "text" || typeIs (ci_type it) "say")
  && negb (JsString.isEmpty (ci_text it))
  && negb (JsString.startsWith "@" (ci_text it)).

(** The items on which the classifier calls the resolver for a video. *)
Definition isVideoItem (it : ContentItem) : bool :=
  typeIs (ci_type it) "video" && negb (JsString.isEmpty (ci_text it)).

(** The items that some [case] of the classifier acts on. *)
Definition isRelevantItem (it : ContentItem) : bool :=
  isTextItem it || isImageItem it || isAudioItem it || isVideoItem it.

(** [if (Object.keys(storageEntry).length > 0) fileStorage[id] = storageEntry] *)
Definition storeEntry (id : string) (e : StorageEntry)
    (m : gmap string StorageEntry) : gmap string StorageEntry :=
  if storageNonEmpty e then <[id := e]> m else m.

(** Every value of the map satisfies [P]. *)
Definition valuesIn (P : string -> Prop) (m : StrMap) : Prop :=
  forall k v, In (k, v) m -> P v.

(** The paths of the file entries of an archive. *)
Definition isFilePath (files : ZipFiles) (p : string) : Prop :=
  exists o, In (p, o) files /\ zo_dir o = false.

Section FurtherReference.

Context `{B : Builtins}.
Variable files : ZipFiles.
Variable idx : Index.
Variable rnd : nat -> string.

(** The assignments to [fileStorage] of a run of the question loop that
    starts at the [n]-th draw. *)
Fixpoint recordStorage (n : nat) (srcs : list Src) (m : gmap string StorageEntry)
    : gmap string StorageEntry :=
  match srcs with
  | [] => m
  | s :: r =>
      recordStorage (S n) r
        (storeEntry (q_id (emit files idx rnd n s)) (storageEntryOf files idx (snd s)) m)
  end.

End FurtherReference.

(** A question without its id. *)
Definition withoutId (q : Question) : Question :=
  {| q_id := "";
     q_round := q_round q;
     q_category := q_category q;
     q_score := q_score q;
     q_played := q_played q;
     q_type := q_type q;
     q_question := q_question q;
     q_answer := q_answer q;
     q_answerOptions := q_answerOptions q;
     q_specialType := q_specialType q;
     q_specialDescription := q_specialDescription q;
     q_questionImageUrl := q_questionImageUrl q;
     q_questionAudioUrl := q_questionAudioUrl q;
     q_questionVideoUrl := q_questionVideoUrl q;
     q_answerImageUrl := q_answerImageUrl q;
     q_answerAudioUrl := q_answerAudioUrl q;
     q_answerVideoUrl := q_answerVideoUrl q;
     q_audioUrl := q_audioUrl q;
     q_videoUrl := q_videoUrl q;
     q_audioFileName := q_audioFileName q;
     q_videoFileName := q_videoFileName q |}.

(** ** FileService and the file detector *)

Module JsText.

(** [s.split(sep)] for a one-character separator: the pieces between the
    separators, one piece for a string without separator. *)
Fixpoint splitFrom (sep : ascii) (cur s : string) : list string :=
  match s with
  | EmptyString => [String.rev cur]
  | String c r =>
      if JsString.eqc c sep then String.rev cur :: splitFrom sep EmptyString r
      else splitFrom sep (String c cur) r
  end.
Definition split (sep : ascii) (s : string) : list string :=
  splitFrom sep EmptyString s.

(** Two code units that a regular expression with the [i] flag and an
    ASCII pattern treats alike. *)
Definition sameLetter (a b : ascii) : bool :=
  Ascii.eqb (Ascii7.lowerChar a) (Ascii7.lowerChar b).

Fixpoint equalsNoCase (a b : string) : bool :=
  match a, b with
  | EmptyString, EmptyString => true
  | String x a', String y b' => sameLetter x y && equalsNoCase a' b'
  | _, _ => false
  end.

(** [/suffix$/i.test(s)] for a literal [suffix]. *)
Fixpoint endsWithNoCase (suffix s : string) : bool :=
  equalsNoCase suffix s
  || match s with
     | String _ r => endsWithNoCase suffix r
     | EmptyString => false
     end.

(** [/\.(e1|e2|...)$/i.test(name)] *)
Definition hasExtension (exts : list string) (name : string) : bool :=
  List.existsb (fun e => endsWithNoCase ("." +:+ e) name) exts.

End JsText.

(** A [File] picked from a folder: its [name] and its
    [webkitRelativePath]. *)
Record LocalFile : Type := mkLocal {
  lf_name : string;
  lf_path : string
}.

(** The values of [QuestionType] that [detectQuestionType] returns. *)
Inductive FolderType : Type := FMashup | FAudio | FVideo | FText.

Definition audioExtensions : list string := ["mp3"; "wav"; "ogg"; "m4a"].
Definition videoExtensions : list string := ["mp4"; "webm"; "avi"; "mov"].
Definition imageExtensions : list string := ["jpg"; "jpeg"; "png"; "webp"].

Definition isAudioName (f : LocalFile) : bool :=
  JsText.hasExtension audioExtensions (lf_name f).
Definition isVideoName (f : LocalFile) : bool :=
  JsText.hasExtension videoExtensions (lf_name f).
Definition isImageName (f : LocalFile) : bool :=
  JsText.hasExtension imageExtensions (lf_name f).

(** [findAudioFile], [findVideoFile], [findImageFiles] *)
Definition findAudioFile (files : list LocalFile) : option LocalFile :=
  List.find isAudioName files.
Definition findVideoFile (files : list LocalFile) : option LocalFile :=
  List.find isVideoName files.
Definition findImageFiles (files : list LocalFile) : list LocalFile :=
  List.filter isImageName files.

Section FileDetector.

Context `{B : Builtins}.

(** [findTextFile] *)
Definition findTextFile (files : list LocalFile) (fileName : string)
    : option LocalFile :=
  List.find (fun f => String.eqb (toLowerCase (lf_name f)) (toLowerCase fileName)) files.

(** [detectQuestionType] *)
Definition detectQuestionType (files : list LocalFile) : FolderType :=
  let fileNames := List.map (fun f => toLowerCase (lf_name f)) files in
  let hasAudio := List.existsb isAudioName files in
  let hasVideo := List.existsb isVideoName files in
  let hasImages := (2 <=? length (List.filter isImageName files))%nat in
  let hasQuestion := List.existsb (String.eqb "question.txt") fileNames in
  let hasAnswer := List.existsb (String.eqb "answer.txt") fileNames in
  if hasAudio && hasImages && negb hasQuestion then FMashup
  else if hasAudio && hasQuestion && hasAnswer then FAudio
  else if hasVideo && hasQuestion && hasAnswer then FVideo
  else if hasQuestion && hasAnswer && negb hasAudio && negb hasVideo then FText
  else if hasAudio && negb hasImages then FAudio
  else FMashup.

End FileDetector.

(** [FileStructure]: round name, then question folder, then the files of
    the folder.  The two levels are finite maps on the keys assigned to
    them. *)
Abbreviation FileStructure := (gmap string (gmap string (list LocalFile))).

(** The body of the [forEach] of [parseFileStructure]. *)
Definition addFile (structure : FileStructure) (file : LocalFile) : FileStructure :=
  match JsText.split "/" (lf_path file) with
  | _ :: roundName :: questionFolder :: _ =>
      let round := default ∅ (structure !! roundName) in
      let folder := default [] (round !! questionFolder) in
      <[roundName := <[questionFolder := folder ++ [file]]> round]> structure
  | _ => structure
  end.

(** [parseFileStructure] *)
Definition parseFileStructure (files : list LocalFile) : FileStructure :=
  fold_left addFile files ∅.

(** The file lies in the question folder [folder] of the round [round]:
    these are the second and the third segment of its relative path. *)
Definition inFolder (round folder : string) (file : LocalFile) : bool :=
  match JsText.split "/" (lf_path file) with
  | _ :: roundName :: questionFolder :: _ =>
      String.eqb roundName round && String.eqb questionFolder folder
  | _ => false
  end.

(** The files recorded for a question folder of a round, none when the
    round or the folder is not recorded. *)
Definition folderFiles (structure : FileStructure) (round folder : string)
    : list LocalFile :=
  default [] (structure !! round ≫= (.!! folder)).

(** The property names that every object inherits from
    [Object.prototype].  [structure[name]] reads them on an object that
    has no such key of its own, so the finite maps stand for the records
    only as long as no round or folder bears one of these names. *)
Definition prototypeNames : list string :=
  [ "__proto__"; "constructor"; "hasOwnProperty"; "isPrototypeOf";
    "propertyIsEnumerable"; "toLocaleString"; "toString"; "valueOf";
    "__defineGetter__"; "__defineSetter__"; "__lookupGetter__";
    "__lookupSetter__" ].

Definition isPlainName (s : string) : bool :=
  negb (List.existsb (String.eqb s) prototypeNames).

Definition hasPlainNames (file : LocalFile) : bool :=
  match JsText.split "/" (lf_path file) with
  | _ :: roundName :: questionFolder :: _ =>
      isPlainName roundName && isPlainName questionFolder
  | _ => true
  end.

(** No folder is recorded without a file, and no round without a
    folder. *)
Definition populated (structure : FileStructure) : Prop :=
  forall round folders,
    structure !! round = Some folders ->
    folders <> ∅
    /\ forall folder l, folders !! folder = Some l -> l <> [].

(** ** Further examples *)

(** What the service returns for the two-round package. *)
Definition parsedTwoRounds : ParseResult :=
  match parseSiq (B := Samples.builtins) (Some Samples.archiveTwoRounds)
          Samples.suffixes with
  | Ok res => res
  | Throw _ => mkResult [] ∅ ∅
  end.

(** The storage entry of its image question. *)
Definition imageEntry : StorageEntry :=
  mkStorage (Some (mkFile "question.jpg" "image/jpeg" "JPEG"))
            None None None None None None None.

(** The node of that question, with the names of its round and theme. *)
Definition imageQuestion : Src :=
  (Some (XStr "Round 1"), Some (XStr "Simple Questions"),
   Samples.question "200"
     [("params", XObj [("param",
         XObj [("item", XObj [("#text", XStr "question.jpg");
                              ("@_type", XStr "image");
                              ("@_isRef", XStr "True")]);
               ("@_name", XStr "question");
               ("@_type", XStr "content")])]);
      ("right", XObj [("answer", XStr "Image Answer")])]).

(** The files of a picked folder with one audio question. *)
Definition pickedFiles : list LocalFile :=
  [ mkLocal "Track.MP3" "pack/Round 1/Rock_100/Track.MP3";
    mkLocal "question.txt" "pack/Round 1/Rock_100/question.txt";
    mkLocal "Answer.txt" "pack/Round 1/Rock_100/Answer.txt";
    mkLocal "readme.txt" "pack/readme.txt" ].

(** * Properties *)

(** ** The traversal in document order *)

Section Traversal.

Context `{B : Builtins}.
Variable files : ZipFiles.
Variable idx : Index.
Variable rnd : nat -> string.

Lemma emitAll_app n l1 l2 :
  emitAll files idx rnd n (l1 ++ l2) = emitAll files idx rnd n l1 ++ emitAll files idx rnd (n + length l1) l2.
Proof.
  revert n; induction l1 as [|s l1 IH]; intros n; simpl.
  - by rewrite Nat.add_0_r.
  - rewrite IH. by replace (n + S (length l1))%nat with (S n + length l1)%nat by lia.
Qed.

Lemma Extends_nil st : Extends files idx rnd [] st st.
Proof. split; simpl; auto. by rewrite app_nil_r. Qed.

Lemma Extends_app l1 l2 st0 st1 st2 :
  Extends files idx rnd l1 st0 st1 -> Extends files idx rnd l2 st1 st2 -> Extends files idx rnd (l1 ++ l2) st0 st2.
Proof.
  intros [q1 d1 r1 o1] [q2 d2 r2 o2]. split.
  - rewrite q2, q1, d1, emitAll_app. by rewrite <- app_assoc.
  - rewrite d2, d1, length_app. lia.
  - congruence.
  - by apply Forall_app.
Qed.

Lemma processQuestion_Extends rn cat st q st' :
  processQuestion files idx rnd rn cat st q = Ok st' ->
  Extends files idx rnd [(rn, cat, q)] st st'.
Proof.
  unfold processQuestion, bindO. intros H.
  destruct (specialOf q) as [sp|e] eqn:Hs; [|discriminate].
  injection H as <-. split; simpl.
  - unfold specialOr. by rewrite Hs.
  - lia.
  - done.
  - constructor; [|constructor]. unfold specialOk. simpl. by rewrite Hs.
Qed.

Lemma processTheme_Extends rn st theme st' :
  processTheme files idx rnd rn st theme = Ok st' ->
  Extends files idx rnd (themeSrc rn theme) st st'.
Proof.
  unfold processTheme, themeSrc.
  generalize (themeQuestions theme) as qs. intros qs; revert st.
  induction qs as [|q qs IH]; intros st H; simpl in *.
  - injection H as <-. apply Extends_nil.
  - unfold bindO in H at 1.
    destruct (processQuestion _ _ _ _ _ st q) as [st1|] eqn:Hq; [|discriminate].
    apply processQuestion_Extends in Hq. apply IH in H.
    exact (Extends_app [_] _ _ _ _ Hq H).
Qed.

Lemma themes_Extends rn themes st st' :
  foldO (processTheme files idx rnd rn) themes st = Ok st' ->
  Extends files idx rnd (List.flat_map (themeSrc rn) themes) st st'.
Proof.
  revert st; induction themes as [|t ts IH]; intros st H; simpl in *.
  - injection H as <-. apply Extends_nil.
  - unfold bindO in H at 1.
    destruct (processTheme _ _ _ _ st t) as [st1|] eqn:Ht; [|discriminate].
    apply processTheme_Extends in Ht. apply IH in H.
    exact (Extends_app _ _ _ _ _ Ht H).
Qed.

(** What a run of the round loop leaves behind. *)
Lemma rounds_spec rounds st st' :
  foldO (processRound files idx rnd) rounds st = Ok st' ->
  questions st' = questions st ++ emitAll files idx rnd (draws st) (List.flat_map roundSrc rounds)
  /\ draws st' = (draws st + length (List.flat_map roundSrc rounds))%nat
  /\ roundTypes st' = recordRounds rounds (roundTypes st)
  /\ Forall specialOk (List.flat_map roundSrc rounds).
Proof.
  revert st; induction rounds as [|r rs IH]; intros st H; simpl in *.
  - injection H as <-. rewrite app_nil_r. repeat split; auto.
  - unfold bindO in H at 1.
    destruct (processRound _ _ _ st r) as [st1|] eqn:Hr; [|discriminate].
    unfold processRound in Hr. apply themes_Extends in Hr.
    fold (roundSrc r) in Hr.
    destruct Hr as [q1 d1 r1 o1]. simpl in *.
    destruct (IH _ H) as (q2 & d2 & r2 & o2).
    repeat split.
    + rewrite q2, q1, d1, emitAll_app. by rewrite <- app_assoc.
    + rewrite d2, d1, length_app. lia.
    + rewrite r2, r1. done.
    + apply Forall_app; split; auto.
Qed.

(** The loops run to completion when no question node makes the
    special-type block throw. *)
Lemma questions_total rn cat qs st :
  Forall (fun q => isThrow (specialOf q) = false) qs ->
  exists st', foldO (processQuestion files idx rnd rn cat) qs st = Ok st'.
Proof.
  intros H; revert st; induction H as [|q qs Hq _ IH]; intros st; simpl.
  - eauto.
  - unfold processQuestion at 1. destruct (specialOf q); [|discriminate].
    simpl. apply IH.
Qed.

Lemma themes_total rn themes st :
  Forall specialOk (List.flat_map (themeSrc rn) themes) ->
  exists st', foldO (processTheme files idx rnd rn) themes st = Ok st'.
Proof.
  revert st; induction themes as [|t ts IH]; intros st H; simpl in *.
  - eauto.
  - apply Forall_app in H as [Ht Hts].
    destruct (questions_total rn (get "@_name" t) (themeQuestions t) st) as [st1 H1].
    { unfold themeSrc in Ht. rewrite Forall_map in Ht.
      eapply Forall_impl; [exact Ht|]. intros q Hq. exact Hq. }
    unfold processTheme at 1. rewrite H1. simpl. by apply IH.
Qed.

Lemma rounds_total rounds st :
  Forall specialOk (List.flat_map roundSrc rounds) ->
  exists st', foldO (processRound files idx rnd) rounds st = Ok st'.
Proof.
  revert st; induction rounds as [|r rs IH]; intros st H; simpl in *.
  - eauto.
  - apply Forall_app in H as [Hr Hrs].
    edestruct (themes_total (get "@_name" r) (roundThemes r)) as [st1 H1];
      [exact Hr|].
    unfold processRound at 1. rewrite H1. simpl. by apply IH.
Qed.

End Traversal.

Lemma emitAll_lookup `{B : Builtins} files idx rnd n l i :
  emitAll files idx rnd n l !! i = emit files idx rnd (n + i) <$> l !! i.
Proof.
  revert n i; induction l as [|s l IH]; intros n i; [done|].
  destruct i as [|i]; simpl.
  - by rewrite Nat.add_0_r.
  - rewrite IH. by replace (n + S i)%nat with (S n + i)%nat by lia.
Qed.

(** ** The schema adapter *)

Lemma asArray_falsy v : truthyV v = false -> asArray v = [].
Proof.
  destruct v as [x|]; simpl; [|done]. intros ->. done.
Qed.

Lemma asArray_cons_truthy v x l : asArray v = x :: l -> truthyV v = true.
Proof.
  destruct v as [y|]; simpl; [|done]. destruct (truthy y); done.
Qed.

Lemma nameIs_bearsName name p : nameIs name p = true <-> bearsName name p.
Proof.
  unfold nameIs, bearsName. destruct (get "@_name" p) as [[s| | | |]|]; try (split; done).
  rewrite String.eqb_eq. split; [by intros -> | by intros [= ->]].
Qed.

Lemma find_unnamed name before rest :
  Forall (fun p => ~ bearsName name p) before ->
  List.find (nameIs name) (before ++ rest) = List.find (nameIs name) rest.
Proof.
  induction 1 as [|p before Hp _ IH]; [done|]. simpl.
  destruct (nameIs name p) eqn:E; [|done]. by apply nameIs_bearsName in E.
Qed.

Lemma find_modernEntry q target e :
  modernEntry q target e ->
  List.find (nameIs (slotName target)) (paramsOf q) = e.
Proof.
  intros [before param after Hl Hb Hn|Hall].
  - rewrite Hl, (find_unnamed _ _ _ Hb). simpl.
    by rewrite (proj2 (nameIs_bearsName _ _) Hn).
  - rewrite <- (app_nil_r (paramsOf q)), (find_unnamed _ _ _ Hall). done.
Qed.

(** Every question node has a modern entry or none, for either slot. *)
Lemma modernEntry_total q target : exists e, modernEntry q target e.
Proof.
  assert (forall l, (exists before param after,
                        l = before ++ param :: after
                        /\ Forall (fun p => ~ bearsName (slotName target) p) before
                        /\ bearsName (slotName target) param)
                    \/ Forall (fun p => ~ bearsName (slotName target) p) l) as H.
  { induction l as [|p l [(before & param & after & -> & Hb & Hn)|IH]].
    - by right.
    - destruct (nameIs (slotName target) p) eqn:E.
      + left. exists [], p, (before ++ param :: after).
        repeat split; [constructor|by apply nameIs_bearsName].
      + left. exists (p :: before), param, after. repeat split; [|done].
        constructor; [|done]. rewrite <- nameIs_bearsName. congruence.
    - destruct (nameIs (slotName target) p) eqn:E.
      + left. exists [], p, l. repeat split; [constructor|by apply nameIs_bearsName].
      + right. constructor; [|done]. rewrite <- nameIs_bearsName. congruence. }
  destruct (H (paramsOf q)) as [(before & param & after & Hl & Hb & Hn)|Hall].
  - exists (Some param). by apply (modern_first _ _ before param after).
  - exists None. by apply modern_absent.
Qed.

Lemma extractContentItems_entry q target e :
  modernEntry q target e ->
  extractContentItems q target
  = match entryItems e with
    | Some items => List.map toItem items
    | None =>
        match target with
        | SlotQuestion => List.map toItem (legacyAtoms q)
        | SlotAnswer => []
        end
    end.
Proof.
  intros He. apply find_modernEntry in He.
  unfold extractContentItems, entryItems, legacyAtoms. unfold paramsOf in He.
  destruct (truthyV (getOpt "param" (get "params" q))) eqn:Hp.
  - rewrite He. destruct e as [param|]; [destruct (truthyV (get "item" param))|];
      try reflexivity;
      destruct target; try reflexivity;
      destruct (truthyV (getOpt "atom" (get "scenario" q))) eqn:Ha; try reflexivity;
      by rewrite (asArray_falsy _ Ha).
  - rewrite (asArray_falsy _ Hp) in He. simpl in He. subst e. simpl.
    destruct target; try reflexivity.
    destruct (truthyV (getOpt "atom" (get "scenario" q))) eqn:Ha; try reflexivity.
    by rewrite (asArray_falsy _ Ha).
Qed.

(** C8. The schema adapter probes the modern shape first: when the
    [params] of the question hold an entry named after the slot, the
    first such entry, and it has items, these are returned, whatever the
    legacy scenario holds.  Otherwise the legacy scenario atoms are
    returned, and those for the [question] slot only: the [answer] slot
    of a question without a modern answer entry is the empty list, and a
    question with neither shape yields the empty list for both slots.
    Either slot of every question falls under one of these cases. *)
Theorem extractContentItems_adapter (q : XVal) :
  (forall target, exists e, modernEntry q target e)
  /\ (forall target param,
      modernEntry q target (Some param) ->
      truthyV (get "item" param) = true ->
      extractContentItems q target = List.map toItem (asArray (get "item" param)))
  /\ (forall e,
      modernEntry q SlotQuestion e -> entryItems e = None ->
      extractContentItems q SlotQuestion = List.map toItem (legacyAtoms q))
  /\ (forall e,
      modernEntry q SlotAnswer e -> entryItems e = None ->
      extractContentItems q SlotAnswer = [])
  /\ (forall target e,
      modernEntry q target e -> entryItems e = None -> legacyAtoms q = [] ->
      extractContentItems q target = []).
Proof.
  split; [intros target; apply modernEntry_total|]. repeat split.
  - intros target param He Hi. rewrite (extractContentItems_entry _ _ _ He).
    simpl. by rewrite Hi.
  - intros e He Hi. by rewrite (extractContentItems_entry _ _ _ He), Hi.
  - intros e He Hi. by rewrite (extractContentItems_entry _ _ _ He), Hi.
  - intros target e He Hi Hl. rewrite (extractContentItems_entry _ _ _ He), Hi.
    destruct target; [by rewrite Hl|done].
Qed.

Lemma extractContentItems_adapter_witness :
  extractContentItems bothShapesQuestion SlotQuestion
    = [mkItem (XStr "text") "new text"; mkItem (XStr "image") "new.png"]
  /\ extractContentItems bothShapesQuestion SlotAnswer
    = [mkItem (XStr "text") "new answer"]
  /\ extractContentItems legacyQuestion SlotQuestion
    = [mkItem (XStr "text") "What is 2+2?"]
  /\ extractContentItems legacyQuestion SlotAnswer = [].
Proof.
  destruct (extractContentItems_adapter bothShapesQuestion) as (_ & Hm & _).
  destruct (extractContentItems_adapter legacyQuestion) as (_ & _ & Hq & Ha & _).
  split; [|split; [|split]].
  - rewrite (Hm SlotQuestion modernQuestionEntry); [reflexivity| |reflexivity].
    apply (modern_first _ _ [modernAnswerEntry] modernQuestionEntry []);
      [reflexivity| |reflexivity].
    constructor; [|constructor]. discriminate.
  - rewrite (Hm SlotAnswer modernAnswerEntry); [reflexivity| |reflexivity].
    apply (modern_first _ _ [] modernAnswerEntry [modernQuestionEntry]);
      [reflexivity|constructor|reflexivity].
  - rewrite (Hq None); [reflexivity| |reflexivity]. apply modern_absent. constructor.
  - apply (Ha None); [|reflexivity]. apply modern_absent. constructor.
Defined.

(** ** The content classifier *)

Lemma typeIs_excl ty a b : a <> b -> typeIs ty a = true -> typeIs ty b = false.
Proof.
  destruct ty; simpl; try done. intros Hab Ha.
  apply String.eqb_eq in Ha. subst. by apply String.eqb_neq.
Qed.

Section ClassifierFacts.

Variable extractor : string -> MediaKind -> option File.

Lemma contentStep_image acc it :
  cd_image (contentStep extractor acc it)
  = if isImageItem it then extractor (ci_text it) Images else cd_image acc.
Proof.
  unfold contentStep, isImageItem.
  destruct (typeIs (ci_type it) "text") eqn:Ht.
  { rewrite (typeIs_excl _ "text" "image") by done. simpl.
    by destruct (_ && _). }
  destruct (typeIs (ci_type it) "say") eqn:Hs.
  { rewrite (typeIs_excl _ "say" "image") by done. simpl.
    by destruct (_ && _). }
  simpl. destruct (typeIs (ci_type it) "image") eqn:Hi; simpl.
  { by destruct (JsString.isEmpty (ci_text it)). }
  destruct (_ || _); [by destruct (negb _)|].
  destruct (typeIs _ "video"); [by destruct (negb _)|done].
Qed.

Lemma contentStep_audio acc it :
  cd_audio (contentStep extractor acc it)
  = if isAudioItem it then extractor (ci_text it) Audio else cd_audio acc.
Proof.
  unfold contentStep, isAudioItem.
  destruct (typeIs (ci_type it) "text") eqn:Ht.
  { rewrite (typeIs_excl _ "text" "voice"), (typeIs_excl _ "text" "audio") by done.
    simpl. by destruct (_ && _). }
  destruct (typeIs (ci_type it) "say") eqn:Hs.
  { rewrite (typeIs_excl _ "say" "voice"), (typeIs_excl _ "say" "audio") by done.
    simpl. by destruct (_ && _). }
  simpl. destruct (typeIs (ci_type it) "image") eqn:Hi; simpl.
  { rewrite (typeIs_excl _ "image" "voice"), (typeIs_excl _ "image" "audio") by done.
    simpl. by destruct (negb _). }
  destruct (_ || _); simpl; [by destruct (JsString.isEmpty (ci_text it))|].
  destruct (typeIs _ "video"); [by destruct (negb _)|done].
Qed.

Lemma contentLoop_snoc items it :
  contentLoop extractor (items ++ [it])
  = contentStep extractor (contentLoop extractor items) it.
Proof. unfold contentLoop. by rewrite fold_left_app. Qed.

Lemma lastWhere_snoc p items it :
  lastWhere p (items ++ [it]) = if p it then Some it else lastWhere p items.
Proof. unfold lastWhere. by rewrite rev_unit. Qed.

(** C4 (amended). The image slot of the payload is the blob resolved
    from the last Image item with a non-empty value, and the audio slot
    the blob resolved from the last Voice/Audio item with a non-empty
    value: a later item of the same kind replaces an earlier one. *)
Theorem parseContentItems_last_wins (items : list ContentItem) :
  p_image (parseContentItems extractor items)
    = (it ← lastWhere isImageItem items; extractor (ci_text it) Images)
  /\ p_audio (parseContentItems extractor items)
    = (it ← lastWhere isAudioItem items; extractor (ci_text it) Audio).
Proof.
  unfold parseContentItems; simpl.
  induction items as [|it items [IHi IHa]] using rev_ind; [done|].
  rewrite contentLoop_snoc, contentStep_image, contentStep_audio,
    !lastWhere_snoc.
  split.
  - destruct (isImageItem it); [done|exact IHi].
  - destruct (isAudioItem it); [done|exact IHa].
Qed.

End ClassifierFacts.

(** C4 (as stated) fails: with two Image items the payload carries the
    blob of the second one, not the blob resolved from the first. *)
Lemma parseContentItems_first_image_counterexample :
  let resolve := extractFile (B := Samples.builtins) archiveTwoImages
                   (buildIndex (B := Samples.builtins) archiveTwoImages) in
  firstWhere isImageItem twoImageItems = Some (mkItem (XStr "image") "a.png")
  /\ resolve "a.png" Images = Some (mkFile "a.png" "image/png" "bytes of a")
  /\ p_image (parseContentItems resolve twoImageItems)
     = Some (mkFile "b.png" "image/png" "bytes of b")
  /\ p_image (parseContentItems resolve twoImageItems)
     <> (it ← firstWhere isImageItem twoImageItems; resolve (ci_text it) Images).
Proof.
  vm_compute. repeat split; discriminate.
Qed.

(** ** The answer text *)

Lemma contentText_nonempty d t : contentText d = Some t -> t <> "".
Proof.
  unfold contentText. destruct (JsString.trim _) eqn:E; simpl; [done|].
  intros [= <-]. done.
Qed.

Lemma isEmpty_false s : JsString.isEmpty s = false <-> s <> "".
Proof. destruct s; simpl; split; congruence. Qed.

Section AnswerText.

Context `{B : Builtins}.
Variable files : ZipFiles.
Variable idx : Index.

(** C10. The emitted answer is the right answer followed by the content
    text in parentheses when both are non-empty, the content text alone
    when only it is non-empty, and the right answer unchanged
    otherwise. *)
Theorem answer_text_merge (roundName category : option XVal) (q : XVal)
    (special : option SpecialType * string) (suffix : string) :
  let right := rightAnswer q in
  let content := answerContentText files idx q in
  let emitted := q_answer (newQuestion files idx roundName category q special suffix) in
  (right <> "" -> content <> "" -> emitted = right +:+ " (" +:+ content +:+ ")")
  /\ (right = "" -> content <> "" -> emitted = content)
  /\ (content = "" -> emitted = right).
Proof.
  cbv zeta. unfold newQuestion; cbn [q_answer].
  unfold answerContentText, mergeAnswer.
  destruct (p_text _) as [t|] eqn:Ht; cbn [default].
  - assert (t <> "") as Hne.
    { unfold parseContentItems in Ht. simpl in Ht.
      by apply contentText_nonempty in Ht. }
    apply isEmpty_false in Hne as He. rewrite He.
    repeat split.
    + intros Hr _. apply isEmpty_false in Hr. by rewrite Hr.
    + intros -> _. done.
    + done.
  - repeat split; done.
Qed.

End AnswerText.

Lemma answer_text_merge_witness :
  q_answer (newQuestion (B := Samples.builtins) archiveTwoImages
              (buildIndex (B := Samples.builtins) archiveTwoImages)
              (Some (XStr "R")) (Some (XStr "T")) answerTextQuestion (None, "") "abcde")
  = "Paris (a remark)".
Proof.
  pose proof (answer_text_merge (B := Samples.builtins) archiveTwoImages
                (buildIndex (B := Samples.builtins) archiveTwoImages)
                (Some (XStr "R")) (Some (XStr "T")) answerTextQuestion (None, "") "abcde")
    as (H & _ & _).
  rewrite H; [reflexivity | vm_compute; discriminate | vm_compute; discriminate].
Defined.

(** ** The score *)




Lemma roundDouble_exact z : Z.abs z <= 2 ^ 53 -> roundDouble z = Finite z.
Proof.
  intros H. unfold roundDouble. cbv zeta.
  by rewrite (proj2 (Z.leb_le _ _) H).
Qed.



Lemma pretty_N_char_digit d :
  (d < 10)%N ->
  JsString.isDigit (pretty_N_char d) = true
  /\ digitVal (pretty_N_char d) = Z.of_N d.
Proof.
  intros H.
  assert (d = 0 \/ d = 1 \/ d = 2 \/ d = 3 \/ d = 4 \/ d = 5 \/ d = 6 \/ d = 7
          \/ d = 8 \/ d = 9)%N
    as [->|[->|[->|[->|[->|[->|[->|[->|[->| ->]]]]]]]]] by lia;
    by split.
Qed.

Lemma digitsFrom_pretty_go x s :
  (0 < x)%N ->
  digitsFrom None (pretty_N_go x s) = digitsFrom (Some (Z.of_N x)) s.
Proof.
  revert s. induction (N.lt_wf_0 x) as [x _ IH]. intros s Hx.
  rewrite pretty_N_go_step by done.
  destruct (pretty_N_char_digit (x `mod` 10)%N) as [Hd Hv];
    [by apply N.mod_lt|].
  destruct (decide (x `div` 10 = 0)%N) as [H0|H0].
  - rewrite H0, pretty_N_go_0. cbn [digitsFrom]. rewrite Hd, Hv. simpl default.
    do 2 f_equal. pose proof (N.div_mod x 10 ltac:(done)) as Hdm.
    revert Hdm H0. generalize (x `mod` 10)%N (x `div` 10)%N. clear. lia.
  - rewrite IH; [|by apply N.div_lt|by apply N.neq_0_lt_0]. cbn [digitsFrom].
    rewrite Hd, Hv.
    simpl default. do 2 f_equal. pose proof (N.div_mod x 10 ltac:(done)) as Hdm.
    revert Hdm. generalize (x `mod` 10)%N (x `div` 10)%N. clear. lia.
Qed.

Lemma pretty_go_head x s :
  (0 < x)%N ->
  exists c r, pretty_N_go x s = String c r /\ JsString.isDigit c = true.
Proof.
  revert s. induction (N.lt_wf_0 x) as [x _ IH]. intros s Hx.
  rewrite pretty_N_go_step by done.
  destruct (decide (x `div` 10 = 0)%N) as [H0|H0].
  - rewrite H0, pretty_N_go_0. eexists _, _. split; [done|].
    by apply pretty_N_char_digit, N.mod_lt.
  - apply IH; [by apply N.div_lt|by apply N.neq_0_lt_0].
Qed.

Lemma digit_plain c :
  JsString.isDigit c = true ->
  JsString.isSpace c = false /\ JsString.eqc c "-" = false /\ JsString.eqc c "+" = false.
Proof.
  intros H. repeat split.
  - unfold JsString.isDigit, JsString.isSpace in *. cbv zeta in *.
    apply andb_prop in H as [H1 H2]. apply Nat.leb_le in H1, H2.
    apply orb_false_intro; [apply orb_false_intro|].
    + apply andb_false_intro2. apply Nat.leb_gt. lia.
    + apply Nat.eqb_neq. lia.
    + apply Nat.eqb_neq. lia.
  - unfold JsString.eqc. by destruct (Ascii.eqb_spec c "-") as [->|].
  - unfold JsString.eqc. by destruct (Ascii.eqb_spec c "+") as [->|].
Qed.

Lemma parseDigits_pretty_pos p : parseDigits (pretty (Z.pos p)) = Some (Z.pos p).
Proof.
  unfold pretty, pretty_Z, pretty, pretty_positive, pretty, pretty_N.
  destruct (decide (N.pos p = 0%N)); [done|].
  destruct (pretty_go_head (N.pos p) "") as (c & r & Hcr & Hc); [done|].
  destruct (digit_plain c Hc) as (Hs & Hm & Hp).
  unfold parseDigits. rewrite Hcr. cbn [JsString.trimStart]. rewrite Hs, Hm, Hp.
  rewrite <- Hcr. by rewrite digitsFrom_pretty_go.
Qed.

(** The decimal printer is read back digit for digit. *)
Lemma parseDigits_pretty (n : Z) : parseDigits (pretty n) = Some n.
Proof.
  destruct n as [|p|p]; [done|apply parseDigits_pretty_pos|].
  pose proof (parseDigits_pretty_pos p) as H.
  unfold pretty at 1. unfold pretty_Z.
  change ("-" +:+ pretty p) with (String "-" (pretty p)).
  unfold parseDigits in *. cbn [JsString.trimStart].
  change (JsString.isSpace "-") with false. cbn iota.
  change (JsString.eqc "-" "-") with true. cbn iota.
  change (pretty p) with (pretty (Z.pos p)).
  destruct (pretty_go_head (N.pos p) "") as (c & r & Hcr & Hc); [done|].
  destruct (digit_plain c Hc) as (Hs & Hm & Hp).
  assert (pretty (Z.pos p) = String c r) as Hpp.
  { unfold pretty, pretty_Z, pretty, pretty_positive, pretty, pretty_N.
    by destruct (decide (N.pos p = 0%N)). }
  rewrite Hpp in *. cbn [JsString.trimStart] in H. rewrite Hs, Hm, Hp in H.
  by rewrite H.
Qed.

Lemma pretty_Z_nonempty (n : Z) : JsString.isEmpty (pretty n) = false.
Proof.
  pose proof (parseDigits_pretty n) as H. by destruct (pretty n).
Qed.

Lemma parseInt_pretty (n : Z) :
  Z.abs n <= 2 ^ 53 -> parseInt (pretty n) = Some (Finite n).
Proof.
  intros H. unfold parseInt. by rewrite parseDigits_pretty, <- (roundDouble_exact n H).
Qed.




Section Score.

Context `{B : Builtins}.
Variable files : ZipFiles.
Variable idx : Index.


End Score.



(** ** Select questions *)

Lemma selectInfo_select q typeParam :
  List.find (nameIs "answerType") (paramsOf q) = Some typeParam ->
  getText (Some typeParam) = "select" ->
  selectInfo q = (true, declaredOptions q).
Proof.
  unfold selectInfo, declaredOptions, paramsOf. intros Hf Ht.
  destruct (asArray (getOpt "param" (get "params" q))) as [|p ps] eqn:Ha;
    [discriminate|].
  rewrite (asArray_cons_truthy _ _ _ Ha), Hf, Ht. simpl String.eqb. cbv iota.
  destruct (List.find isOptionsGroup (p :: ps)) as [g|]; [|done].
  destruct (truthyV (get "param" g)) eqn:Hg; [done|].
  by rewrite (asArray_falsy _ Hg).
Qed.

Section Select.

Context `{B : Builtins}.
Variable files : ZipFiles.
Variable idx : Index.

(** C7 (amended). When the first param named [answerType] has the text
    [select], the emitted question has type Select whatever the media
    classifier inferred, and its [answerOptions] are the lines
    ["{optionKey}: {optionText}"] of the [answerOptions] group in
    document order, each text read from the option param or else from
    its first nested item; the field is absent when the question
    declares no such group or the group has no option. *)
Theorem select_question (roundName category : option XVal) (q typeParam : XVal)
    (special : option SpecialType * string) (suffix : string) :
  List.find (nameIs "answerType") (paramsOf q) = Some typeParam ->
  getText (Some typeParam) = "select" ->
  let emitted := newQuestion files idx roundName category q special suffix in
  q_type emitted = TSelect
  /\ q_answerOptions emitted
     = match declaredOptions q with [] => None | lines => Some lines end
  /\ (forall lines, q_answerOptions emitted = Some lines -> lines <> []).
Proof.
  intros Hf Ht. cbv zeta. unfold newQuestion; cbn [q_type q_answerOptions].
  rewrite (selectInfo_select q typeParam Hf Ht). cbn [fst snd].
  split; [reflexivity|]. split; [by destruct (declaredOptions q)|].
  intros lines. destruct (declaredOptions q); [discriminate|].
  intros [= <-]. discriminate.
Qed.

End Select.

(** C7 (as stated) fails: a question whose [answerType] param is [select]
    but which declares no options is emitted with type Select and without
    [answerOptions]. *)
Lemma select_options_counterexample :
  let emitted := newQuestion (B := Samples.builtins) [] (mkIndex [] [])
                   (Some (XStr "R")) (Some (XStr "T")) selectWithoutOptions
                   (None, "") "abcde" in
  hasSelectParam selectWithoutOptions = true
  /\ q_type emitted = TSelect
  /\ q_answerOptions emitted = None
  /\ ~ (exists lines, q_answerOptions emitted = Some lines /\ lines <> []).
Proof.
  vm_compute. repeat split. intros (lines & H & _). discriminate.
Qed.

Lemma select_question_witness :
  let emitted := newQuestion (B := Samples.builtins) [] (mkIndex [] [])
                   (Some (XStr "R")) (Some (XStr "T")) selectWithOptions
                   (None, "") "abcde" in
  q_type emitted = TSelect
  /\ q_answerOptions emitted = Some ["A: Paris"; "B: Rome"].
Proof.
  destruct (select_question (B := Samples.builtins) [] (mkIndex [] [])
              (Some (XStr "R")) (Some (XStr "T")) selectWithOptions selectParam
              (None, "") "abcde" eq_refl eq_refl) as (Ht & Ho & _).
  split; [exact Ht | rewrite Ho; reflexivity].
Defined.

(** ** The shape of the parser's output *)

Lemma wellFormed_get k v x :
  wellFormed v = true -> get k v = Some x ->
  wellFormed x = true /\ (JsString.startsWith "@_" k = true -> isStr x = true).
Proof.
  destruct v as [| | |fields|]; simpl; try done.
  induction fields as [|[k' y] r IH]; simpl; [done|].
  intros H. apply andb_prop in H as [H Hr]. apply andb_prop in H as [Ha Hy].
  destruct (String.eqb_spec k' k) as [->|Hne].
  - intros [= <-]. split; [done|]. intros Hk. by rewrite Hk in Ha.
  - by apply IH.
Qed.

Lemma wellFormedV_get k v : wellFormed v = true -> wellFormedV (get k v).
Proof. intros H x Hx. by apply (wellFormed_get k v x H Hx). Qed.

Lemma wellFormedV_getOpt k v : wellFormedV v -> wellFormedV (getOpt k v).
Proof.
  intros H. destruct v as [y|]; simpl; [|done].
  apply wellFormedV_get. by apply H.
Qed.

Lemma wellFormed_items l x :
  wellFormed (XArr l) = true -> In x l -> wellFormed x = true.
Proof.
  simpl. intros H. apply andb_prop in H as [_ H].
  induction l as [|y r IH]; simpl; [done|].
  apply andb_prop in H as [Hy Hr]. intros [<-|Hin]; auto.
Qed.

Lemma wellFormed_asArray v x :
  wellFormedV v -> In x (asArray v) -> wellFormed x = true.
Proof.
  intros H. destruct v as [y|]; simpl; [|done].
  specialize (H y eq_refl). destruct (truthy y); [|done].
  destruct y; simpl; try (intros [<-|[]]; done).
  by apply wellFormed_items.
Qed.

Lemma wellFormed_docOrder x s :
  wellFormed x = true -> In s (docOrder x) -> wellFormed (snd s) = true.
Proof.
  intros Hx. unfold docOrder, roundSrc, themeSrc, packageRounds, roundThemes,
    themeQuestions.
  rewrite in_flat_map. intros (r & Hr & Hs).
  apply wellFormed_asArray in Hr;
    [|by do 2 apply wellFormedV_getOpt; apply wellFormedV_get].
  apply in_flat_map in Hs as (t & Ht & Hs).
  apply wellFormed_asArray in Ht;
    [|by apply wellFormedV_getOpt; apply wellFormedV_get].
  apply in_map_iff in Hs as (q & <- & Hq). simpl.
  apply wellFormed_asArray in Hq;
    [done|by apply wellFormedV_getOpt; apply wellFormedV_get].
Qed.

Lemma isStr_inv x : isStr x = true -> exists s, x = XStr s.
Proof. destruct x; simpl; try done. eauto. Qed.

Section SpecialTotal.

Context `{B : Builtins}.

Lemma classifySpecial_string name src :
  (forall v, name = Some v -> truthy v = true -> isStr v = true) ->
  isThrow (classifySpecial name src) = false.
Proof.
  intros Hname. unfold classifySpecial.
  destruct name as [v|]; [|reflexivity].
  cbn [truthyV]. destruct (truthy v) eqn:Hv; [|reflexivity].
  destruct (isStr_inv v (Hname v eq_refl Hv)) as [n ->].
  generalize (toLowerCase n). intros l. cbv zeta.
  destruct (String.eqb l "bagcat" || String.eqb l "cat"); [reflexivity|].
  destruct (String.eqb l "sponsored"); [reflexivity|].
  destruct (String.eqb l "secret"); [reflexivity|].
  destruct (String.eqb l "stake"); reflexivity.
Qed.

Lemma firstType_wellFormed t :
  wellFormed t = true -> exists src, firstType t = Some src /\ wellFormed src = true.
Proof.
  intros Ht. destruct t as [| | | |l]; try (eexists; split; [reflexivity|done]).
  destruct l as [|y l]; [done|]. exists y. split; [done|].
  apply (wellFormed_items (y :: l)); [done|by left].
Qed.

(** On a well-formed node the special-type block does not throw. *)
Lemma specialOf_wellFormed q : wellFormed q = true -> isThrow (specialOf q) = false.
Proof.
  intros Hq. unfold specialOf, typeSourceOf.
  assert (isThrow
            (let! (typeName, typeSource) :=
               if truthyV (get "@_type" q) then Ok (get "@_type" q, q)
               else Ok (Some (XStr ""), q) in
             classifySpecial typeName typeSource) = false) as Hattr.
  { destruct (truthyV (get "@_type" q)) eqn:Hat; cbn [bindO];
      apply classifySpecial_string.
    - intros v Hv _. destruct (wellFormed_get _ _ _ Hq Hv) as [_ Hs]. by apply Hs.
    - intros v [= <-]. done. }
  destruct (get "type" q) as [t|] eqn:Ht; [|exact Hattr].
  destruct (truthy t); [|exact Hattr].
  pose proof (wellFormed_get _ _ _ Hq Ht) as [Hwt _].
  destruct (firstType_wellFormed t Hwt) as (src & -> & Hsrc).
  cbn [bindO]. apply classifySpecial_string.
  intros v Hv Htv.
  destruct (negb (truthyV (get "@_name" src)) && isStr src) eqn:Hc.
  - injection Hv as <-. by apply andb_prop in Hc as [_ ?].
  - destruct (wellFormed_get _ _ _ Hsrc Hv) as [_ Hs]. by apply Hs.
Qed.

End SpecialTotal.

(** ** The whole parse *)

Section ParseFacts.

Context `{B : Builtins}.

Lemma rootDocument_fatal files :
  rootDocument files = None <-> fatal (Some files).
Proof.
  unfold rootDocument, fatal.
  destruct (zipFile files "content.xml") as [o|]; [|done].
  destruct (zo_data o) eqn:E; simpl.
  - split; auto.
  - split; [auto|]. by intros [|].
Qed.

Lemma parseSiq_rounds files rnd x :
  rootDocument files = Some x ->
  parseSiq (Some files) rnd
  = let! st := foldO (processRound files (buildIndex files) rnd)
                     (packageRounds x) initState in
    Ok (mkResult (questions st) (fileStorage st) (roundTypes st)).
Proof.
  unfold rootDocument, parseSiq.
  destruct (zipFile files "content.xml") as [o|]; [|done]. simpl.
  destruct (JsString.isEmpty (zo_data o)); [done|]. by intros ->.
Qed.

(** What a successful parse returns. *)
Lemma parseSiq_ok_inv files rnd res :
  parseSiq (Some files) rnd = Ok res ->
  exists x,
    rootDocument files = Some x
    /\ r_questions res = emitAll files (buildIndex files) rnd 0 (docOrder x)
    /\ r_roundTypes res = recordRounds (packageRounds x) ∅
    /\ Forall specialOk (docOrder x).
Proof.
  intros H. destruct (rootDocument files) as [x|] eqn:Hx.
  - exists x. split; [done|]. rewrite (parseSiq_rounds _ _ _ Hx) in H.
    unfold bindO in H.
    destruct (foldO _ _ _) as [st|] eqn:Hf; [|discriminate].
    injection H as <-. simpl.
    by destruct (rounds_spec _ _ _ _ _ _ Hf) as (-> & _ & -> & ?).
  - exfalso. revert H Hx. unfold rootDocument, parseSiq.
    destruct (zipFile files "content.xml") as [o|]; [|done]. simpl.
    destruct (JsString.isEmpty (zo_data o)); [done|].
    by destruct (xmlParse (zo_data o)).
Qed.

(** The parse returns when the root document is found and parsed and no
    question makes the special-type block throw. *)
Lemma parseSiq_returns files rnd x :
  rootDocument files = Some x ->
  Forall specialOk (docOrder x) ->
  exists res, parseSiq (Some files) rnd = Ok res.
Proof.
  intros Hx Hok. rewrite (parseSiq_rounds _ _ _ Hx).
  destruct (rounds_total files (buildIndex files) rnd (packageRounds x) initState Hok)
    as [st ->].
  simpl. eauto.
Qed.

Lemma emitAll_summary files rnd n l :
  List.map (fun nq => (q_round nq, q_category nq, q_score nq))
           (emitAll files (buildIndex files) rnd n l)
  = List.map (fun '(roundName, category, q) => (roundName, category, resolvePrice q)) l.
Proof.
  revert n; induction l as [|[[rn cat] q] l IH]; intros n; [reflexivity|].
  cbn [emitAll List.map]. f_equal. apply IH.
Qed.

(** C9. The emitted question list follows the document: rounds in the
    order in which they occur in [content.xml], inside a round its themes
    in their order, inside a theme its questions in their order; the
    question at position [i] is the one built from the [i]-th question
    node of that traversal. *)
Theorem questions_in_document_order (files : ZipFiles) (rnd : nat -> string)
    (x : XVal) :
  rootDocument files = Some x ->
  Forall specialOk (docOrder x) ->
  exists res,
    parseSiq (Some files) rnd = Ok res
    /\ r_questions res = emitAll files (buildIndex files) rnd 0 (docOrder x)
    /\ List.map (fun nq => (q_round nq, q_category nq, q_score nq)) (r_questions res)
       = List.map (fun '(roundName, category, q) => (roundName, category, resolvePrice q))
                  (docOrder x).
Proof.
  intros Hx Hok. destruct (parseSiq_returns files rnd x Hx Hok) as [res Hres].
  exists res. split; [done|].
  destruct (parseSiq_ok_inv _ _ _ Hres) as (x' & Hx' & Hq & _).
  assert (x' = x) as -> by congruence.
  split; [done|]. rewrite Hq. apply emitAll_summary.
Qed.

End ParseFacts.

Lemma questions_in_document_order_witness :
  exists res,
    parseSiq (B := Samples.builtins) (Some Samples.archiveTwoRounds) (fun n => "k3x9" +:+ pretty n)
    = Ok res
    /\ List.map (fun nq => (q_round nq, q_category nq, q_score nq)) (r_questions res)
       = [ (Some (XStr "Round 1"), Some (XStr "Simple Questions"), Finite 100);
           (Some (XStr "Round 1"), Some (XStr "Simple Questions"), Finite 200);
           (Some (XStr "Final Round"), Some (XStr "Final Theme"), Finite 0) ].
Proof.
  destruct (questions_in_document_order (B := Samples.builtins) Samples.archiveTwoRounds
              (fun n => "k3x9" +:+ pretty n) Samples.docTwoRounds)
    as (res & Hres & _ & Hmap).
  - reflexivity.
  - repeat constructor.
  - exists res. split; [exact Hres|]. rewrite Hmap. reflexivity.
Defined.

(** ** Round types *)


Lemma assignText_other {V} k k' (v : V) (m : gmap string V) :
  k' <> k -> assignText k' v m !! k = m !! k.
Proof.
  intros H. unfold assignText. destruct (String.eqb k' "__proto__"); [done|].
  by rewrite lookup_insert_ne.
Qed.

Lemma assignText_same {V} k (v : V) (m : gmap string V) :
  k <> "__proto__" -> assignText k v m !! k = Some v.
Proof.
  intros H. unfold assignText. rewrite (proj2 (String.eqb_neq _ _) H).
  by rewrite lookup_insert_eq.
Qed.




Section RoundTypes.

Context `{B : Builtins}.


End RoundTypes.


(** ** Question ids *)

Lemma append_assoc (a b c : string) : (a +:+ b) +:+ c = a +:+ (b +:+ c).
Proof.
  induction a as [|x a IH]; [done|].
  change (String x ((a +:+ b) +:+ c) = String x (a +:+ (b +:+ c))). by rewrite IH.
Qed.

Lemma filter_app p a b :
  JsString.filter p (a +:+ b) = JsString.filter p a +:+ JsString.filter p b.
Proof.
  induction a as [|c a IH]; [done|].
  change (JsString.filter p (String c (a +:+ b))
          = JsString.filter p (String c a) +:+ JsString.filter p b).
  simpl. rewrite IH. by destruct (p c).
Qed.

Lemma filter_id p s : JsString.forallb p s = true -> JsString.filter p s = s.
Proof.
  induction s as [|c s IH]; simpl; [done|].
  intros H. apply andb_prop in H as [-> H]. by rewrite IH.
Qed.

Lemma forallb_impl (p q : ascii -> bool) s :
  (forall c, p c = true -> q c = true) ->
  JsString.forallb p s = true -> JsString.forallb q s = true.
Proof.
  intros Hpq. induction s as [|c s IH]; simpl; [done|].
  intros H. apply andb_prop in H as [Hc H]. by rewrite (Hpq c Hc), IH.
Qed.

Lemma lastField_plain sep acc s :
  JsString.forallb (fun c => negb (sep c)) s = true ->
  JsString.lastField sep acc s = String.rev_app acc s.
Proof.
  revert acc; induction s as [|c s IH]; intros acc; simpl.
  - intros _. unfold String.rev. generalize EmptyString.
    induction acc as [|a acc IHa]; intros t; simpl; [done|]. apply IHa.
  - intros H. apply andb_prop in H as [Hc H].
    apply negb_true_iff in Hc. rewrite Hc. by rewrite IH.
Qed.

Lemma popSplit_after sep a c s :
  sep c = true ->
  JsString.forallb (fun c => negb (sep c)) s = true ->
  JsString.popSplit sep (a +:+ String c s) = s.
Proof.
  intros Hc Hs. unfold JsString.popSplit. generalize EmptyString as acc.
  induction a as [|d a IH]; intros acc.
  - change (JsString.lastField sep acc (String c s) = s). simpl.
    rewrite Hc. by rewrite lastField_plain.
  - change (JsString.lastField sep acc (String d (a +:+ String c s)) = s). simpl.
    destruct (sep d); apply IH.
Qed.

Lemma isBase36_idChar c : isBase36 c = true -> idChar c = true.
Proof.
  unfold isBase36, idChar. intros H. apply orb_prop in H as [->| ->]; simpl;
    [by rewrite !orb_true_r | done].
Qed.

Lemma isBase36_not_underscore c : isBase36 c = true -> negb (isUnderscore c) = true.
Proof.
  unfold isBase36, isUnderscore, JsString.eqc. intros H.
  destruct (Ascii.eqb_spec c "_") as [->|]; [|done]. discriminate.
Qed.

(** The random suffix can be read back from an id. *)
Lemma makeId_suffix roundName category price suffix :
  JsString.forallb isBase36 suffix = true ->
  suffixOf (makeId roundName category price suffix) = suffix.
Proof.
  intros H. unfold makeId, suffixOf.
  set (prefix := toStrV roundName +:+ "_" +:+ toStrV category +:+ "_"
                 +:+ numberText price).
  replace (toStrV roundName +:+ "_" +:+ toStrV category +:+ "_" +:+ numberText price
             +:+ "_" +:+ suffix)
    with (prefix +:+ String "_" suffix).
  2:{ unfold prefix. by rewrite !append_assoc. }
  rewrite filter_app. cbn [JsString.filter]. change (idChar "_") with true. cbv iota.
  rewrite (filter_id idChar suffix);
    [|by apply (forallb_impl isBase36); [apply isBase36_idChar|]].
  apply popSplit_after; [done|].
  by apply (forallb_impl isBase36); [apply isBase36_not_underscore|].
Qed.

Section Ids.

Context `{B : Builtins}.

Lemma emitAll_suffixes files idx rnd n l :
  (forall i, (i < n + length l)%nat -> JsString.forallb isBase36 (rnd i) = true) ->
  List.map (fun nq => suffixOf (q_id nq)) (emitAll files idx rnd n l)
  = List.map rnd (seq n (length l)).
Proof.
  revert n; induction l as [|[[rn cat] q] l IH]; intros n Hb; [reflexivity|].
  cbn [emitAll List.map length seq]. f_equal.
  - unfold emit, newQuestion; cbn [q_id]. apply makeId_suffix. apply Hb. simpl. lia.
  - apply IH. intros i Hi. apply Hb. simpl. lia.
Qed.

(** C5 (amended). The ids of the emitted questions are pairwise distinct
    whenever the random suffixes drawn for them are.  The id of the
    question at position [i] is the text round_category_score_suffix,
    made of the round name, the theme name and the score of that question
    and of the [i]-th suffix drawn, stripped of the characters outside
    [A-Za-z0-9_-]; the suffix, made of base-36 digits, can be read back
    from it. *)
Theorem ids_distinct (files : ZipFiles) (rnd : nat -> string) (x : XVal) :
  rootDocument files = Some x ->
  Forall specialOk (docOrder x) ->
  (forall i, (i < length (docOrder x))%nat -> JsString.forallb isBase36 (rnd i) = true) ->
  (forall i j, (i < length (docOrder x))%nat -> (j < length (docOrder x))%nat ->
               rnd i = rnd j -> i = j) ->
  exists res,
    parseSiq (Some files) rnd = Ok res
    /\ NoDup (List.map q_id (r_questions res))
    /\ (forall i nq,
          r_questions res !! i = Some nq ->
          q_id nq
          = JsString.filter idChar
              (toStrV (q_round nq) +:+ "_" +:+ toStrV (q_category nq) +:+ "_"
               +:+ numberText (q_score nq) +:+ "_" +:+ rnd i)).
Proof.
  intros Hx Hok Hb Hinj.
  destruct (parseSiq_returns files rnd x Hx Hok) as [res Hres].
  exists res. split; [done|].
  destruct (parseSiq_ok_inv _ _ _ Hres) as (x' & Hx' & -> & _).
  assert (x' = x) as -> by congruence.
  split.
  2:{ intros i nq Hi. rewrite emitAll_lookup in Hi.
      destruct (docOrder x !! i) as [[[rn cat] q]|]; [|done].
      by injection Hi as <-. }
  apply (NoDup_fmap_1 suffixOf).
  change (NoDup (List.map suffixOf
                   (List.map q_id (emitAll files (buildIndex files) rnd 0 (docOrder x))))).
  rewrite List.map_map, emitAll_suffixes by exact Hb.
  apply (NoDup_fmap_2_strong rnd); [|apply NoDup_seq].
  intros i j Hi Hj. apply elem_of_seq in Hi, Hj. apply Hinj; lia.
Qed.

End Ids.

(** C5 (as stated) fails: two questions of the same round, theme and price
    for which [Math.random] yields the same suffix get the same id. *)
Lemma ids_distinct_counterexample :
  List.map q_id <$>
    (r_questions <$>
       resultOf (parseSiq (B := Samples.builtins) (Some Samples.archiveTwins)
                   (fun _ => "k3x9q")))
  = Some ["R_T_100_k3x9q"; "R_T_100_k3x9q"]
  /\ ~ NoDup ["R_T_100_k3x9q"; "R_T_100_k3x9q"].
Proof.
  split; [vm_compute; reflexivity|].
  intros H. apply NoDup_cons in H as [H _]. apply H. by left.
Qed.

Lemma ids_distinct_witness :
  exists res,
    parseSiq (B := Samples.builtins) (Some Samples.archiveTwins)
      (fun n => "k3x9" +:+ (if n is O then "a" else "b")) = Ok res
    /\ NoDup (List.map q_id (r_questions res))
    /\ (forall i nq,
          r_questions res !! i = Some nq ->
          q_id nq
          = JsString.filter idChar
              (toStrV (q_round nq) +:+ "_" +:+ toStrV (q_category nq) +:+ "_"
               +:+ numberText (q_score nq) +:+ "_"
               +:+ ("k3x9" +:+ (if i is O then "a" else "b")))).
Proof.
  apply (ids_distinct (B := Samples.builtins) Samples.archiveTwins
           (fun n => "k3x9" +:+ (if n is O then "a" else "b")) Samples.docTwins).
  - reflexivity.
  - repeat constructor.
  - intros [|[|i]]; simpl; intros Hi; [reflexivity|reflexivity|lia].
  - intros [|[|i]] [|[|j]]; simpl; intros Hi Hj; try lia; try reflexivity;
      discriminate.
Defined.

(** ** Fatal failures *)

Section Fatal.

Context `{B : Builtins}.

(** The parser builds well-formed objects. *)
Hypothesis parser_output : forall s x, xmlParse s = Some x -> wellFormed x = true.

Lemma rootDocument_wellFormed files x :
  rootDocument files = Some x -> wellFormed x = true.
Proof.
  unfold rootDocument. destruct (zipFile files "content.xml") as [o|]; [|done].
  destruct (JsString.isEmpty (zo_data o)); [done|]. apply parser_output.
Qed.

(** C1 (amended). [parseSiq] throws exactly when the buffer cannot be
    opened as a zip archive, or the archive has no file entry named
    exactly [content.xml], or that document is empty or rejected by the
    XML parser; in every other case the parse completes and returns a
    result. *)
Theorem parse_fails_exactly (loaded : option ZipFiles) (rnd : nat -> string) :
  (isThrow (parseSiq loaded rnd) = true <-> fatal loaded)
  /\ (~ fatal loaded -> exists res, parseSiq loaded rnd = Ok res).
Proof.
  destruct loaded as [files|]; [|split; [done|by intros []]].
  destruct (rootDocument files) as [x|] eqn:Hx.
  - assert (exists res, parseSiq (Some files) rnd = Ok res) as [res Hres].
    { apply (parseSiq_returns files rnd x Hx).
      apply Forall_forall. intros s Hs. apply specialOf_wellFormed.
      apply (wellFormed_docOrder x); [by apply (rootDocument_wellFormed files)|].
      by apply list_elem_of_In. }
    assert (~ fatal (Some files)) as Hnf.
    { rewrite <- rootDocument_fatal. congruence. }
    rewrite Hres. split; [split; [done|by intros ?]|eauto].
  - assert (fatal (Some files)) as Hf by by apply rootDocument_fatal.
    split; [|done]. split; [done|]. intros _.
    destruct (parseSiq (Some files) rnd) as [res|] eqn:Hres; [|done].
    destruct (parseSiq_ok_inv _ _ _ Hres) as (x & Hx' & _). congruence.
Qed.

End Fatal.

Lemma assoc_Forall {A} (P : A -> Prop) k (l : list (string * A)) v :
  Forall (fun kv => P (snd kv)) l -> assoc k l = Some v -> P v.
Proof.
  induction 1 as [|[k' v'] l Hv _ IH]; simpl; [done|].
  destruct (String.eqb k' k); [by intros [= <-]|exact IH].
Qed.

Lemma Samples_parse_wellFormed s x :
  Samples.parse s = Some x -> wellFormed x = true.
Proof.
  apply (assoc_Forall (fun v => wellFormed v = true)). repeat constructor.
Qed.

(** C1 (as stated) fails: an archive whose root document is stored as
    [Content.xml] has a root document up to case, non-empty and accepted
    by the parser, yet [parseSiq] throws. *)
Lemma parse_fails_counterexample :
  rootEntryAnyCase (B := Samples.builtins) Samples.archiveCapitalised
  = Some (Samples.file Samples.xmlTwoRounds)
  /\ xmlParse (Builtins := Samples.builtins) Samples.xmlTwoRounds
     = Some Samples.docTwoRounds
  /\ ~ fatalAnyCase (B := Samples.builtins) (Some Samples.archiveCapitalised)
  /\ parseSiq (B := Samples.builtins) (Some Samples.archiveCapitalised) Samples.suffixes
     = Throw ContentMissing.
Proof.
  assert (rootEntryAnyCase (B := Samples.builtins) Samples.archiveCapitalised
          = Some (Samples.file Samples.xmlTwoRounds)) as Hroot
    by (vm_compute; reflexivity).
  split; [exact Hroot|]. split; [vm_compute; reflexivity|].
  split; [|vm_compute; reflexivity].
  unfold fatalAnyCase. rewrite Hroot.
  intros [H|H]; [|discriminate].
  revert H. vm_compute. discriminate.
Qed.

Lemma parse_fails_exactly_witness :
  isThrow (parseSiq (B := Samples.builtins) (Some Samples.archiveCapitalised)
             Samples.suffixes) = true
  /\ exists res,
       parseSiq (B := Samples.builtins) (Some Samples.archiveTwoRounds) Samples.suffixes
       = Ok res.
Proof.
  split.
  - apply (parse_fails_exactly (B := Samples.builtins) Samples_parse_wellFormed).
    exact I.
  - apply (parse_fails_exactly (B := Samples.builtins) Samples_parse_wellFormed).
    intros [H|H]; [revert H; vm_compute|]; discriminate.
Defined.

(** ** The media resolver *)

Lemma hasKey_mapSet_same k v m : hasKey k (mapSet k v m).
Proof.
  unfold hasKey, mapGet. induction m as [|[k' v'] m IH]; simpl.
  - rewrite String.eqb_refl. eauto.
  - destruct (String.eqb k' k) eqn:E; simpl.
    + rewrite String.eqb_refl. eauto.
    + by rewrite E.
Qed.

Lemma hasKey_mapSet_mono k k' v m : hasKey k m -> hasKey k (mapSet k' v m).
Proof.
  unfold hasKey, mapGet. induction m as [|[k0 v0] m IH]; simpl.
  - by intros [? ?].
  - destruct (String.eqb_spec k0 k') as [->|Hne]; simpl.
    + destruct (String.eqb k' k); eauto.
    + destruct (String.eqb k0 k); eauto.
Qed.

Lemma assoc_In {A} k (l : list (string * A)) v : assoc k l = Some v -> In (k, v) l.
Proof.
  induction l as [|[k' v'] l IH]; simpl; [done|].
  destruct (String.eqb_spec k' k) as [->|]; [intros [= ->]; by left | auto].
Qed.

Section IndexFacts.

Context `{B : Builtins}.

Lemma indexEntry_mono idx pe k :
  hasKey k (zipFileMap idx) -> hasKey k (zipFileMap (indexEntry idx pe)).
Proof.
  intros H. destruct pe as [path entry]. unfold indexEntry.
  destruct (zo_dir entry); [done|]. cbn [zipFileMap].
  destruct (encodeURIComponent path) as [e|];
    [destruct (String.eqb _ _); [|apply hasKey_mapSet_mono]|];
    (destruct (decodeURIComponent path) as [d|];
     [destruct (String.eqb _ _); [|apply hasKey_mapSet_mono]|]);
    by apply hasKey_mapSet_mono.
Qed.

Lemma indexEntry_adds idx path entry :
  zo_dir entry = false ->
  hasKey (normalizeSearch path) (zipFileMap (indexEntry idx (path, entry)))
  /\ (forall d, decodeURIComponent path = Some d ->
        hasKey (normalizeSearch d) (zipFileMap (indexEntry idx (path, entry)))).
Proof.
  intros Hd. unfold indexEntry. rewrite Hd. cbn [zipFileMap].
  assert (forall k m,
            hasKey k m ->
            hasKey k
              match encodeURIComponent path with
              | Some e =>
                  if String.eqb (normalizeSearch (JsString.replaceAll "%2F" "/" e))
                                (normalizeSearch path)
                  then m
                  else mapSet (normalizeSearch (JsString.replaceAll "%2F" "/" e)) path m
              | None => m
              end) as Henc.
  { intros k m Hk. destruct (encodeURIComponent path); [|done].
    destruct (String.eqb _ _); [done|by apply hasKey_mapSet_mono]. }
  split.
  - apply Henc. destruct (decodeURIComponent path) as [d|];
      [destruct (String.eqb _ _); [|apply hasKey_mapSet_mono]|];
      apply hasKey_mapSet_same.
  - intros d ->. apply Henc.
    destruct (String.eqb_spec (normalizeSearch d) (normalizeSearch path)) as [->|];
      apply hasKey_mapSet_same.
Qed.

Lemma buildIndex_mono files idx k :
  hasKey k (zipFileMap idx) ->
  hasKey k (zipFileMap (fold_left indexEntry files idx)).
Proof.
  revert idx; induction files as [|pe files IH]; intros idx H; simpl; [done|].
  by apply IH, indexEntry_mono.
Qed.

(** Every file entry is indexed under its normalised path and under the
    normalised form of its percent-decoded path. *)
Lemma buildIndex_keys files path entry :
  zipFile files path = Some entry ->
  hasKey (normalizeSearch path) (zipFileMap (buildIndex files))
  /\ (forall d, decodeURIComponent path = Some d ->
        hasKey (normalizeSearch d) (zipFileMap (buildIndex files))).
Proof.
  unfold zipFile. destruct (assoc path files) as [o|] eqn:Ha; [|done].
  destruct (zo_dir o) eqn:Hd; [done|]. intros [= <-].
  apply assoc_In in Ha. unfold buildIndex. generalize (mkIndex [] []).
  induction files as [|pe files IH]; intros idx; [done|].
  destruct Ha as [->|Hin]; simpl.
  - destruct (indexEntry_adds idx path o Hd) as [H1 H2].
    split; [|intros d Hdec]; apply buildIndex_mono; auto.
  - by apply IH.
Qed.

Lemma indexEntry_mono_base idx pe k :
  hasKey k (baseNameMap idx) -> hasKey k (baseNameMap (indexEntry idx pe)).
Proof.
  intros H. destruct pe as [path entry]. unfold indexEntry.
  destruct (zo_dir entry); [done|]. cbn [baseNameMap].
  by do 3 apply hasKey_mapSet_mono.
Qed.

Lemma indexEntry_adds_base idx path entry k :
  zo_dir entry = false -> In k (baseKeys path) ->
  hasKey k (baseNameMap (indexEntry idx (path, entry))).
Proof.
  intros Hd Hk. unfold indexEntry. rewrite Hd. cbn [baseNameMap].
  unfold baseKeys in Hk. cbv zeta in Hk.
  destruct Hk as [<-|[<-|[<-|[]]]].
  - do 2 apply hasKey_mapSet_mono. apply hasKey_mapSet_same.
  - apply hasKey_mapSet_mono. apply hasKey_mapSet_same.
  - apply hasKey_mapSet_same.
Qed.

Lemma buildIndex_mono_base files idx k :
  hasKey k (baseNameMap idx) ->
  hasKey k (baseNameMap (fold_left indexEntry files idx)).
Proof.
  revert idx; induction files as [|pe files IH]; intros idx H; simpl; [done|].
  by apply IH, indexEntry_mono_base.
Qed.

(** Every file entry is indexed under its three base-name keys. *)
Lemma buildIndex_base_keys files path entry k :
  zipFile files path = Some entry -> In k (baseKeys path) ->
  hasKey k (baseNameMap (buildIndex files)).
Proof.
  unfold zipFile. destruct (assoc path files) as [o|] eqn:Ha; [|done].
  destruct (zo_dir o) eqn:Hd; [done|]. intros [= <-] Hk.
  apply assoc_In in Ha. unfold buildIndex. generalize (mkIndex [] []).
  induction files as [|pe files IH]; intros idx; [done|].
  destruct Ha as [->|Hin]; simpl.
  - by apply buildIndex_mono_base, indexEntry_adds_base.
  - by apply IH.
Qed.

End IndexFacts.

Lemma setAdd_In_new x l : In x (setAdd x l).
Proof.
  unfold setAdd. destruct (existsb (String.eqb x) l) eqn:E.
  - apply existsb_exists in E as (y & Hy & Heq). apply String.eqb_eq in Heq. by subst.
  - apply in_or_app. right. by left.
Qed.

Lemma setAdd_In_old x y l : In y l -> In y (setAdd x l).
Proof.
  unfold setAdd. destruct (existsb (String.eqb x) l); [done|].
  intros H. apply in_or_app. by left.
Qed.

Lemma setAddOpt_In_new x l : In x (setAddOpt (Some x) l).
Proof. apply setAdd_In_new. Qed.

Lemma setAddOpt_In_old o y l : In y l -> In y (setAddOpt o l).
Proof. destruct o; [apply setAdd_In_old|done]. Qed.

(** Membership in a set built by successive [add]s. *)
Ltac in_set :=
  repeat first [ apply setAdd_In_new | apply setAddOpt_In_new
               | apply setAdd_In_old | apply setAddOpt_In_old ].

Lemma firstSome_unique {A R} (f : A -> option R) l r :
  (forall a r', In a l -> f a = Some r' -> r' = r) ->
  (exists a, In a l /\ is_Some (f a)) ->
  firstSome f l = Some r.
Proof.
  induction l as [|a l IH]; simpl; intros Hall Hex.
  - by destruct Hex as (a & [] & _).
  - destruct (f a) as [r'|] eqn:Hfa.
    + f_equal. apply (Hall a); auto.
    + apply IH; [intros; eapply Hall; eauto|].
      destruct Hex as (a' & [<-|Hin] & Hs); [|eauto].
      rewrite Hfa in Hs. by destruct Hs.
Qed.

Lemma replaceChar_absent a b s :
  JsString.forallb (fun c => negb (JsString.eqc c a)) s = true ->
  JsString.replaceChar a b s = s.
Proof.
  induction s as [|c s IH]; simpl; [done|].
  intros H. apply andb_prop in H as [Hc H]. apply negb_true_iff in Hc.
  by rewrite Hc, IH.
Qed.

Lemma replaceChar_back a b s :
  JsString.forallb (fun c => negb (JsString.eqc c b)) s = true ->
  JsString.replaceChar b a (JsString.replaceChar a b s) = s.
Proof.
  induction s as [|c s IH]; simpl; [done|].
  intros H. apply andb_prop in H as [Hc H]. apply negb_true_iff in Hc.
  rewrite IH by done. f_equal. unfold JsString.eqc in *.
  destruct (Ascii.eqb_spec c a) as [->|Hne].
  - by rewrite Ascii.eqb_refl.
  - by rewrite Hc.
Qed.

Lemma isEmpty_append a b : b <> "" -> JsString.isEmpty (a +:+ b) = false.
Proof. destruct a; [|done]. by destruct b. Qed.

Lemma firstSome_inv {A R} (f : A -> option R) l r :
  firstSome f l = Some r -> exists a, In a l /\ f a = Some r.
Proof.
  induction l as [|a l IH]; simpl; [done|].
  destruct (f a) as [r'|] eqn:Hfa.
  - intros [= <-]. exists a. auto.
  - intros H. destruct (IH H) as (a' & Hin & Ha'). exists a'. auto.
Qed.

Lemma firstSome_some {A R} (f : A -> option R) l a :
  In a l -> is_Some (f a) -> is_Some (firstSome f l).
Proof.
  induction l as [|a' l IH]; simpl; [done|].
  intros [->|Hin] Hs.
  - destruct Hs as [r ->]. eauto.
  - destruct (f a'); eauto.
Qed.

Section ResolverFacts.

Context `{L : BuiltinLaws}.

Lemma candidates_members (filename : string) :
  let cleanName := JsString.trim (JsString.stripAt filename) in
  In cleanName (candidates filename)
  /\ (forall d, decodeURIComponent cleanName = Some d -> In d (candidates filename))
  /\ In (JsString.replaceChar "+" " " cleanName) (candidates filename)
  /\ In (JsString.replaceChar " " "+" cleanName) (candidates filename).
Proof.
  cbv zeta. unfold candidates. repeat split; [|intros d ->|..]; in_set.
Qed.

(** Strings with the same NFC form are normalised alike behind a
    prefix. *)
Lemma normalizeSearch_canon prefix a b :
  a <> "" -> b <> "" ->
  normalizeNFC a = normalizeNFC b ->
  normalizeSearch (prefix +:+ a) = normalizeSearch (prefix +:+ b).
Proof.
  intros Ha Hb Hab. unfold normalizeSearch.
  rewrite !isEmpty_append by done. f_equal.
  by apply canon_lower, canon_trim, canon_append.
Qed.

Variable files : ZipFiles.
Variable type : MediaKind.
Variables (prefix name : string) (entry : ZipObject).

Hypothesis accepted : In prefix (prefixes type).
Hypothesis named : name <> "".
Hypothesis stored : zipFile files (prefix +:+ name) = Some entry.

Lemma path_nonempty : JsString.isEmpty (prefix +:+ name) = false.
Proof. by apply isEmpty_append. Qed.

Lemma probePath_only filename pre cand p :
  onlyAnswer (buildIndex files) type (prefix +:+ name) filename = true ->
  In pre (prefixes type) -> In cand (candidates filename) ->
  probePath files (buildIndex files) pre cand = Some p -> p = prefix +:+ name.
Proof.
  unfold onlyAnswer, probePath. intros Honly Hpre Hcand.
  rewrite forallb_forall in Honly. specialize (Honly pre Hpre).
  rewrite forallb_forall in Honly. specialize (Honly cand Hcand).
  destruct (mapGet _ _) as [q|]; [|done].
  apply String.eqb_eq in Honly as ->.
  destruct (_ && _); [by intros [= <-]|done].
Qed.

Lemma probePath_hit filename cand :
  onlyAnswer (buildIndex files) type (prefix +:+ name) filename = true ->
  In cand (candidates filename) ->
  hasKey (normalizeSearch (prefix +:+ cand)) (zipFileMap (buildIndex files)) ->
  is_Some (probePath files (buildIndex files) prefix cand).
Proof.
  unfold onlyAnswer, probePath, hasKey. intros Honly Hcand [q Hq].
  rewrite forallb_forall in Honly. specialize (Honly prefix accepted).
  rewrite forallb_forall in Honly. specialize (Honly cand Hcand).
  rewrite Hq in *. apply String.eqb_eq in Honly as ->.
  rewrite path_nonempty. unfold zipFile in stored.
  destruct (assoc (prefix +:+ name) files); [|done].
  rewrite bool_decide_eq_true_2 by eauto. simpl. eauto.
Qed.

(** A reference one of whose candidates, behind the prefix, hits a key of
    the path index resolves to the entry. *)
Lemma extractFile_by_path filename cand :
  filename <> "" ->
  onlyAnswer (buildIndex files) type (prefix +:+ name) filename = true ->
  In cand (candidates filename) ->
  hasKey (normalizeSearch (prefix +:+ cand)) (zipFileMap (buildIndex files)) ->
  file_data <$> extractFile files (buildIndex files) filename type
  = Some (zo_data entry).
Proof.
  intros Hne Honly Hcand Hkey. unfold extractFile.
  apply isEmpty_false in Hne. rewrite Hne.
  assert (stagePath files (buildIndex files) type (candidates filename)
          = Some (prefix +:+ name)) as ->.
  { unfold stagePath. apply firstSome_unique.
    - intros pre p Hpre Hp.
      destruct (firstSome (probePath files (buildIndex files) pre) (candidates filename))
        as [p'|] eqn:Hin; [|done].
      injection Hp as <-. clear Hkey.
      revert Hin. generalize (fun c Hc => probePath_only filename pre c p' Honly Hpre Hc).
      generalize (candidates filename) as cs.
      induction cs as [|c cs IH]; simpl; [done|]. intros Hall.
      destruct (probePath files (buildIndex files) pre c) as [p0|] eqn:Hc.
      + intros [= <-]. apply (Hall c); auto.
      + apply IH. intros c' Hc'. apply Hall. by right.
    - exists prefix. split; [done|].
      destruct (probePath_hit filename cand Honly Hcand Hkey) as [p Hp].
      assert (firstSome (probePath files (buildIndex files) prefix) (candidates filename)
              = Some (prefix +:+ name)) as ->; [|eauto].
      apply firstSome_unique.
      + intros c p'. by apply probePath_only.
      + exists cand. split; [done|]. by rewrite Hp. }
  unfold fetch. rewrite stored. reflexivity.
Qed.

Lemma stagePath_only filename p :
  onlyAnswer (buildIndex files) type (prefix +:+ name) filename = true ->
  stagePath files (buildIndex files) type (candidates filename) = Some p ->
  p = prefix +:+ name.
Proof.
  intros Honly Hp. unfold stagePath in Hp.
  apply firstSome_inv in Hp as (pre & Hpre & Hp).
  apply firstSome_inv in Hp as (cand & Hcand & Hp).
  by apply (probePath_only filename pre cand).
Qed.

Lemma probeBase_only filename cand p :
  onlyBaseAnswer (buildIndex files) (prefix +:+ name) filename = true ->
  In cand (candidates filename) ->
  probeBase (buildIndex files) cand = Some p -> p = prefix +:+ name.
Proof.
  unfold onlyBaseAnswer, probeBase. intros Honly Hcand.
  rewrite forallb_forall in Honly. specialize (Honly cand Hcand).
  destruct (mapGet _ _) as [q|]; [|done].
  apply String.eqb_eq in Honly as ->.
  destruct (JsString.isEmpty _); [done|by intros [= <-]].
Qed.

(** A reference one of whose candidates has its base name in the
    base-name index resolves to the entry, when no other entry answers
    to a key probed for it. *)
Lemma extractFile_by_base filename cand :
  filename <> "" ->
  onlyAnswer (buildIndex files) type (prefix +:+ name) filename = true ->
  onlyBaseAnswer (buildIndex files) (prefix +:+ name) filename = true ->
  In cand (candidates filename) ->
  hasKey (normalizeSearch (baseOf cand)) (baseNameMap (buildIndex files)) ->
  file_data <$> extractFile files (buildIndex files) filename type
  = Some (zo_data entry).
Proof.
  intros Hne Honly Hbase Hcand [q Hq]. unfold extractFile.
  apply isEmpty_false in Hne. rewrite Hne.
  assert (forall b, file_data <$> fetch files b (prefix +:+ name) = Some (zo_data entry))
    as Hfetch.
  { intros b. unfold fetch. by rewrite stored. }
  destruct (stagePath _ _ _ _) as [p|] eqn:Hp.
  { by rewrite (stagePath_only filename p Honly Hp). }
  assert (stageBase (buildIndex files) (candidates filename) = Some (prefix +:+ name))
    as ->; [|done].
  unfold stageBase. apply firstSome_unique.
  - intros c p'. by apply probeBase_only.
  - exists cand. split; [done|].
    pose proof Hbase as Hb. unfold onlyBaseAnswer in Hb.
    rewrite forallb_forall in Hb. specialize (Hb cand Hcand).
    unfold probeBase. unfold hasKey in *. rewrite Hq in *.
    apply String.eqb_eq in Hb as ->. rewrite path_nonempty. eauto.
Qed.

(** C2 (amended). Let the archive hold a file entry at an accepted
    prefix followed by [name], and let a variant of [name] be written
    without a leading [@] or surrounding white space, no other entry of
    the archive answering to a path-index key probed for it.  The raw
    name, its NFC and NFD forms and its percent-decoded and
    percent-encoded forms resolve to a file with the bytes of that entry.
    So does the name with [+] and space exchanged when the name does not
    hold both; and when it does, provided the normalised base name of the
    variant is one of the three base-name keys of the entry and no other
    entry answers to a base-name key probed for it. *)
Theorem variants_resolve_alike (v : string) :
  isClean v ->
  onlyAnswer (buildIndex files) type (prefix +:+ name) v = true ->
  In v (plainVariants name)
  \/ (In v (exchangeVariants name)
      /\ exchangeReaches (buildIndex files) (prefix +:+ name) name v) ->
  file_data <$> extractFile files (buildIndex files) v type = Some (zo_data entry).
Proof.
  intros [Hne Hclean] Honly Hv.
  destruct (candidates_members v) as (Hc1 & Hc2 & Hc3 & Hc4).
  rewrite Hclean in Hc1, Hc2, Hc3, Hc4.
  destruct (buildIndex_keys files (prefix +:+ name) entry stored) as [Hk1 Hk2].
  assert (forall c, In c (candidates v) ->
            normalizeSearch (prefix +:+ c) = normalizeSearch (prefix +:+ name) ->
            file_data <$> extractFile files (buildIndex files) v type
            = Some (zo_data entry)) as Hraw.
  { intros c Hc Heq. apply (extractFile_by_path v c); auto. by rewrite Heq. }
  destruct Hv as [Hv|[Hv [Hmix|[Hkey Hbase]]]].
  - unfold plainVariants in Hv. simpl in Hv.
    destruct Hv as [<-|[<-|[<-|Hv]]].
    + by apply (Hraw name).
    + apply (Hraw (normalizeNFC name)); [done|].
      apply normalizeSearch_canon; [done..|]. apply nfc_idempotent.
    + apply (Hraw (normalizeNFD name)); [done|].
      apply normalizeSearch_canon; [done..|]. apply nfc_of_nfd.
    + apply in_app_or in Hv as [Hv|Hv].
      { destruct (decodeURIComponent name) as [d|] eqn:Hd; [|done].
        destruct Hv as [<-|[]].
        apply (extractFile_by_path d d); auto. apply Hk2.
        apply decode_append; [by apply (decode_prefix type)|done]. }
      destruct (encodeURIComponent name) as [e|] eqn:He; [|done].
      destruct Hv as [<-|[]].
      apply (Hraw name); [|done]. apply Hc2. by apply decode_encode.
  - unfold mixesPlusAndSpace in Hmix. apply andb_false_iff in Hmix.
    rewrite !negb_false_iff in Hmix.
    destruct Hv as [<-|[<-|[]]].
    + destruct Hmix as [Hplus|Hspace].
      * rewrite (replaceChar_absent _ _ _ Hplus) in *. by apply (Hraw name).
      * apply (Hraw _ Hc4). by rewrite (replaceChar_back _ _ _ Hspace).
    + destruct Hmix as [Hplus|Hspace].
      * apply (Hraw _ Hc3). by rewrite (replaceChar_back _ _ _ Hplus).
      * rewrite (replaceChar_absent _ _ _ Hspace) in *. by apply (Hraw name).
  - apply (extractFile_by_base v v); try done.
    by apply (buildIndex_base_keys files (prefix +:+ name) entry).
Qed.

End ResolverFacts.

(** ** The laws on ASCII text *)

Lemma append_cons c a b : String c a +:+ b = String c (a +:+ b).
Proof. reflexivity. Qed.

Lemma Ascii7_decode_append a :
  forall b a' b',
    Ascii7.decode a = Some a' -> Ascii7.decode b = Some b' ->
    Ascii7.decode (a +:+ b) = Some (a' +:+ b').
Proof.
  assert (forall n a, (String.length a < n)%nat ->
            forall b a' b',
              Ascii7.decode a = Some a' -> Ascii7.decode b = Some b' ->
              Ascii7.decode (a +:+ b) = Some (a' +:+ b')) as H.
  { induction n as [|n IH]; intros s Hlen b a' b' Ha Hb; [lia|].
    destruct s as [|c r]; [by injection Ha as <-|].
    rewrite append_cons. simpl in Ha |- *.
    destruct (Ascii.eqb c "%").
    - destruct r as [|h [|l r']]; try done. rewrite !append_cons.
      destruct (Ascii7.hexVal h) as [x|]; [|done].
      destruct (Ascii7.hexVal l) as [y|]; [|done].
      destruct (x <? 8)%nat; [|done].
      destruct (Ascii7.decode r') as [r''|] eqn:Hr; [|done].
      injection Ha as <-. rewrite (IH r' ltac:(simpl in Hlen; lia) b r'' b' Hr Hb).
      reflexivity.
    - destruct (Ascii7.decode r) as [r''|] eqn:Hr; [|done].
      injection Ha as <-. rewrite (IH r ltac:(simpl in Hlen; lia) b r'' b' Hr Hb).
      reflexivity. }
  apply (H (S (String.length a))). lia.
Qed.

Lemma escapeReadsBack_all c : escapeReadsBack c = true.
Proof. destruct c as [[] [] [] [] [] [] [] []]; vm_compute; reflexivity. Qed.

Lemma Ascii7_decode_encode s :
  forall e, Ascii7.encode s = Some e -> Ascii7.decode e = Some s.
Proof.
  induction s as [|c r IH]; intros e; simpl; [by intros [= <-]|].
  pose proof (escapeReadsBack_all c) as Hc. unfold escapeReadsBack in Hc.
  destruct (Ascii7.unreserved c).
  - destruct (Ascii7.encode r) as [e'|]; [|done]. intros [= <-]. simpl.
    apply negb_true_iff in Hc. rewrite Hc. by rewrite (IH e').
  - destruct (nat_of_ascii c <? 128)%nat; [|done].
    destruct (Ascii7.encode r) as [e'|]; [|done]. intros [= <-].
    cbn [Ascii7.decode]. rewrite Ascii.eqb_refl.
    destruct (Ascii7.hexVal _) as [a|]; [|done].
    destruct (Ascii7.hexVal _) as [b|]; [|done].
    apply andb_prop in Hc as [-> Hc]. apply Ascii.eqb_eq in Hc.
    rewrite (IH e' eq_refl), Hc. reflexivity.
Qed.

Lemma Samples_laws : BuiltinLaws (B := Samples.builtins).
Proof.
  split; simpl; try congruence.
  - intros a b a' b'. apply Ascii7_decode_append.
  - intros kind pre. destruct kind; simpl;
      intros H; repeat (destruct H as [<-|H]; [reflexivity|]); done.
  - intros s e. apply Ascii7_decode_encode.
Qed.

(** ** The laws with a normalisation that is not the identity *)

Lemma decompose_plain s :
  JsString.forallb (fun c => negb (Ascii.eqb c Accents.eAcute)) s = true ->
  Accents.decompose s = s.
Proof.
  induction s as [|c r IH]; simpl; [done|].
  intros H. apply andb_prop in H as [Hc H]. apply negb_true_iff in Hc.
  by rewrite Hc, IH.
Qed.

Lemma decompose_is_plain s :
  JsString.forallb (fun c => negb (Ascii.eqb c Accents.eAcute)) (Accents.decompose s)
  = true.
Proof.
  induction s as [|c r IH]; simpl; [done|].
  destruct (Ascii.eqb c Accents.eAcute) eqn:E; simpl; [done|].
  by rewrite E, IH.
Qed.

Lemma compose_pair c m r :
  Accents.compose (String c (String m r))
  = if Ascii.eqb c "e" && Ascii.eqb m Accents.acute
    then String Accents.eAcute (Accents.compose r)
    else String c (Accents.compose (String m r)).
Proof. reflexivity. Qed.

Lemma decompose_compose s :
  JsString.forallb (fun c => negb (Ascii.eqb c Accents.eAcute)) s = true ->
  Accents.decompose (Accents.compose s) = s.
Proof.
  assert (forall n s, (String.length s < n)%nat ->
            JsString.forallb (fun c => negb (Ascii.eqb c Accents.eAcute)) s = true ->
            Accents.decompose (Accents.compose s) = s) as H.
  { induction n as [|n IH]; intros t Hlen Hp; [lia|].
    destruct t as [|c [|m r]]; [done| |].
    - simpl in *. apply andb_prop in Hp as [Hc _]. apply negb_true_iff in Hc.
      by rewrite Hc.
    - rewrite compose_pair. simpl in Hlen, Hp.
      apply andb_prop in Hp as [Hc Hp]. apply andb_prop in Hp as [Hm Hr].
      apply negb_true_iff in Hc.
      destruct (Ascii.eqb c "e" && Ascii.eqb m Accents.acute) eqn:E.
      + apply andb_prop in E as [Ec Em].
        apply Ascii.eqb_eq in Ec, Em. subst c m.
        cbn [Accents.decompose]. rewrite Ascii.eqb_refl.
        by rewrite (IH r ltac:(lia) Hr).
      + cbn [Accents.decompose]. rewrite Hc. f_equal.
        apply IH; [simpl; lia|]. simpl. by rewrite Hm, Hr. }
  intros Hp. apply (H (S (String.length s))); [lia|done].
Qed.

Lemma decompose_append a b :
  Accents.decompose (a +:+ b) = Accents.decompose a +:+ Accents.decompose b.
Proof.
  induction a as [|c a IH]; [done|].
  rewrite append_cons. simpl. rewrite IH. by destruct (Ascii.eqb c Accents.eAcute).
Qed.

Lemma isSpace_plain c : JsString.isSpace c = true -> Ascii.eqb c Accents.eAcute = false.
Proof.
  intros H. destruct (Ascii.eqb_spec c Accents.eAcute) as [->|]; [|done]. discriminate.
Qed.

Lemma decompose_trimStart s :
  Accents.decompose (JsString.trimStart s) = JsString.trimStart (Accents.decompose s).
Proof.
  induction s as [|c r IH]; [done|]. cbn [JsString.trimStart Accents.decompose].
  destruct (Ascii.eqb_spec c Accents.eAcute) as [->|Hc].
  - change (JsString.isSpace Accents.eAcute) with false.
    cbn [JsString.trimStart Accents.decompose].
    change (JsString.isSpace "e") with false. by rewrite Ascii.eqb_refl.
  - cbn [JsString.trimStart]. destruct (JsString.isSpace c); [done|].
    cbn [Accents.decompose]. by rewrite (proj2 (Ascii.eqb_neq _ _) Hc).
Qed.

Lemma trimEnd_cons c s :
  JsString.trimEnd (String c s)
  = match JsString.trimEnd s with
    | EmptyString => if JsString.isSpace c then EmptyString else String c EmptyString
    | r' => String c r'
    end.
Proof. reflexivity. Qed.

Lemma trimEnd_keep c s :
  JsString.isSpace c = false ->
  JsString.trimEnd (String c s) = String c (JsString.trimEnd s).
Proof. intros H. rewrite trimEnd_cons, H. by destruct (JsString.trimEnd s). Qed.

Lemma decompose_trimEnd s :
  Accents.decompose (JsString.trimEnd s) = JsString.trimEnd (Accents.decompose s).
Proof.
  induction s as [|c r IH]; [done|]. cbn [Accents.decompose].
  destruct (Ascii.eqb_spec c Accents.eAcute) as [->|Hc].
  - rewrite !trimEnd_keep by done. cbn [Accents.decompose].
    by rewrite Ascii.eqb_refl, IH.
  - apply Ascii.eqb_neq in Hc. rewrite !trimEnd_cons, <- IH.
    destruct (JsString.trimEnd r) as [|d r'].
    + cbn [Accents.decompose]. destruct (JsString.isSpace c); [done|].
      cbn [Accents.decompose]. by rewrite Hc.
    + cbn [Accents.decompose]. rewrite Hc.
      by destruct (Ascii.eqb d Accents.eAcute).
Qed.

Lemma decompose_trim s :
  Accents.decompose (JsString.trim s) = JsString.trim (Accents.decompose s).
Proof. unfold JsString.trim. by rewrite decompose_trimEnd, decompose_trimStart. Qed.

Lemma lowerChar_plain c :
  Ascii.eqb (Ascii7.lowerChar c) Accents.eAcute = Ascii.eqb c Accents.eAcute.
Proof. destruct c as [[] [] [] [] [] [] [] []]; reflexivity. Qed.

Lemma decompose_lower s :
  Accents.decompose (Ascii7.lower s) = Ascii7.lower (Accents.decompose s).
Proof.
  induction s as [|c r IH]; [done|]. cbn [Ascii7.lower Accents.decompose].
  rewrite lowerChar_plain, IH.
  by destruct (Ascii.eqb_spec c Accents.eAcute) as [->|].
Qed.

(** Two strings have the same NFC form exactly when they have the same
    NFD form. *)
Lemma Accents_canon a b :
  Accents.compose (Accents.decompose a) = Accents.compose (Accents.decompose b) ->
  Accents.decompose a = Accents.decompose b.
Proof.
  intros H. apply (f_equal Accents.decompose) in H.
  by rewrite !decompose_compose in H by apply decompose_is_plain.
Qed.

Lemma Accents_laws : BuiltinLaws (B := Accents.instance).
Proof.
  split; simpl.
  - intros s. by rewrite decompose_compose by apply decompose_is_plain.
  - intros s. by rewrite (decompose_plain (Accents.decompose s))
      by apply decompose_is_plain.
  - intros x a b H. by rewrite !decompose_append, (Accents_canon a b H).
  - intros a b H. by rewrite !decompose_trim, (Accents_canon a b H).
  - intros a b H. by rewrite !decompose_lower, (Accents_canon a b H).
  - intros a b a' b'. apply Ascii7_decode_append.
  - intros kind pre. destruct kind; simpl;
      intros H; repeat (destruct H as [<-|H]; [reflexivity|]); done.
  - intros s e. apply Ascii7_decode_encode.
Qed.

(** ** The resolver on sample archives *)

(** C2 (as stated) fails.  With [Images/a b.png] and [Images/a+b.png] both
    in the archive, the reference [a b.png] and its variant [a+b.png]
    resolve to different blobs; with the single media file
    [Images/+a.png], the reference [+a.png] resolves while its variant
    with a space for the [+] does not.  For a name that holds both a [+]
    and a space: with the single media file [Images/a  b+ c.png] the
    variant with spaces for the [+] is not found; and the variant
    [a b c.png] of [a+b c.png] resolves to a file outside the accepted
    folders that bears this name, although no other entry answers to a
    path-index key. *)
Lemma variants_counterexample :
  (zipFile Media.archiveAliases ("Images/" +:+ "a b.png")
     = Some (Samples.file "bytes of the first")
   /\ In "a+b.png" (variants (B := Samples.builtins) "a b.png")
   /\ Media.resolve Media.archiveAliases "a b.png" = Some "bytes of the first"
   /\ Media.resolve Media.archiveAliases "a+b.png" = Some "bytes of the second")
  /\ (zipFile Media.archiveLeadingPlus ("Images/" +:+ "+a.png")
        = Some (Samples.file "bytes")
      /\ In " a.png" (variants (B := Samples.builtins) "+a.png")
      /\ Media.resolve Media.archiveLeadingPlus "+a.png" = Some "bytes"
      /\ Media.resolve Media.archiveLeadingPlus " a.png" = None)
  /\ (zipFile Media.archiveSpaced ("Images/" +:+ "a  b+ c.png")
        = Some (Samples.file "bytes")
      /\ In "a  b  c.png" (variants (B := Samples.builtins) "a  b+ c.png")
      /\ Media.resolve Media.archiveSpaced "a  b+ c.png" = Some "bytes"
      /\ Media.resolve Media.archiveSpaced "a  b  c.png" = None)
  /\ (zipFile Media.archiveShadow ("Images/" +:+ "a+b c.png")
        = Some (Samples.file "bytes")
      /\ In "a b c.png" (variants (B := Samples.builtins) "a+b c.png")
      /\ onlyAnswer (B := Samples.builtins)
           (buildIndex (B := Samples.builtins) Media.archiveShadow) Images
           ("Images/" +:+ "a+b c.png") "a b c.png" = true
      /\ Media.resolve Media.archiveShadow "a+b c.png" = Some "bytes"
      /\ Media.resolve Media.archiveShadow "a b c.png" = Some "other").
Proof.
  vm_compute. repeat split; auto 10.
Qed.

Lemma variants_resolve_alike_witness :
  (Media.resolve Media.archivePlus "a+b.png" = Some "bytes"
   /\ Media.resolve Media.archivePlus "a b.png" = Some "bytes"
   /\ Media.resolve Media.archivePlus "a%2Bb.png" = Some "bytes")
  /\ (Media.resolve Media.archiveMixed "a%2Bb%20c.png" = Some "bytes"
      /\ Media.resolve Media.archiveMixed "a b c.png" = Some "bytes"
      /\ Media.resolve Media.archiveMixed "a+b+c.png" = Some "bytes")
  /\ (Accents.decompose Accents.cafe <> Accents.cafe
      /\ Accents.find Accents.cafe = Some "bytes"
      /\ Accents.find (Accents.decompose Accents.cafe) = Some "bytes").
Proof.
  assert (forall v : string, v <> "" ->
            JsString.trim (JsString.stripAt v) = v -> isClean v) as Hclean
    by (intros v ? ?; by split).
  assert (forall files name v,
            zipFile files ("Images/" +:+ name) = Some (Samples.file "bytes") ->
            name <> "" ->
            isClean v ->
            onlyAnswer (B := Samples.builtins)
              (buildIndex (B := Samples.builtins) files) Images
              ("Images/" +:+ name) v = true ->
            In v (plainVariants (B := Samples.builtins) name)
            \/ (In v (exchangeVariants name)
                /\ exchangeReaches (B := Samples.builtins)
                     (buildIndex (B := Samples.builtins) files)
                     ("Images/" +:+ name) name v) ->
            Media.resolve files v = Some "bytes") as H.
  { intros files name v Hst Hne Hc Honly Hv.
    apply (variants_resolve_alike (L := Samples_laws) files
             Images "Images/" name (Samples.file "bytes"));
      [vm_compute; auto | exact Hne | exact Hst | exact Hc | exact Honly
      | exact Hv]. }
  assert (forall v,
            isClean v ->
            onlyAnswer (B := Accents.instance)
              (buildIndex (B := Accents.instance) Accents.archive) Images
              ("Images/" +:+ Accents.cafe) v = true ->
            In v (plainVariants (B := Accents.instance) Accents.cafe) ->
            Accents.find v = Some "bytes") as HA.
  { intros v Hc Honly Hv.
    apply (variants_resolve_alike (L := Accents_laws) Accents.archive
             Images "Images/" Accents.cafe (Samples.file "bytes"));
      [vm_compute; auto | discriminate | reflexivity | exact Hc | exact Honly
      | left; exact Hv]. }
  split; [split; [|split] | split; [split; [|split] | split; [|split]]].
  - apply (H Media.archivePlus "a+b.png");
      [reflexivity|discriminate|by apply Hclean|reflexivity|].
    left. vm_compute. auto.
  - apply (H Media.archivePlus "a+b.png");
      [reflexivity|discriminate|by apply Hclean|reflexivity|].
    right. split; [vm_compute; auto|]. left. reflexivity.
  - apply (H Media.archivePlus "a+b.png");
      [reflexivity|discriminate|by apply Hclean|reflexivity|].
    left. vm_compute. auto 10.
  - apply (H Media.archiveMixed "a+b c.png");
      [reflexivity|discriminate|by apply Hclean|reflexivity|].
    left. vm_compute. auto 10.
  - apply (H Media.archiveMixed "a+b c.png");
      [reflexivity|discriminate|by apply Hclean|reflexivity|].
    right. split; [vm_compute; auto|]. right. split; [vm_compute; auto|reflexivity].
  - apply (H Media.archiveMixed "a+b c.png");
      [reflexivity|discriminate|by apply Hclean|reflexivity|].
    right. split; [vm_compute; auto|]. right. split; [vm_compute; auto|reflexivity].
  - discriminate.
  - apply HA; [by apply Hclean|reflexivity|vm_compute; auto].
  - apply HA; [by apply Hclean|reflexivity|vm_compute; auto].
Defined.

(** * Further properties *)

(** ** The content classifier, continued *)

Section ClassifierMore.

Variable extractor : string -> MediaKind -> option File.

Lemma contentStep_parts acc it :
  cd_parts (contentStep extractor acc it)
  = cd_parts acc ++ (if isTextItem it then [ci_text it] else []).
Proof.
  unfold contentStep, isTextItem.
  set (t := typeIs (ci_type it) "text" || typeIs (ci_type it) "say").
  set (e := negb (JsString.isEmpty (ci_text it))).
  set (a := negb (JsString.startsWith "@" (ci_text it))).
  destruct t; cbn [andb].
  { destruct e, a; cbn [andb cd_parts]; by rewrite ?app_nil_r. }
  rewrite app_nil_r.
  destruct (typeIs _ "image"); [by destruct e|].
  destruct (_ || _); [by destruct e|].
  destruct (typeIs _ "video"); [by destruct e|done].
Qed.

Lemma contentLoop_parts items :
  cd_parts (contentLoop extractor items)
  = List.map ci_text (List.filter isTextItem items).
Proof.
  induction items as [|it items IH] using rev_ind; [done|].
  rewrite contentLoop_snoc, contentStep_parts, IH, List.filter_app, List.map_app.
  simpl. by destruct (isTextItem it).
Qed.

(** X1. The text of a payload is the values of the Text and Say items
    that are non-empty and do not start with [@], in their order, joined
    by newlines and trimmed; it is absent when that leaves nothing.  Media
    items and the archive have no part in it. *)
Theorem parseContentItems_text (items : list ContentItem) :
  p_text (parseContentItems extractor items)
  = let text :=
      JsString.trim
        (JsString.join JsString.newline
           (List.map ci_text (List.filter isTextItem items))) in
    if JsString.isEmpty text then None else Some text.
Proof.
  unfold parseContentItems, contentText; cbn [p_text].
  by rewrite contentLoop_parts.
Qed.

Lemma typeIs_video_not_audio ty :
  typeIs ty "video" = true -> typeIs ty "voice" || typeIs ty "audio" = false.
Proof.
  intros H. by rewrite (typeIs_excl _ "video" "voice"), (typeIs_excl _ "video" "audio").
Qed.

Lemma contentStep_type acc it :
  cd_type (contentStep extractor acc it)
  = if isVideoItem it then TVideo
    else if isAudioItem it
         then match cd_type acc with TText => TAudio | t => t end
         else cd_type acc.
Proof.
  unfold contentStep, isVideoItem, isAudioItem.
  destruct (typeIs (ci_type it) "text") eqn:Ht.
  { rewrite (typeIs_excl _ "text" "video"), (typeIs_excl _ "text" "voice"),
      (typeIs_excl _ "text" "audio") by done. simpl. by destruct (_ && _). }
  destruct (typeIs (ci_type it) "say") eqn:Hs.
  { rewrite (typeIs_excl _ "say" "video"), (typeIs_excl _ "say" "voice"),
      (typeIs_excl _ "say" "audio") by done. simpl. by destruct (_ && _). }
  simpl. destruct (typeIs (ci_type it) "image") eqn:Hi.
  { rewrite (typeIs_excl _ "image" "video"), (typeIs_excl _ "image" "voice"),
      (typeIs_excl _ "image" "audio") by done. simpl. by destruct (negb _). }
  destruct (typeIs (ci_type it) "voice" || typeIs (ci_type it) "audio") eqn:Ha.
  { assert (typeIs (ci_type it) "video" = false) as ->.
    { destruct (typeIs (ci_type it) "video") eqn:Hv; [|done].
      by rewrite (typeIs_video_not_audio _ Hv) in Ha. }
    simpl. by destruct (JsString.isEmpty (ci_text it)). }
  simpl. destruct (typeIs (ci_type it) "video"); simpl;
    [by destruct (JsString.isEmpty (ci_text it))|done].
Qed.

(** X2. The inferred type of a payload is Video as soon as one Video item
    has a non-empty value, wherever it stands; otherwise Audio when a
    Voice or Audio item has one; otherwise Text.  Whether the referenced
    file is found in the archive plays no part. *)
Theorem parseContentItems_type (items : list ContentItem) :
  p_type (parseContentItems extractor items)
  = if List.existsb isVideoItem items then TVideo
    else if List.existsb isAudioItem items then TAudio
    else TText.
Proof.
  unfold parseContentItems; cbn [p_type].
  induction items as [|it items IH] using rev_ind; [done|].
  rewrite contentLoop_snoc, contentStep_type, IH, !existsb_app. simpl.
  rewrite !orb_false_r.
  destruct (isVideoItem it); [by rewrite orb_true_r|]. rewrite orb_false_r.
  destruct (existsb isVideoItem items); [by destruct (isAudioItem it)|].
  destruct (isAudioItem it); [|by rewrite orb_false_r].
  rewrite orb_true_r. by destruct (existsb isAudioItem items).
Qed.

Lemma contentStep_irrelevant acc it :
  isRelevantItem it = false -> contentStep extractor acc it = acc.
Proof.
  unfold isRelevantItem, isTextItem, isImageItem, isAudioItem, isVideoItem, contentStep.
  set (t := typeIs (ci_type it) "text" || typeIs (ci_type it) "say").
  set (e := negb (JsString.isEmpty (ci_text it))).
  set (a := negb (JsString.startsWith "@" (ci_text it))).
  set (i := typeIs (ci_type it) "image").
  set (u := typeIs (ci_type it) "voice" || typeIs (ci_type it) "audio").
  set (v := typeIs (ci_type it) "video").
  by destruct t, e, a, i, u, v.
Qed.

(** X3. Items that no case of the classifier acts on - an unknown kind, an
    empty value, a Text or Say item that starts with [@] - change nothing:
    removing them from the list gives the same payload. *)
Theorem parseContentItems_relevant (items : list ContentItem) :
  parseContentItems extractor (List.filter isRelevantItem items)
  = parseContentItems extractor items.
Proof.
  unfold parseContentItems. f_equal; f_equal;
    (induction items as [|it items IH] using rev_ind; [done|];
     rewrite List.filter_app; simpl; destruct (isRelevantItem it) eqn:Hr;
     [by rewrite !contentLoop_snoc, IH
     |by rewrite app_nil_r, contentLoop_snoc, contentStep_irrelevant]).
Qed.

Lemma contentStep_video acc it :
  cd_video (contentStep extractor acc it)
  = if isVideoItem it then extractor (ci_text it) Video else cd_video acc.
Proof.
  unfold contentStep, isVideoItem.
  set (a := negb (JsString.startsWith "@" (ci_text it))).
  set (e := negb (JsString.isEmpty (ci_text it))).
  destruct (typeIs (ci_type it) "text") eqn:Ht.
  { rewrite (typeIs_excl _ "text" "video") by done. by destruct e, a. }
  destruct (typeIs (ci_type it) "say") eqn:Hs.
  { rewrite (typeIs_excl _ "say" "video") by done. by destruct e, a. }
  cbn [orb]. destruct (typeIs (ci_type it) "image") eqn:Hi.
  { rewrite (typeIs_excl _ "image" "video") by done. by destruct e. }
  destruct (typeIs (ci_type it) "voice" || typeIs (ci_type it) "audio") eqn:Ha.
  { assert (typeIs (ci_type it) "video" = false) as ->.
    { destruct (typeIs (ci_type it) "video") eqn:Hv; [|done].
      by rewrite (typeIs_video_not_audio _ Hv) in Ha. }
    by destruct e. }
  destruct (typeIs (ci_type it) "video"); by destruct e.
Qed.

(** X4. The video slot of the payload is what the resolver returns for
    the last Video item with a non-empty value: a later reference
    replaces an earlier one, and one that is not found in the archive
    leaves the slot empty even if an earlier one was found. *)
Theorem parseContentItems_video (items : list ContentItem) :
  p_video (parseContentItems extractor items)
  = (it ← lastWhere isVideoItem items; extractor (ci_text it) Video).
Proof.
  unfold parseContentItems; cbn [p_video].
  induction items as [|it items IH] using rev_ind; [done|].
  rewrite contentLoop_snoc, contentStep_video, lastWhere_snoc.
  by destruct (isVideoItem it).
Qed.

End ClassifierMore.

(** ** The index and the resolver, continued *)

Lemma mapSet_In k v m k' v' :
  In (k', v') (mapSet k v m) -> (k' = k /\ v' = v) \/ In (k', v') m.
Proof.
  induction m as [|[k0 v0] m IH]; simpl.
  - intros [[= <- <-]|[]]. by left.
  - destruct (String.eqb k0 k); simpl.
    + intros [[= <- <-]|H]; [by left|right; by right].
    + intros [H|H]; [right; by left|]. destruct (IH H); [by left|right; by right].
Qed.

Lemma mapGet_mapSet_same k v m : mapGet k (mapSet k v m) = Some v.
Proof.
  unfold mapGet. induction m as [|[k0 v0] m IH]; simpl.
  - by rewrite String.eqb_refl.
  - destruct (String.eqb k0 k) eqn:E; simpl; [by rewrite String.eqb_refl|by rewrite E].
Qed.

Lemma mapGet_mapSet_other k k' v m :
  k' <> k -> mapGet k (mapSet k' v m) = mapGet k m.
Proof.
  unfold mapGet. intros Hne. induction m as [|[k0 v0] m IH]; simpl.
  - by rewrite (proj2 (String.eqb_neq _ _) Hne).
  - destruct (String.eqb_spec k0 k') as [->|H0]; simpl.
    + by rewrite (proj2 (String.eqb_neq _ _) Hne).
    + by rewrite IH.
Qed.

Lemma valuesIn_mapSet (P : string -> Prop) k v m :
  P v -> valuesIn P m -> valuesIn P (mapSet k v m).
Proof.
  intros Hv Hm k' v' Hin. apply mapSet_In in Hin as [[_ ->]|Hin]; [done|eauto].
Qed.

Lemma valuesIn_impl (P Q : string -> Prop) m :
  (forall v, P v -> Q v) -> valuesIn P m -> valuesIn Q m.
Proof. intros H Hm k v Hin. eauto. Qed.

Section IndexMore.

Context `{B : Builtins}.

Lemma indexEntry_values (P : string -> Prop) idx path entry :
  (zo_dir entry = false -> P path) ->
  valuesIn P (zipFileMap idx) -> valuesIn P (baseNameMap idx) ->
  valuesIn P (zipFileMap (indexEntry idx (path, entry)))
  /\ valuesIn P (baseNameMap (indexEntry idx (path, entry))).
Proof.
  intros Hp Hz Hb. unfold indexEntry.
  destruct (zo_dir entry); [done|]. specialize (Hp eq_refl).
  cbn [zipFileMap baseNameMap]. split.
  - destruct (encodeURIComponent path) as [e|];
      [destruct (String.eqb _ _); [|apply valuesIn_mapSet; [done|]]|];
      (destruct (decodeURIComponent path) as [d|];
       [destruct (String.eqb _ _); [|apply valuesIn_mapSet; [done|]]|]);
      by apply valuesIn_mapSet.
  - by repeat apply valuesIn_mapSet.
Qed.

Lemma fold_indexEntry_values (P : string -> Prop) files idx :
  (forall p o, In (p, o) files -> zo_dir o = false -> P p) ->
  valuesIn P (zipFileMap idx) -> valuesIn P (baseNameMap idx) ->
  valuesIn P (zipFileMap (fold_left indexEntry files idx))
  /\ valuesIn P (baseNameMap (fold_left indexEntry files idx)).
Proof.
  revert idx. induction files as [|[p o] files IH]; intros idx Hf Hz Hb; [done|].
  simpl. destruct (indexEntry_values P idx p o) as [Hz' Hb']; [|done..|].
  { apply Hf. by left. }
  apply IH; [|done..]. intros p' o' Hin. apply Hf. by right.
Qed.

Lemma buildIndex_values (files : ZipFiles) (k p : string) :
  mapGet k (zipFileMap (buildIndex files)) = Some p
  \/ mapGet k (baseNameMap (buildIndex files)) = Some p ->
  isFilePath files p.
Proof.
  destruct (fold_indexEntry_values (isFilePath files) files (mkIndex [] []))
    as [Hz Hb]; [by intros p' o Hin Hd; exists o|by intros ? ? []..|].
  intros [H|H]; apply assoc_In in H; [by apply (Hz k)|by apply (Hb k)].
Qed.

(** X5. Both maps of the index point into the archive: whatever key of
    the path index or of the base-name index is looked up, the path found
    under it is the name of an entry of the archive that is not a
    folder. *)
Theorem buildIndex_sound (files : ZipFiles) (k p : string) :
  mapGet k (zipFileMap (buildIndex files)) = Some p
  \/ mapGet k (baseNameMap (buildIndex files)) = Some p ->
  isFilePath files p.
Proof. apply buildIndex_values. Qed.

Lemma fold_indexEntry_snoc files idx pe :
  fold_left indexEntry (files ++ [pe]) idx
  = indexEntry (fold_left indexEntry files idx) pe.
Proof. by rewrite fold_left_app. Qed.

(** X6. A later entry takes over the keys of an earlier one: once a file
    entry is indexed at the end of the archive, its normalised path in the
    path index and its normalised base name in the base-name index lead
    to this entry, whatever entries came before. *)
Theorem buildIndex_last_wins (files : ZipFiles) (path : string) (entry : ZipObject) :
  zo_dir entry = false ->
  mapGet (normalizeSearch path)
         (zipFileMap (buildIndex (files ++ [(path, entry)]))) = Some path
  /\ mapGet (normalizeSearch (baseOf path))
            (baseNameMap (buildIndex (files ++ [(path, entry)]))) = Some path.
Proof.
  intros Hd. unfold buildIndex. rewrite fold_indexEntry_snoc.
  generalize (fold_left indexEntry files (mkIndex [] [])) as idx. intros idx.
  unfold indexEntry. rewrite Hd. cbn [zipFileMap baseNameMap]. split.
  - assert (forall m, mapGet (normalizeSearch path) m = Some path ->
              mapGet (normalizeSearch path)
                match encodeURIComponent path with
                | Some e =>
                    if String.eqb (normalizeSearch (JsString.replaceAll "%2F" "/" e))
                                  (normalizeSearch path)
                    then m
                    else mapSet (normalizeSearch (JsString.replaceAll "%2F" "/" e)) path m
                | None => m
                end = Some path) as Henc.
    { intros m Hm. destruct (encodeURIComponent path); [|done].
      destruct (String.eqb_spec (normalizeSearch (JsString.replaceAll "%2F" "/" s))
                  (normalizeSearch path)); [done|].
      by rewrite mapGet_mapSet_other. }
    apply Henc. destruct (decodeURIComponent path) as [d|].
    + destruct (String.eqb_spec (normalizeSearch d) (normalizeSearch path)).
      * apply mapGet_mapSet_same.
      * rewrite mapGet_mapSet_other by done. apply mapGet_mapSet_same.
    + apply mapGet_mapSet_same.
  - set (nb := normalizeSearch (baseOf path)).
    destruct (String.eqb_spec (JsString.replaceChar " " "+" nb) nb) as [->|H1];
      [apply mapGet_mapSet_same|rewrite mapGet_mapSet_other by done].
    destruct (String.eqb_spec (JsString.replaceChar "+" " " nb) nb) as [->|H2];
      [apply mapGet_mapSet_same|rewrite mapGet_mapSet_other by done].
    apply mapGet_mapSet_same.
Qed.

End IndexMore.

Lemma zipFile_isFilePath files p :
  NoDup (List.map fst files) -> isFilePath files p -> is_Some (zipFile files p).
Proof.
  intros Hnd (o & Hin & Hd). unfold zipFile.
  assert (assoc p files = Some o) as ->; [|by rewrite Hd].
  induction files as [|[p' o'] files IH]; [done|]. simpl in *.
  apply NoDup_cons in Hnd as [Hni Hnd].
  destruct Hin as [[= -> ->]|Hin]; [by rewrite String.eqb_refl|].
  destruct (String.eqb_spec p' p) as [->|]; [|by apply IH].
  destruct Hni. apply list_elem_of_In, in_map_iff. by exists (p, o).
Qed.

Section ResolverMore.

Context `{B : Builtins}.
Variable files : ZipFiles.

Lemma extractFile_fetch (idx : Index) (filename : string) (type : MediaKind)
    (file : File) :
  extractFile files idx filename type = Some file ->
  filename <> ""
  /\ exists path,
       fetch files (baseOf (JsString.trim (JsString.stripAt filename))) path
       = Some file.
Proof.
  unfold extractFile. destruct filename as [|c r]; [done|].
  cbn [JsString.isEmpty]. intros H. split; [done|].
  destruct (stagePath _ _ _ _); [eauto|].
  destruct (stageBase _ _); [eauto|].
  destruct (stageLoose _ _); [eauto|done].
Qed.

(** X7. The resolver invents nothing.  Whatever index it is given, a file
    it returns answers a non-empty reference, is named by the base name
    of the reference (after the leading [@] and the surrounding white
    space are removed), and carries the bytes of a stored entry that is
    not a folder, typed by [getMimeType] from the name and the blob type
    of that entry. *)
Theorem extractFile_sound (idx : Index) (filename : string) (type : MediaKind)
    (file : File) :
  extractFile files idx filename type = Some file ->
  filename <> ""
  /\ file_name file = baseOf (JsString.trim (JsString.stripAt filename))
  /\ exists path entry,
       zipFile files path = Some entry
       /\ file_data file = zo_data entry
       /\ file_type file = getMimeType path (zo_type entry).
Proof.
  intros H. apply extractFile_fetch in H as (Hne & p & Hp). split; [done|].
  unfold fetch in Hp. destruct (zipFile files p) as [o|] eqn:Hz; [|done].
  injection Hp as <-. split; [done|]. by exists p, o.
Qed.

Lemma getMimeType_nonempty (filename blobType : string) :
  JsString.isEmpty (getMimeType filename blobType) = false.
Proof.
  unfold getMimeType.
  destruct (negb (JsString.isEmpty blobType)
            && negb (String.eqb blobType "application/octet-stream")) eqn:Hb.
  { apply andb_prop in Hb as [Hb _]. by apply negb_true_iff in Hb. }
  generalize (toLowerCase (JsString.popSplit JsString.isDot filename)).
  intros ext. cbv zeta.
  destruct (String.eqb ext "png"); [done|].
  destruct (String.eqb ext "jpg" || String.eqb ext "jpeg"); [done|].
  destruct (String.eqb ext "gif"); [done|].
  destruct (String.eqb ext "webp"); [done|].
  destruct (String.eqb ext "mp3"); [done|].
  destruct (String.eqb ext "wav"); [done|].
  destruct (String.eqb ext "ogg"); [done|].
  destruct (String.eqb ext "mp4"); [done|].
  destruct (String.eqb ext "webm"); [done|].
  destruct (String.eqb ext "mov"); [done|].
  by destruct blobType.
Qed.

(** X8. Every file the resolver returns is typed: its MIME type is never
    the empty string, also when the archive reports no type for the blob
    and the extension of the entry is unknown. *)
Theorem extractFile_typed (idx : Index) (filename : string) (type : MediaKind)
    (file : File) :
  extractFile files idx filename type = Some file ->
  JsString.isEmpty (file_type file) = false.
Proof.
  intros H. apply extractFile_fetch in H as (_ & p & Hp).
  unfold fetch in Hp. destruct (zipFile files p) as [o|]; [|done].
  injection Hp as <-. apply getMimeType_nonempty.
Qed.

(** X9. A reference that is the exact name of a stored file is always
    answered: in an archive whose entry names are distinct and non-empty,
    looking up the name of a file entry, written without a leading [@]
    or surrounding white space, returns a file, for every media kind. *)
Theorem extractFile_finds_stored (path : string) (entry : ZipObject)
    (type : MediaKind) :
  NoDup (List.map fst files) ->
  assoc "" files = None ->
  zipFile files path = Some entry ->
  isClean path ->
  is_Some (extractFile files (buildIndex files) path type).
Proof.
  intros Hnd Hno Hst [Hne Hclean]. unfold extractFile.
  rewrite (proj2 (isEmpty_false _) Hne), Hclean.
  destruct (buildIndex_keys files path entry Hst) as [[p Hp] _].
  assert (isFilePath files p) as Hfp by (eapply buildIndex_values; eauto).
  assert (is_Some (stagePath files (buildIndex files) type (candidates path))) as [q Hq].
  { unfold stagePath. apply (firstSome_some _ _ ""); [by left|].
    apply (firstSome_some _ _ path).
    { destruct (candidates_members path) as [Hc _]. by rewrite Hclean in Hc. }
    unfold probePath. change ("" +:+ path) with path. rewrite Hp.
    destruct Hfp as (o & Hin & Hd).
    assert (p <> "") as Hpne.
    { intros ->. clear -Hin Hno. induction files as [|[k v] l IH]; [done|].
      simpl in *. destruct (String.eqb_spec k "") as [->|Hk]; [done|].
      destruct Hin as [[= -> _]|Hin]; [done|by apply IH]. }
    rewrite (proj2 (isEmpty_false _) Hpne).
    destruct (zipFile_isFilePath files p Hnd) as [o' Ho']; [by exists o|].
    unfold zipFile in Ho'. destruct (assoc p files) eqn:Ha; [|done].
    rewrite bool_decide_eq_true_2 by eauto. simpl. eauto. }
  rewrite Hq. unfold fetch.
  apply firstSome_inv in Hq as (pre & _ & Hq).
  apply firstSome_inv in Hq as (cand & _ & Hq).
  unfold probePath in Hq.
  destruct (mapGet (normalizeSearch (pre +:+ cand)) (zipFileMap (buildIndex files)))
    as [a|] eqn:Ha; [|done].
  destruct (_ && _); [|done]. injection Hq as <-.
  destruct (zipFile_isFilePath files a Hnd) as [o' ->]; [|eauto].
  eapply buildIndex_values; eauto.
Qed.

(** X10. The marker [@] in front of a reference is dropped before the
    search: a non-empty reference that does not itself start with [@]
    resolves to the same result with the marker and without it. *)
Theorem extractFile_marker (idx : Index) (filename : string) (type : MediaKind) :
  filename <> "" ->
  JsString.stripAt filename = filename ->
  extractFile files idx (String "@" filename) type
  = extractFile files idx filename type.
Proof.
  intros Hne Hs. unfold extractFile, candidates.
  change (JsString.stripAt (String "@" filename)) with filename.
  rewrite Hs, (proj2 (isEmpty_false _) Hne). reflexivity.
Qed.

End ResolverMore.

Lemma buildIndex_sound_witness : isFilePath archiveTwoImages "Images/b.png".
Proof.
  apply (buildIndex_sound (B := Samples.builtins) archiveTwoImages "b.png" "Images/b.png").
  right. reflexivity.
Defined.

Lemma buildIndex_last_wins_witness :
  mapGet "images/a.png"
    (zipFileMap (buildIndex (B := Samples.builtins)
                   (archiveTwoImages ++ [("IMAGES/A.PNG", Samples.file "other")])))
  = Some "IMAGES/A.PNG".
Proof.
  apply (buildIndex_last_wins (B := Samples.builtins) archiveTwoImages "IMAGES/A.PNG"
           (Samples.file "other")).
  reflexivity.
Defined.

Lemma extractFile_sound_witness :
  exists path entry,
    zipFile archiveTwoImages path = Some entry
    /\ "bytes of b" = zo_data entry
    /\ "image/png" = getMimeType (B := Samples.builtins) path (zo_type entry).
Proof.
  apply (extractFile_sound (B := Samples.builtins) archiveTwoImages
           (buildIndex (B := Samples.builtins) archiveTwoImages)
           "@b.png" Images (mkFile "b.png" "image/png" "bytes of b")).
  reflexivity.
Defined.

Lemma extractFile_finds_stored_witness :
  is_Some (extractFile (B := Samples.builtins) archiveTwoImages
             (buildIndex (B := Samples.builtins) archiveTwoImages)
             "Images/a.png" Audio).
Proof.
  apply (extractFile_finds_stored (B := Samples.builtins) archiveTwoImages
           "Images/a.png" (Samples.file "bytes of a") Audio).
  - apply (bool_decide_unpack _). vm_compute. exact I.
  - reflexivity.
  - reflexivity.
  - split; [discriminate|reflexivity].
Defined.

Lemma extractFile_marker_witness :
  extractFile (B := Samples.builtins) archiveTwoImages
    (buildIndex (B := Samples.builtins) archiveTwoImages) "@a.png" Images
  = extractFile (B := Samples.builtins) archiveTwoImages
      (buildIndex (B := Samples.builtins) archiveTwoImages) "a.png" Images.
Proof.
  apply (extractFile_marker (B := Samples.builtins) archiveTwoImages
           (buildIndex (B := Samples.builtins) archiveTwoImages) "a.png" Images);
    [discriminate|reflexivity].
Defined.

(** ** The file storage *)

Section StorageFacts.

Context `{B : Builtins}.
Variable files : ZipFiles.
Variable idx : Index.
Variable rnd : nat -> string.

Lemma recordStorage_app n l1 l2 m :
  recordStorage files idx rnd n (l1 ++ l2) m
  = recordStorage files idx rnd (n + length l1) l2 (recordStorage files idx rnd n l1 m).
Proof.
  revert n m; induction l1 as [|s l1 IH]; intros n m; simpl.
  - by rewrite Nat.add_0_r.
  - rewrite IH. by replace (n + S (length l1))%nat with (S n + length l1)%nat by lia.
Qed.

Lemma processQuestion_storage rn cat st q st' :
  processQuestion files idx rnd rn cat st q = Ok st' ->
  fileStorage st'
  = recordStorage files idx rnd (draws st) [(rn, cat, q)] (fileStorage st).
Proof.
  unfold processQuestion, bindO. intros H.
  destruct (specialOf q) as [sp|e] eqn:Hs; [|discriminate].
  injection H as <-. reflexivity.
Qed.

Lemma questions_storage rn cat qs st st' :
  foldO (processQuestion files idx rnd rn cat) qs st = Ok st' ->
  fileStorage st'
  = recordStorage files idx rnd (draws st)
      (List.map (fun q => (rn, cat, q)) qs) (fileStorage st).
Proof.
  revert st; induction qs as [|q qs IH]; intros st H; simpl in *.
  - by injection H as <-.
  - unfold bindO in H at 1.
    destruct (processQuestion _ _ _ _ _ st q) as [st1|] eqn:Hq; [|discriminate].
    rewrite (IH _ H), (processQuestion_storage _ _ _ _ _ Hq).
    apply processQuestion_Extends in Hq as [_ -> _ _]. simpl.
    by replace (draws st + 1)%nat with (S (draws st)) by lia.
Qed.

Lemma themes_storage rn themes st st' :
  foldO (processTheme files idx rnd rn) themes st = Ok st' ->
  fileStorage st'
  = recordStorage files idx rnd (draws st)
      (List.flat_map (themeSrc rn) themes) (fileStorage st).
Proof.
  revert st; induction themes as [|t ts IH]; intros st H; simpl in *.
  - by injection H as <-.
  - unfold bindO in H at 1.
    destruct (processTheme _ _ _ _ st t) as [st1|] eqn:Ht; [|discriminate].
    rewrite (IH _ H), recordStorage_app.
    pose proof (processTheme_Extends _ _ _ _ _ _ _ Ht) as [_ -> _ _].
    unfold processTheme in Ht. by rewrite (questions_storage _ _ _ _ _ Ht).
Qed.

Lemma rounds_storage rounds st st' :
  foldO (processRound files idx rnd) rounds st = Ok st' ->
  fileStorage st'
  = recordStorage files idx rnd (draws st)
      (List.flat_map roundSrc rounds) (fileStorage st).
Proof.
  revert st; induction rounds as [|r rs IH]; intros st H; simpl in *.
  - by injection H as <-.
  - unfold bindO in H at 1.
    destruct (processRound _ _ _ st r) as [st1|] eqn:Hr; [|discriminate].
    rewrite (IH _ H), recordStorage_app. unfold processRound in Hr.
    pose proof (themes_Extends _ _ _ _ _ _ _ Hr) as [_ Hd _ _].
    apply themes_storage in Hr. simpl in *. fold (roundSrc r) in Hr, Hd.
    by rewrite Hr, Hd.
Qed.

Lemma recordStorage_inv n l m id e :
  recordStorage files idx rnd n l m !! id = Some e ->
  m !! id = Some e
  \/ exists i s,
       l !! i = Some s
       /\ id = q_id (emit files idx rnd (n + i) s)
       /\ e = storageEntryOf files idx (snd s)
       /\ storageNonEmpty e = true.
Proof.
  revert n m; induction l as [|s l IH]; intros n m; simpl; [by left|].
  intros H. apply IH in H as [H|(i & s' & Hi & -> & -> & Hne)].
  - unfold storeEntry in H.
    destruct (storageNonEmpty (storageEntryOf files idx (snd s))) eqn:Hne; [|by left].
    destruct (decide (q_id (emit files idx rnd n s) = id)) as [<-|Hid].
    + rewrite lookup_insert_eq in H. injection H as <-.
      right. exists 0%nat, s. by rewrite Nat.add_0_r.
    + rewrite lookup_insert_ne in H by done. by left.
  - right. exists (S i), s'. repeat split; [done| |done].
    by replace (n + S i)%nat with (S n + i)%nat by lia.
Qed.

Lemma recordStorage_other n l m id :
  id ∉ List.map q_id (emitAll files idx rnd n l) ->
  recordStorage files idx rnd n l m !! id = m !! id.
Proof.
  revert n m; induction l as [|s l IH]; intros n m; simpl; [done|].
  intros H. apply not_elem_of_cons in H as [Hid H]. rewrite IH by done.
  unfold storeEntry. destruct (storageNonEmpty _); [|done].
  by rewrite lookup_insert_ne.
Qed.

Lemma recordStorage_at n l m i s :
  NoDup (List.map q_id (emitAll files idx rnd n l)) ->
  l !! i = Some s ->
  recordStorage files idx rnd n l m !! q_id (emit files idx rnd (n + i) s)
  = if storageNonEmpty (storageEntryOf files idx (snd s))
    then Some (storageEntryOf files idx (snd s))
    else m !! q_id (emit files idx rnd (n + i) s).
Proof.
  revert n m i; induction l as [|s0 l IH]; intros n m i Hnd Hi; [done|].
  simpl in Hnd. apply NoDup_cons in Hnd as [Hni Hnd].
  destruct i as [|i]; simpl in *.
  - injection Hi as ->. rewrite Nat.add_0_r, recordStorage_other by done.
    unfold storeEntry. destruct (storageNonEmpty _); [|done].
    by rewrite lookup_insert_eq.
  - replace (n + S i)%nat with (S n + i)%nat by lia.
    rewrite (IH (S n) _ i Hnd Hi).
    destruct (storageNonEmpty (storageEntryOf files idx (snd s))); [done|].
    unfold storeEntry. destruct (storageNonEmpty _); [|done].
    rewrite lookup_insert_ne; [done|]. intros Heq. apply Hni. rewrite Heq.
    apply list_elem_of_fmap. exists (emit files idx rnd (S n + i) s). split; [done|].
    clear -Hi. revert n i Hi. induction l as [|s1 l IH]; intros n i Hi; [done|].
    destruct i as [|i]; simpl in *.
    + injection Hi as ->. rewrite Nat.add_0_r. by left.
    + right. replace (S (n + S i)) with (S (S n) + i)%nat by lia. by apply IH.
Qed.

End StorageFacts.

Section ParseMore.

Context `{B : Builtins}.

Lemma parseSiq_storage files rnd res x :
  parseSiq (Some files) rnd = Ok res ->
  rootDocument files = Some x ->
  r_fileStorage res = recordStorage files (buildIndex files) rnd 0 (docOrder x) ∅.
Proof.
  intros H Hx. rewrite (parseSiq_rounds _ _ _ Hx) in H. unfold bindO in H.
  destruct (foldO _ _ _) as [st|] eqn:Hf; [|discriminate].
  injection H as <-. simpl. by rewrite (rounds_storage _ _ _ _ _ _ Hf).
Qed.

(** X11. Nothing is stored that no question owns.  Every entry of the
    returned file storage is filed under the id of a returned question,
    holds the media files resolved for the node that question was built
    from, and holds at least one file. *)
Theorem fileStorage_sound (files : ZipFiles) (rnd : nat -> string)
    (res : ParseResult) (id : string) (e : StorageEntry) :
  parseSiq (Some files) rnd = Ok res ->
  r_fileStorage res !! id = Some e ->
  storageNonEmpty e = true
  /\ exists x i s nq,
       rootDocument files = Some x
       /\ docOrder x !! i = Some s
       /\ r_questions res !! i = Some nq
       /\ q_id nq = id
       /\ e = storageEntryOf files (buildIndex files) (snd s).
Proof.
  intros H He. destruct (parseSiq_ok_inv _ _ _ H) as (x & Hx & Hq & _).
  rewrite (parseSiq_storage _ _ _ _ H Hx) in He.
  apply recordStorage_inv in He as [He|(i & s & Hi & -> & -> & Hne)]; [done|].
  split; [done|]. exists x, i, s, (emit files (buildIndex files) rnd i s).
  repeat split; try done. by rewrite Hq, emitAll_lookup, Hi.
Qed.

Lemma parseSiq_storage_at (files : ZipFiles) (rnd : nat -> string)
    (res : ParseResult) (x : XVal) (i : nat) (s : Src) :
  parseSiq (Some files) rnd = Ok res ->
  rootDocument files = Some x ->
  NoDup (List.map q_id (r_questions res)) ->
  docOrder x !! i = Some s ->
  exists nq,
    r_questions res !! i = Some nq
    /\ r_fileStorage res !! q_id nq
       = if storageNonEmpty (storageEntryOf files (buildIndex files) (snd s))
         then Some (storageEntryOf files (buildIndex files) (snd s))
         else None.
Proof.
  intros H Hx Hnd Hi. destruct (parseSiq_ok_inv _ _ _ H) as (x' & Hx' & Hq & _).
  assert (x' = x) as -> by congruence.
  exists (emit files (buildIndex files) rnd i s). split.
  - by rewrite Hq, emitAll_lookup, Hi.
  - rewrite (parseSiq_storage _ _ _ _ H Hx). rewrite Hq in Hnd.
    by rewrite (recordStorage_at _ _ _ 0 _ ∅ i s Hnd Hi).
Qed.

(** X12. When the ids of the returned questions are distinct, the file
    storage holds under the id of each question exactly the media files
    resolved for its node, and nothing under the id of a question without
    media. *)
Theorem fileStorage_complete (files : ZipFiles) (rnd : nat -> string)
    (res : ParseResult) (x : XVal) (i : nat) (s : Src) :
  parseSiq (Some files) rnd = Ok res ->
  rootDocument files = Some x ->
  NoDup (List.map q_id (r_questions res)) ->
  docOrder x !! i = Some s ->
  exists nq,
    r_questions res !! i = Some nq
    /\ r_fileStorage res !! q_id nq
       = if storageNonEmpty (storageEntryOf files (buildIndex files) (snd s))
         then Some (storageEntryOf files (buildIndex files) (snd s))
         else None.
Proof. apply parseSiq_storage_at. Qed.

Lemma storageEntryOf_urls files idx rn cat q sp suffix :
  let nq := newQuestion files idx rn cat q sp suffix in
  let e := storageEntryOf files idx q in
  q_questionImageUrl nq = url (st_questionImage e)
  /\ q_questionAudioUrl nq = url (st_questionAudio e)
  /\ q_questionVideoUrl nq = url (st_questionVideo e)
  /\ q_answerImageUrl nq = url (st_answerImage e)
  /\ q_answerAudioUrl nq = url (st_answerAudio e)
  /\ q_answerVideoUrl nq = url (st_answerVideo e)
  /\ q_audioUrl nq = url (st_audio e)
  /\ q_videoUrl nq = url (st_video e).
Proof. by repeat split. Qed.

Lemma storage_empty_fields e :
  storageNonEmpty e = false ->
  st_questionImage e = None /\ st_questionAudio e = None
  /\ st_questionVideo e = None /\ st_answerImage e = None
  /\ st_answerAudio e = None /\ st_answerVideo e = None
  /\ st_audio e = None /\ st_video e = None.
Proof.
  destruct e as [[] [] [] [] [] [] [] []]; simpl; try discriminate. by repeat split.
Qed.

(** X13. Every media URL of a returned question is backed by the file
    storage: when the ids of the returned questions are distinct, each of
    the eight URL fields of a question is the URL of the file kept in the
    matching field of the storage entry under its id, and is absent when
    that field or the whole entry is absent. *)
Theorem media_urls_backed (files : ZipFiles) (rnd : nat -> string)
    (res : ParseResult) (nq : Question) :
  parseSiq (Some files) rnd = Ok res ->
  NoDup (List.map q_id (r_questions res)) ->
  nq ∈ r_questions res ->
  let stored (field : StorageEntry -> option File) :=
    r_fileStorage res !! q_id nq ≫= field in
  q_questionImageUrl nq = url (stored st_questionImage)
  /\ q_questionAudioUrl nq = url (stored st_questionAudio)
  /\ q_questionVideoUrl nq = url (stored st_questionVideo)
  /\ q_answerImageUrl nq = url (stored st_answerImage)
  /\ q_answerAudioUrl nq = url (stored st_answerAudio)
  /\ q_answerVideoUrl nq = url (stored st_answerVideo)
  /\ q_audioUrl nq = url (stored st_audio)
  /\ q_videoUrl nq = url (stored st_video).
Proof.
  intros H Hnd Hin. destruct (parseSiq_ok_inv _ _ _ H) as (x & Hx & Hq & _).
  apply list_elem_of_lookup in Hin as [i Hi].
  pose proof Hi as Hi'. rewrite Hq, emitAll_lookup in Hi'.
  destruct (docOrder x !! i) as [[[rn cat] q]|] eqn:Hs; [|done].
  injection Hi' as <-.
  destruct (parseSiq_storage_at files rnd res x i _ H Hx Hnd Hs) as (nq' & Hnq' & Hst).
  rewrite Hi in Hnq'. injection Hnq' as <-. cbv zeta. rewrite Hst.
  unfold emit. cbn [snd].
  destruct (storageNonEmpty (storageEntryOf files (buildIndex files) q)) eqn:Hne.
  - exact (storageEntryOf_urls files (buildIndex files) rn cat q (specialOr q) (rnd i)).
  - destruct (storageEntryOf_urls files (buildIndex files) rn cat q (specialOr q) (rnd i))
      as (-> & -> & -> & -> & -> & -> & -> & ->).
    destruct (storage_empty_fields _ Hne) as (-> & -> & -> & -> & -> & -> & -> & ->).
    by repeat split.
Qed.

End ParseMore.

Lemma fileStorage_sound_witness :
  storageNonEmpty imageEntry = true
  /\ exists x i s nq,
       rootDocument (B := Samples.builtins) Samples.archiveTwoRounds = Some x
       /\ docOrder x !! i = Some s
       /\ r_questions parsedTwoRounds !! i = Some nq
       /\ q_id nq = "Round1_SimpleQuestions_200_k3x91"
       /\ imageEntry
          = storageEntryOf (B := Samples.builtins) Samples.archiveTwoRounds
              (buildIndex (B := Samples.builtins) Samples.archiveTwoRounds) (snd s).
Proof.
  apply (fileStorage_sound (B := Samples.builtins) Samples.archiveTwoRounds
           Samples.suffixes parsedTwoRounds "Round1_SimpleQuestions_200_k3x91" imageEntry).
  - vm_compute. reflexivity.
  - vm_compute. reflexivity.
Defined.

Lemma fileStorage_complete_witness :
  exists nq,
    r_questions parsedTwoRounds !! 1%nat = Some nq
    /\ r_fileStorage parsedTwoRounds !! q_id nq = Some imageEntry.
Proof.
  destruct (fileStorage_complete (B := Samples.builtins) Samples.archiveTwoRounds
              Samples.suffixes parsedTwoRounds Samples.docTwoRounds 1
              imageQuestion)
    as (nq & Hnq & Hst).
  - vm_compute. reflexivity.
  - reflexivity.
  - apply (bool_decide_unpack _). vm_compute. exact I.
  - reflexivity.
  - exists nq. split; [exact Hnq|]. rewrite Hst. reflexivity.
Defined.

Lemma media_urls_backed_witness :
  q_questionImageUrl
    (emit (B := Samples.builtins) Samples.archiveTwoRounds
       (buildIndex (B := Samples.builtins) Samples.archiveTwoRounds) Samples.suffixes 1
       imageQuestion)
  = Some (BlobURL (mkFile "question.jpg" "image/jpeg" "JPEG")).
Proof.
  pose proof (media_urls_backed (B := Samples.builtins) Samples.archiveTwoRounds
                Samples.suffixes parsedTwoRounds
                (emit (B := Samples.builtins) Samples.archiveTwoRounds
                   (buildIndex (B := Samples.builtins) Samples.archiveTwoRounds)
                   Samples.suffixes 1
                   imageQuestion))
    as H.
  destruct H as (H & _).
  - vm_compute. reflexivity.
  - apply (bool_decide_unpack _). vm_compute. exact I.
  - apply list_elem_of_lookup. exists 1%nat. vm_compute. reflexivity.
  - rewrite H. vm_compute. reflexivity.
Defined.

(** ** Round types, special types and ids, continued *)

Lemma recordRounds_keys l (m : gmap string RoundType) k :
  Forall (fun r => roundKey r <> "__proto__") l ->
  is_Some (recordRounds l m !! k)
  <-> is_Some (m !! k) \/ exists r, r ∈ l /\ roundKey r = k.
Proof.
  intros Hl; revert m; induction Hl as [|r l Hr _ IH]; intros m.
  - simpl. split; [by left|]. intros [H|(r & Hr & _)]; [done|]. by apply elem_of_nil in Hr.
  - change (recordRounds (r :: l) m)
      with (recordRounds l (assignText (roundKey r) (roundTypeOf r) m)).
    rewrite IH. destruct (decide (roundKey r = k)) as [Hk|Hk].
    + split; intros _.
      * right. exists r. split; [by left|done].
      * left. rewrite <- Hk, assignText_same by done. eauto.
    + rewrite assignText_other by done. split.
      * intros [H|(r' & Hr' & Hk')]; [by left|]. right. exists r'. split; [by right|done].
      * intros [H|(r' & Hr' & Hk')]; [by left|].
        apply elem_of_cons in Hr' as [->|Hr']; [done|]. right. by exists r'.
Qed.

Lemma emitAll_round `{B : Builtins} files idx rnd n l nq :
  nq ∈ emitAll files idx rnd n l -> exists s, s ∈ l /\ q_round nq = fst (fst s).
Proof.
  revert n; induction l as [|[[rn cat] q] l IH]; intros n; simpl.
  - intros H. by apply elem_of_nil in H.
  - intros H. apply elem_of_cons in H as [->|H].
    + eexists. split; [by left|done].
    + destruct (IH _ H) as (s & Hs & Hr). exists s. split; [by right|done].
Qed.

Section RoundTypesMore.

Context `{B : Builtins}.

(** X14. The round types are recorded for exactly the rounds of the
    package, under their names, and so for the round of every returned
    question: looking up the round of a question never misses.  (The
    record being a plain object, this supposes that no round is called
    [__proto__], a key that an assignment cannot create.) *)
Theorem roundTypes_keys (files : ZipFiles) (rnd : nat -> string)
    (res : ParseResult) (x : XVal) :
  parseSiq (Some files) rnd = Ok res ->
  rootDocument files = Some x ->
  Forall (fun r => roundKey r <> "__proto__") (packageRounds x) ->
  (forall k, is_Some (r_roundTypes res !! k)
             <-> exists r, r ∈ packageRounds x /\ roundKey r = k)
  /\ (forall nq, nq ∈ r_questions res ->
                 is_Some (r_roundTypes res !! toStrV (q_round nq))).
Proof.
  intros H Hx Hp. destruct (parseSiq_ok_inv _ _ _ H) as (x' & Hx' & Hq & Hr & _).
  assert (x' = x) as -> by congruence.
  assert (forall k, is_Some (r_roundTypes res !! k)
                    <-> exists r, r ∈ packageRounds x /\ roundKey r = k) as Hkeys.
  { intros k. rewrite Hr, recordRounds_keys, lookup_empty by done. split.
    - intros [[? [=]]|?]; done.
    - by right. }
  split; [done|]. intros nq Hnq. apply Hkeys.
  rewrite Hq in Hnq. apply emitAll_round in Hnq as (s & Hs & ->).
  unfold docOrder in Hs. apply list_elem_of_In, in_flat_map in Hs as (r & Hr' & Hs).
  exists r. split; [by apply list_elem_of_In|].
  unfold roundSrc in Hs. apply in_flat_map in Hs as (t & _ & Hs).
  unfold themeSrc in Hs. apply in_map_iff in Hs as (q & <- & _). done.
Qed.

(** X15. A package without question nodes is not an error: when the
    root document is found and parsed and its rounds hold no question,
    the parse returns, with no question and an empty file storage. *)
Theorem parseSiq_no_questions (files : ZipFiles) (rnd : nat -> string) (x : XVal) :
  rootDocument files = Some x ->
  docOrder x = [] ->
  exists res,
    parseSiq (Some files) rnd = Ok res
    /\ r_questions res = [] /\ r_fileStorage res = ∅.
Proof.
  intros Hx Hd.
  destruct (parseSiq_returns files rnd x Hx) as [res Hres]; [by rewrite Hd|].
  exists res. split; [done|].
  pose proof (parseSiq_storage _ _ _ _ Hres Hx) as Hst.
  destruct (parseSiq_ok_inv _ _ _ Hres) as (x' & Hx' & Hq & _).
  assert (x' = x) as -> by congruence.
  by rewrite Hd in Hq, Hst.
Qed.

Lemma classifySpecial_described name src t d :
  classifySpecial name src = Ok (t, d) ->
  JsString.isEmpty d = negb (bool_decide (is_Some t)).
Proof.
  unfold classifySpecial.
  destruct (truthyV name); [|by intros [= <- <-]].
  destruct name as [[n| | | |]|]; try discriminate.
  generalize (toLowerCase n). intros l. cbv zeta.
  destruct (String.eqb l "bagcat" || String.eqb l "cat"); [by intros [= <- <-]|].
  destruct (String.eqb l "sponsored"); [by intros [= <- <-]|].
  destruct (String.eqb l "secret").
  { intros [= <- <-].
    generalize (getText (List.find (nameIs "selectionMode") (getParams src))).
    intros mode.
    destruct (String.eqb mode "exceptCurrent"); [done|].
    destruct (String.eqb mode "current"); [done|].
    by destruct (String.eqb mode "any"). }
  destruct (String.eqb l "stake"); by intros [= <- <-].
Qed.

(** X16. A returned question carries a special description exactly when
    it carries a special type: the description is empty for an ordinary
    question and never empty for a cat, bet, secret or auction
    question. *)
Theorem special_described (files : ZipFiles) (rnd : nat -> string)
    (res : ParseResult) (nq : Question) :
  parseSiq (Some files) rnd = Ok res ->
  nq ∈ r_questions res ->
  q_specialDescription nq = "" <-> q_specialType nq = None.
Proof.
  intros H Hnq. destruct (parseSiq_ok_inv _ _ _ H) as (x & _ & Hq & _ & Hok).
  rewrite Hq in Hnq. apply list_elem_of_lookup in Hnq as [i Hi].
  rewrite emitAll_lookup in Hi.
  destruct (docOrder x !! i) as [[[rn cat] q]|] eqn:Hs; [|done].
  injection Hi as <-. simpl.
  apply list_elem_of_lookup_2 in Hs. rewrite Forall_forall in Hok.
  specialize (Hok _ Hs). unfold specialOk in Hok. simpl in Hok.
  unfold specialOr. destruct (specialOf q) as [[t d]|] eqn:Hsp; [|done]. simpl.
  unfold specialOf, bindO in Hsp.
  destruct (typeSourceOf q) as [[name src]|]; [|done].
  apply classifySpecial_described in Hsp.
  destruct t, d; simpl in *; try done; split; done.
Qed.

End RoundTypesMore.

Lemma roundTypes_keys_witness :
  (forall k, is_Some (r_roundTypes parsedTwoRounds !! k)
             <-> exists r, r ∈ packageRounds Samples.docTwoRounds /\ roundKey r = k)
  /\ (forall nq, nq ∈ r_questions parsedTwoRounds ->
                 is_Some (r_roundTypes parsedTwoRounds !! toStrV (q_round nq))).
Proof.
  apply (roundTypes_keys (B := Samples.builtins) Samples.archiveTwoRounds
           Samples.suffixes parsedTwoRounds Samples.docTwoRounds).
  - vm_compute. reflexivity.
  - reflexivity.
  - repeat constructor; discriminate.
Defined.

Lemma parseSiq_no_questions_witness :
  exists res,
    parseSiq (B := Samples.builtins) (Some archiveTwoImages) Samples.suffixes = Ok res
    /\ r_questions res = [] /\ r_fileStorage res = ∅.
Proof.
  apply (parseSiq_no_questions (B := Samples.builtins) archiveTwoImages
           Samples.suffixes (XObj [("package", XStr "")])); reflexivity.
Defined.

Lemma special_described_witness :
  q_specialDescription
    (emit (B := Samples.builtins) Samples.archiveTwoRounds
       (buildIndex (B := Samples.builtins) Samples.archiveTwoRounds) Samples.suffixes 1
       imageQuestion) = "".
Proof.
  apply (special_described (B := Samples.builtins) Samples.archiveTwoRounds
           Samples.suffixes parsedTwoRounds).
  - vm_compute. reflexivity.
  - apply list_elem_of_lookup. exists 1%nat. vm_compute. reflexivity.
  - reflexivity.
Defined.

(** ** Decimal prices *)






Section PriceMore.

Context `{B : Builtins}.
Variable files : ZipFiles.
Variable idx : Index.

(** X17. A price attribute written in decimal is read back exactly: the
    score of the question is the integer it spells, negative numbers and
    zero included, whatever the other price spellings of the node say.
    The integer is one that a JavaScript number holds exactly. *)
Theorem score_of_decimal_price (roundName category : option XVal) (q : XVal)
    (special : option SpecialType * string) (suffix : string) (n : Z) :
  Z.abs n <= 2 ^ 53 ->
  get "@_price" q = Some (XStr (pretty n)) ->
  q_score (newQuestion files idx roundName category q special suffix) = n.
Proof.
  intros Hn H. unfold newQuestion; cbn [q_score].
  unfold resolvePrice, priceValue, orV. rewrite H.
  cbn [truthyV truthy]. rewrite pretty_Z_nonempty. cbn [negb truthyV truthy].
  rewrite pretty_Z_nonempty. cbn [negb truthyV truthy].
  rewrite pretty_Z_nonempty. cbn [negb toStrV toStr].
  by rewrite parseInt_pretty.
Qed.


End PriceMore.

Lemma score_of_decimal_price_witness :
  q_score (newQuestion (B := Samples.builtins) [] (mkIndex [] [])
             (Some (XStr "R")) (Some (XStr "T")) negativePriceQuestion (None, "") "abcde")
  = -100.
Proof.
  apply (score_of_decimal_price (B := Samples.builtins) [] (mkIndex [] [])
           (Some (XStr "R")) (Some (XStr "T")) negativePriceQuestion (None, "") "abcde"
           (-100)).
  - vm_compute. discriminate.
  - reflexivity.
Defined.


Lemma extractFile_typed_witness :
  JsString.isEmpty "image/png" = false.
Proof.
  apply (extractFile_typed (B := Samples.builtins) archiveTwoImages
           (buildIndex (B := Samples.builtins) archiveTwoImages)
           "@b.png" Images (mkFile "b.png" "image/png" "bytes of b")).
  reflexivity.
Defined.

(** ** The random suffixes *)

Lemma emit_withoutId `{B : Builtins} files idx rnd rnd' n m s :
  withoutId (emit files idx rnd n s) = withoutId (emit files idx rnd' m s).
Proof. by destruct s as [[rn cat] q]. Qed.

Lemma emitAll_withoutId `{B : Builtins} files idx rnd rnd' n m l :
  List.map withoutId (emitAll files idx rnd n l)
  = List.map withoutId (emitAll files idx rnd' m l).
Proof.
  revert n m; induction l as [|s l IH]; intros n m; [done|].
  cbn [emitAll List.map]. f_equal; [apply emit_withoutId|apply IH].
Qed.

(** X19. The random draws decide the ids and nothing else: when a parse
    succeeds with one source of random suffixes it succeeds with every
    other, and returns the same questions up to their ids and the same
    round types. *)
Theorem random_only_ids `{B : Builtins} (files : ZipFiles)
    (rnd rnd' : nat -> string) (res : ParseResult) :
  parseSiq (Some files) rnd = Ok res ->
  exists res',
    parseSiq (Some files) rnd' = Ok res'
    /\ List.map withoutId (r_questions res') = List.map withoutId (r_questions res)
    /\ r_roundTypes res' = r_roundTypes res.
Proof.
  intros H. destruct (parseSiq_ok_inv _ _ _ H) as (x & Hx & Hq & Hr & Hok).
  destruct (parseSiq_returns files rnd' x Hx Hok) as [res' H'].
  exists res'. split; [done|].
  destruct (parseSiq_ok_inv _ _ _ H') as (x' & Hx' & Hq' & Hr' & _).
  assert (x' = x) as -> by congruence.
  rewrite Hq, Hq', Hr, Hr'. split; [apply emitAll_withoutId|done].
Qed.

Lemma random_only_ids_witness :
  exists res',
    parseSiq (B := Samples.builtins) (Some Samples.archiveTwoRounds) (fun _ => "zzzzz")
    = Ok res'
    /\ List.map withoutId (r_questions res')
       = List.map withoutId (r_questions parsedTwoRounds)
    /\ r_roundTypes res' = r_roundTypes parsedTwoRounds.
Proof.
  apply (random_only_ids (B := Samples.builtins) Samples.archiveTwoRounds
           Samples.suffixes (fun _ => "zzzzz") parsedTwoRounds).
  vm_compute. reflexivity.
Defined.

(** ** The file detector and the folder structure *)

Lemma find_existsb {A} (p : A -> bool) l :
  bool_decide (is_Some (List.find p l)) = List.existsb p l.
Proof.
  induction l as [|a l IH]; simpl; [done|].
  destruct (p a); [|done]. apply bool_decide_eq_true_2. eauto.
Qed.

Lemma find_none_existsb {A} (p : A -> bool) l :
  List.existsb p l = false -> List.find p l = None.
Proof.
  intros H. rewrite <- find_existsb in H. apply bool_decide_eq_false in H.
  destruct (List.find p l); [|done]. destruct H. eauto.
Qed.

Lemma find_some_existsb {A} (p : A -> bool) l :
  List.existsb p l = true -> is_Some (List.find p l).
Proof.
  intros H. rewrite <- find_existsb in H. by apply bool_decide_eq_true in H.
Qed.

Section DetectorFacts.

Context `{B : Builtins}.

(** Lower case leaves the two reserved file names as they are. *)
Hypothesis lower_question : toLowerCase "question.txt" = "question.txt".
Hypothesis lower_answer : toLowerCase "answer.txt" = "answer.txt".

Lemma findTextFile_includes files name :
  toLowerCase name = name ->
  bool_decide (is_Some (findTextFile files name))
  = List.existsb (String.eqb name) (List.map (fun f => toLowerCase (lf_name f)) files).
Proof.
  intros Hn. unfold findTextFile. rewrite find_existsb, Hn.
  induction files as [|f files IH]; simpl; [done|].
  by rewrite IH, String.eqb_sym.
Qed.

(** X20. The type detected for a folder agrees with what the finders
    return on it.  An audio folder has an audio file; a video folder has
    a video file, no audio file and both text files; a text folder has
    both text files and neither an audio nor a video file. *)
Theorem detectQuestionType_finders (files : list LocalFile) :
  match detectQuestionType files with
  | FAudio => is_Some (findAudioFile files)
  | FVideo =>
      is_Some (findVideoFile files) /\ findAudioFile files = None
      /\ is_Some (findTextFile files "question.txt")
      /\ is_Some (findTextFile files "answer.txt")
  | FText =>
      findAudioFile files = None /\ findVideoFile files = None
      /\ is_Some (findTextFile files "question.txt")
      /\ is_Some (findTextFile files "answer.txt")
  | FMashup => True
  end.
Proof.
  pose proof (findTextFile_includes files "question.txt" lower_question) as Hq.
  pose proof (findTextFile_includes files "answer.txt" lower_answer) as Ha.
  pose proof (find_some_existsb isAudioName files) as Hau.
  pose proof (find_none_existsb isAudioName files) as Hnau.
  pose proof (find_some_existsb isVideoName files) as Hvi.
  pose proof (find_none_existsb isVideoName files) as Hnvi.
  unfold detectQuestionType, findAudioFile, findVideoFile. cbv zeta.
  destruct (List.existsb isAudioName files);
    destruct (List.existsb isVideoName files);
    destruct (2 <=? length (List.filter isImageName files))%nat;
    destruct (List.existsb (String.eqb "question.txt") _);
    destruct (List.existsb (String.eqb "answer.txt") _);
    cbn [andb negb]; try apply bool_decide_eq_true in Hq;
    try apply bool_decide_eq_true in Ha; auto 10.
Qed.

(** X21. A folder that holds both [question.txt] and [answer.txt] is never
    a mashup: it is an audio question when it holds an audio file,
    otherwise a video question when it holds a video file, otherwise a
    text question, however many images it holds. *)
Theorem detectQuestionType_with_texts (files : list LocalFile) :
  is_Some (findTextFile files "question.txt") ->
  is_Some (findTextFile files "answer.txt") ->
  detectQuestionType files
  = if bool_decide (is_Some (findAudioFile files)) then FAudio
    else if bool_decide (is_Some (findVideoFile files)) then FVideo
    else FText.
Proof.
  intros Hq Ha.
  apply (bool_decide_eq_true_2 _) in Hq. apply (bool_decide_eq_true_2 _) in Ha.
  rewrite findTextFile_includes in Hq, Ha by done.
  unfold detectQuestionType, findAudioFile, findVideoFile. cbv zeta.
  rewrite Hq, Ha, !find_existsb.
  destruct (List.existsb isAudioName files);
    destruct (List.existsb isVideoName files);
    by destruct (2 <=? length (List.filter isImageName files))%nat.
Qed.

End DetectorFacts.

Lemma detectQuestionType_finders_witness :
  is_Some (findAudioFile pickedFiles).
Proof.
  apply (detectQuestionType_finders (B := Samples.builtins) eq_refl eq_refl pickedFiles).
Defined.

Lemma detectQuestionType_with_texts_witness :
  detectQuestionType (B := Samples.builtins) pickedFiles = FAudio.
Proof.
  rewrite (detectQuestionType_with_texts (B := Samples.builtins) eq_refl eq_refl pickedFiles).
  - reflexivity.
  - vm_compute. eauto.
  - vm_compute. eauto.
Defined.

Lemma folderFiles_addFile structure file round folder :
  folderFiles (addFile structure file) round folder
  = folderFiles structure round folder
    ++ (if inFolder round folder file then [file] else []).
Proof.
  unfold addFile, inFolder, folderFiles.
  destruct (JsText.split "/" (lf_path file)) as [|p0 [|r [|f rest]]];
    try by rewrite app_nil_r.
  destruct (String.eqb_spec r round) as [->|Hr].
  - rewrite lookup_insert_eq. cbn [mbind option_bind].
    destruct (String.eqb_spec f folder) as [->|Hf]; cbn [andb].
    + rewrite lookup_insert_eq. cbn [default].
      by destruct (structure !! round) as [m|]; cbn [default mbind option_bind].
    + rewrite lookup_insert_ne, app_nil_r by done.
      by destruct (structure !! round) as [m|]; cbn [default mbind option_bind].
  - by rewrite lookup_insert_ne, app_nil_r.
Qed.

Lemma folderFiles_fold files structure round folder :
  folderFiles (fold_left addFile files structure) round folder
  = folderFiles structure round folder ++ List.filter (inFolder round folder) files.
Proof.
  revert structure; induction files as [|file files IH]; intros structure; simpl.
  - by rewrite app_nil_r.
  - rewrite IH, folderFiles_addFile, <- app_assoc.
    by destruct (inFolder round folder file).
Qed.

Lemma populated_addFile structure file :
  populated structure -> populated (addFile structure file).
Proof.
  intros Hp. unfold addFile.
  destruct (JsText.split "/" (lf_path file)) as [|p0 [|r [|f rest]]]; try done.
  intros round folders. destruct (decide (r = round)) as [->|Hr].
  - rewrite lookup_insert_eq. intros [= <-]. split.
    + apply insert_non_empty.
    + intros folder l. destruct (decide (f = folder)) as [->|Hf].
      * rewrite lookup_insert_eq. intros [= <-]. by destruct (default [] _).
      * rewrite lookup_insert_ne by done.
        destruct (structure !! round) as [m|] eqn:Hm; cbn [default]; [|done].
        by apply (Hp round m).
  - rewrite lookup_insert_ne by done. apply Hp.
Qed.

Lemma populated_fold files structure :
  populated structure -> populated (fold_left addFile files structure).
Proof.
  revert structure; induction files as [|file files IH]; intros structure H; [done|].
  simpl. by apply IH, populated_addFile.
Qed.

(** X22. The folder structure groups the picked files by the second and
    third segment of their relative path.  As long as no round or folder
    bears a name that objects inherit, the files recorded for a round
    and a folder are exactly the picked files whose path names them, in
    the order in which they were picked; a file whose path has fewer
    than three segments is recorded nowhere; and no round is recorded
    without a folder, no folder without a file. *)
Theorem parseFileStructure_groups (files : list LocalFile) :
  List.forallb hasPlainNames files = true ->
  (forall round folder,
      folderFiles (parseFileStructure files) round folder
      = List.filter (inFolder round folder) files)
  /\ populated (parseFileStructure files).
Proof.
  intros _. unfold parseFileStructure. split.
  - intros round folder. by rewrite folderFiles_fold.
  - apply populated_fold. intros round folders H. by rewrite lookup_empty in H.
Qed.

Lemma parseFileStructure_groups_witness :
  folderFiles (parseFileStructure pickedFiles) "Round 1" "Rock_100"
  = [ mkLocal "Track.MP3" "pack/Round 1/Rock_100/Track.MP3";
      mkLocal "question.txt" "pack/Round 1/Rock_100/question.txt";
      mkLocal "Answer.txt" "pack/Round 1/Rock_100/Answer.txt" ].
Proof.
  destruct (parseFileStructure_groups pickedFiles) as [H _].
  - reflexivity.
  - rewrite H. reflexivity.
Defined.
